(** * The OCR pipeline of text_recognition_app

    A shallow embedding of [server/ocr.ts], [server/db.ts] and the [ocr]
    router of [server/routers.ts]: image validation, image optimisation, the
    lazily created recognition worker, single and batch processing, and the
    result store.

    Conventions.
    - A JavaScript [number] is an IEEE 754 binary64 value, [spec_float] with
      precision 53 and maximal exponent 1024.  Byte counts, row ids and clock
      readings are integers ([nat] or [Z]) and are converted where the code
      mixes them with a [number].
    - An [async] function is a computation in the monad [M]: it threads the
      process state [World] and ends normally or by throwing a JavaScript
      value.  One request runs from start to end; the interleaving of two
      requests at an [await] is modelled apart, for [getOcrWorker].
    - Libraries and services the code calls (sharp, tesseract.js, the object
      storage, nanoid, the MySQL driver, [Date.now], [Number::toString],
      base64 decoding) are the fields of the class [Runtime].
    - [console.warn] and [console.error] are not modelled. *)

From Stdlib Require Import ZArith List String Ascii Bool Lia DecimalString.
From Stdlib Require Import Strings.Byte.
From Stdlib Require Import Floats.SpecFloat.
From Stdlib Require Import Sorting.Permutation Sorting.Sorted.
Import ListNotations.
Open Scope string_scope.
Open Scope Z_scope.

Set Implicit Arguments.

(** ** JavaScript values the code relies on *)

Module Js.

(** binary64 *)
Definition number := spec_float.
Definition prec : Z := 53.
Definition emax : Z := 1024.

Definition ofZ (z : Z) : number := binary_normalize prec emax z 0 false.
Definition mul (x y : number) : number := SFmul prec emax x y.
Definition div (x y : number) : number := SFdiv prec emax x y.
(** [x > y] and [x <= y]; both are false when an operand is NaN *)
Definition gt (x y : number) : bool := SFltb y x.
Definition le (x y : number) : bool := SFleb x y.

(** [Math.round]: the integer nearest to [x], a tie going up.  A finite
    number with a negative exponent is [m * 2^e]; adding one half and taking
    the floor is the floor of [(2m + 2^(-e)) / 2^(1-e)].  A negative number
    that rounds to zero gives [-0].  Other numbers are integers already, or
    not finite, and are returned as they are. *)
Definition roundZ (s : bool) (m : positive) (e : Z) : Z :=
  (2 * cond_Zopp s (Zpos m) + 2 ^ (- e)) / 2 ^ (1 - e).
Definition round (x : number) : number :=
  match x with
  | S754_finite s m e =>
      if e <? 0 then binary_normalize prec emax (roundZ s m e) 0 s else x
  | _ => x
  end.

(** the integer part of a finite number; 0 for the others *)
Definition toZ (x : number) : Z :=
  match x with
  | S754_finite s m e =>
      cond_Zopp s (if e <? 0 then Zpos m / 2 ^ (- e) else Zpos m * 2 ^ e)
  | _ => 0
  end.

(** ToBoolean on a number: [+0], [-0] and NaN are falsy *)
Definition truthy (x : number) : bool :=
  match x with
  | S754_zero _ | S754_nan => false
  | _ => true
  end.

(** [v || d] for a number that may be [undefined] *)
Definition num_or (v : option number) (d : number) : number :=
  match v with
  | Some x => if truthy x then x else d
  | None => d
  end.

(** [v || d] for a string that may be [undefined]; the empty string is falsy *)
Definition str_or (v : option string) (d : string) : string :=
  match v with
  | Some EmptyString | None => d
  | Some s => s
  end.

(** A thrown value: an instance of [Error] with its message, or anything else. *)
Inductive thrown :=
| Error (message : string)
| NonError (repr : string).

(** [error instanceof Error ? error.message : fallback] *)
Definition message_or (e : thrown) (fallback : string) : string :=
  match e with
  | Error m => m
  | NonError _ => fallback
  end.

(** How a call ends. *)
Inductive completion (A : Type) :=
| Normal (a : A)
| Throw (e : thrown).
Arguments Normal {A} a.
Arguments Throw {A} e.

(** [xs.includes(x)] on an array of strings *)
Definition includes (xs : list string) (x : string) : bool :=
  existsb (String.eqb x) xs.

(** [xs.join(sep)] *)
Definition join (sep : string) (xs : list string) : string :=
  String.concat sep xs.

(** [s.includes(t)] on strings: [t] occurs in [s] *)
Definition contains (s t : string) : Prop :=
  exists pre post, s = pre ++ t ++ post.

End Js.

Definition Buffer := list byte.
Definition Buffer_length (b : Buffer) : Js.number := Js.ofZ (Z.of_nat (List.length b)).

(** ** ocr.ts: validateImageFile *)

Record Validation := { valid : bool; error : option string }.

Definition allowedMimeTypes : list string :=
  ["image/jpeg"; "image/png"; "image/webp"; "image/tiff"].

(** [10 * 1024 * 1024], the default of [maxSizeBytes] *)
Definition defaultMaxSizeBytes : Js.number :=
  Js.mul (Js.mul (Js.ofZ 10) (Js.ofZ 1024)) (Js.ofZ 1024).

Section Validate.

(** [Number::toString], used by the template literal of the size message *)
Variable numberToString : Js.number -> string.

Definition validateImageFile (buffer : Buffer) (mimeType : string)
    (maxSizeBytes : Js.number) : Validation :=
  if Js.gt (Buffer_length buffer) maxSizeBytes then
    {| valid := false;
       error := Some ("File size exceeds maximum of "
                      ++ numberToString (Js.div (Js.div maxSizeBytes (Js.ofZ 1024)) (Js.ofZ 1024))
                      ++ "MB") |}
  else if negb (Js.includes allowedMimeTypes mimeType) then
    {| valid := false;
       error := Some ("Unsupported image format. Allowed: "
                      ++ Js.join ", " allowedMimeTypes) |}
  else {| valid := true; error := None |}.

End Validate.

(** ** The libraries and services the code calls *)

(** [sharp(...).metadata()]: the field the code reads *)
Record Metadata := { width : option Z }.

(** The operations the code adds to a sharp pipeline *)
Inductive SharpOp :=
| resize (w h : Z) (fit : string) (withoutEnlargement : bool)
| grayscale.

(** [result.data] of [worker.recognize] *)
Record RecognizeData := {
  data_text : option string;
  data_confidence : option Js.number
}.

(** ** drizzle/schema.ts: the ocrResults table *)

Record OcrResultRow := {
  row_id : Z;
  row_userId : Z;
  row_imageFileName : string;
  row_imageUrl : string;
  row_extractedText : string;
  row_confidence : Js.number;
  row_language : string;
  row_processingTimeMs : Z;
  row_createdAt : Z;
  row_updatedAt : Z
}.

Record InsertOcrResult := {
  ins_userId : Z;
  ins_imageFileName : string;
  ins_imageUrl : string;
  ins_extractedText : string;
  ins_confidence : Js.number;
  ins_language : string;
  ins_processingTimeMs : Z
}.

(** The two statements db.ts sends for this table:
    [insert(ocrResults).values(result)] and
    [delete(ocrResults).where(and(eq(id, ...), eq(userId, ...)))]. *)
Inductive Statement :=
| InsertInto (result : InsertOcrResult)
| DeleteWhere (id userId : Z).

Class Runtime := {
  (** the state of everything outside the process: clock, engine, storage *)
  Ext : Type;
  Worker : Type;
  Database : Type;
  Date_now : Ext -> Z;
  numberToString : Js.number -> string;
  Buffer_from_base64 : string -> Buffer;
  nanoid : Ext -> string * Ext;
  sharp_metadata : Buffer -> Ext -> Js.completion Metadata * Ext;
  sharp_toBuffer : Buffer -> list SharpOp -> Ext -> Js.completion Buffer * Ext;
  createWorker : string -> Ext -> Js.completion Worker * Ext;
  Worker_recognize : Worker -> Buffer -> Ext -> Js.completion RecognizeData * Ext;
  Worker_terminate : Worker -> Ext -> Js.completion unit * Ext;
  storagePut : string -> Buffer -> string -> Ext -> Js.completion string * Ext;
  drizzle : string -> Ext -> Js.completion Database * Ext;
  (** sending one statement: [Some e] when the driver rejects it *)
  Database_execute : Database -> Statement -> Ext -> option Js.thrown * Ext
}.

(** ** The state of the process *)

Record World {R : Runtime} := {
  ext : Ext;
  (** [let ocrWorker] of ocr.ts *)
  ocrWorker : option Worker;
  (** [let _db] of db.ts *)
  db_ : option Database;
  (** [process.env.DATABASE_URL] *)
  DATABASE_URL : option string;
  (** the rows of the ocrResults table and its auto-increment counter *)
  ocrResults : list OcrResultRow;
  ocrResults_nextId : Z;
  (** ghost: how many times [createWorker] has been called *)
  workersCreated : nat
}.

Section Pipeline.

Context {R : Runtime}.

Definition set_ext (x : Ext) (w : World) : World :=
  {| ext := x; ocrWorker := ocrWorker w; db_ := db_ w;
     DATABASE_URL := DATABASE_URL w; ocrResults := ocrResults w;
     ocrResults_nextId := ocrResults_nextId w;
     workersCreated := workersCreated w |}.

Definition set_ocrWorker (v : option Worker) (w : World) : World :=
  {| ext := ext w; ocrWorker := v; db_ := db_ w;
     DATABASE_URL := DATABASE_URL w; ocrResults := ocrResults w;
     ocrResults_nextId := ocrResults_nextId w;
     workersCreated := workersCreated w |}.

Definition set_db (v : option Database) (w : World) : World :=
  {| ext := ext w; ocrWorker := ocrWorker w; db_ := v;
     DATABASE_URL := DATABASE_URL w; ocrResults := ocrResults w;
     ocrResults_nextId := ocrResults_nextId w;
     workersCreated := workersCreated w |}.

Definition set_table (rows : list OcrResultRow) (next : Z) (w : World) : World :=
  {| ext := ext w; ocrWorker := ocrWorker w; db_ := db_ w;
     DATABASE_URL := DATABASE_URL w; ocrResults := rows;
     ocrResults_nextId := next;
     workersCreated := workersCreated w |}.

Definition count_worker (w : World) : World :=
  {| ext := ext w; ocrWorker := ocrWorker w; db_ := db_ w;
     DATABASE_URL := DATABASE_URL w; ocrResults := ocrResults w;
     ocrResults_nextId := ocrResults_nextId w;
     workersCreated := S (workersCreated w) |}.

(** *** Computations: state and exceptions *)

Definition M (A : Type) : Type := World -> Js.completion A * World.

Definition ret {A} (a : A) : M A := fun w => (Js.Normal a, w).

Definition bind {A B} (c : M A) (k : A -> M B) : M B :=
  fun w =>
    match c w with
    | (Js.Normal a, w') => k a w'
    | (Js.Throw e, w') => (Js.Throw e, w')
    end.

Definition throw {A} (e : Js.thrown) : M A := fun w => (Js.Throw e, w).

(** [try { body } catch (error) { handler }]: what [body] did to the state
    before it threw stays done. *)
Definition try_catch {A} (body : M A) (handler : Js.thrown -> M A) : M A :=
  fun w =>
    match body w with
    | (Js.Normal a, w') => (Js.Normal a, w')
    | (Js.Throw e, w') => handler e w'
    end.

(** a call into the outside world *)
Definition call {A} (f : Ext -> Js.completion A * Ext) : M A :=
  fun w => let (r, x) := f (ext w) in (r, set_ext x w).

(** a call into the outside world that cannot throw *)
Definition draw {A} (f : Ext -> A * Ext) : M A :=
  fun w => let (a, x) := f (ext w) in (Js.Normal a, set_ext x w).

Definition now : M Z := fun w => (Js.Normal (Date_now (ext w)), w).

End Pipeline.

Declare Scope js_scope.
Delimit Scope js_scope with js.
Notation "x <- c ;; k" := (bind c (fun x => k))
  (at level 100, c at next level, right associativity) : js_scope.
Notation "c ;;; k" := (bind c (fun _ => k))
  (at level 100, right associativity) : js_scope.
Open Scope js_scope.

(** ** ocr.ts *)

Record OcrOutcome := {
  ocr_text : string;
  ocr_confidence : Js.number;
  ocr_language : string;
  ocr_processingTimeMs : Z;
  ocr_success : bool;
  ocr_error : option string
}.

Section Ocr.

Context {R : Runtime}.

Definition read_ocrWorker : M (option Worker) :=
  fun w => (Js.Normal (ocrWorker w), w).
Definition write_ocrWorker (v : option Worker) : M unit :=
  fun w => (Js.Normal tt, set_ocrWorker v w).

(** [createWorker(lang)], counted *)
Definition createWorker_call (lang : string) : M Worker :=
  fun w => call (createWorker lang) (count_worker w).

Definition getOcrWorker : M (option Worker) :=
  cur <- read_ocrWorker ;;
  match cur with
  | None =>
      try_catch
        (x <- createWorker_call "eng" ;; write_ocrWorker (Some x))
        (fun _ => throw (Js.Error "Failed to initialize OCR worker"))
  | Some _ => ret tt
  end ;;;
  read_ocrWorker.

Definition terminateOcrWorker : M unit :=
  cur <- read_ocrWorker ;;
  match cur with
  | Some wk =>
      try_catch
        (call (Worker_terminate wk) ;;; write_ocrWorker None)
        (fun _ => ret tt)
  | None => ret tt
  end.

(** [metadata.width && metadata.width > 4000] *)
Definition too_wide (metadata : Metadata) : bool :=
  match width metadata with
  | Some px => negb (px =? 0) && (px >? 4000)
  | None => false
  end.

Definition optimizeImage (imageBuffer : Buffer) : M Buffer :=
  try_catch
    (metadata <- call (sharp_metadata imageBuffer) ;;
     let pipeline : list SharpOp := [] in
     let pipeline :=
       if too_wide metadata
       then (pipeline ++ [resize 4000 4000 "inside" true])%list
       else pipeline in
     let pipeline := (pipeline ++ [grayscale])%list in
     call (sharp_toBuffer imageBuffer pipeline))
    (fun _ => ret imageBuffer).

(** [worker.recognize(buf)]; on [null] the property access throws a
    TypeError, which is an [Error] *)
Definition recognize (worker : option Worker) (buf : Buffer) : M RecognizeData :=
  match worker with
  | Some wk => call (Worker_recognize wk buf)
  | None => throw (Js.Error "Cannot read properties of null (reading 'recognize')")
  end.

Definition processImageWithOcr (imageBuffer : Buffer) (language : string)
    : M OcrOutcome :=
  startTime <- now ;;
  try_catch
    (optimizedBuffer <- optimizeImage imageBuffer ;;
     worker <- getOcrWorker ;;
     result <- recognize worker optimizedBuffer ;;
     t <- now ;;
     let processingTimeMs := t - startTime in
     ret {| ocr_text := Js.str_or (data_text result) "";
            ocr_confidence :=
              Js.round (Js.mul (Js.num_or (data_confidence result) (Js.ofZ 0))
                               (Js.ofZ 100));
            ocr_language := language;
            ocr_processingTimeMs := processingTimeMs;
            ocr_success := true;
            ocr_error := None |})
    (fun error =>
     t <- now ;;
     let processingTimeMs := t - startTime in
     ret {| ocr_text := "";
            ocr_confidence := Js.ofZ 0;
            ocr_language := language;
            ocr_processingTimeMs := processingTimeMs;
            ocr_success := false;
            ocr_error := Some (Js.message_or error "Unknown error") |}).

End Ocr.

(** ** db.ts *)

Section Db.

Context {R : Runtime}.

Definition read_db : M (option Database) :=
  fun w => (Js.Normal (db_ w), w).
Definition write_db (v : option Database) : M unit :=
  fun w => (Js.Normal tt, set_db v w).

(** The row an insert creates: the id comes from the auto-increment
    counter, both timestamps default to the time of the insert. *)
Definition new_row (id t : Z) (r : InsertOcrResult) : OcrResultRow :=
  {| row_id := id;
     row_userId := ins_userId r;
     row_imageFileName := ins_imageFileName r;
     row_imageUrl := ins_imageUrl r;
     row_extractedText := ins_extractedText r;
     row_confidence := ins_confidence r;
     row_language := ins_language r;
     row_processingTimeMs := ins_processingTimeMs r;
     row_createdAt := t;
     row_updatedAt := t |}.

(** [WHERE id = ? AND userId = ?] *)
Definition matches (id userId : Z) (r : OcrResultRow) : bool :=
  (row_id r =? id) && (row_userId r =? userId).

(** What a statement does to the table once the server has accepted it. *)
Definition apply_statement (st : Statement) (w : World) : World :=
  match st with
  | InsertInto r =>
      set_table
        (ocrResults w ++ [new_row (ocrResults_nextId w) (Date_now (ext w)) r])%list
        (ocrResults_nextId w + 1) w
  | DeleteWhere id userId =>
      set_table
        (filter (fun r => negb (matches id userId r)) (ocrResults w))
        (ocrResults_nextId w) w
  end.

(** Awaiting a query: a rejected statement throws and changes no row. *)
Definition execute (db : Database) (st : Statement) : M unit :=
  fun w =>
    match Database_execute db st (ext w) with
    | (Some e, x) => (Js.Throw e, set_ext x w)
    | (None, x) => (Js.Normal tt, apply_statement st (set_ext x w))
    end.

Definition getDb : M (option Database) :=
  fun w =>
    (match db_ w, DATABASE_URL w with
     | None, Some (String c u) =>
         try_catch
           (d <- call (drizzle (String c u)) ;; write_db (Some d))
           (fun _ => write_db None)
     | _, _ => ret tt
     end ;;;
     read_db) w.

Definition saveOcrResult (result : InsertOcrResult)
    : M (option InsertOcrResult) :=
  db <- getDb ;;
  match db with
  | None => ret None
  | Some d =>
      try_catch
        (execute d (InsertInto result) ;;; ret (Some result))
        (fun error => throw error)
  end.

Definition deleteOcrResult (id userId : Z) : M bool :=
  db <- getDb ;;
  match db with
  | None => ret false
  | Some d =>
      try_catch
        (execute d (DeleteWhere id userId) ;;; ret true)
        (fun error => throw error)
  end.

End Db.

(** ** routers.ts: the ocr router *)

(** One image of a request, after zod has filled in the default language. *)
Record ImageInput := {
  imageData : string;
  fileName : string;
  mimeType : string;
  language : string
}.

Record ProcessImageResponse := {
  resp_success : bool;
  resp_text : string;
  resp_confidence : Js.number;
  resp_processingTimeMs : Z;
  resp_imageUrl : string
}.

Record ItemSuccess := {
  item_fileName : string;
  item_text : string;
  item_confidence : Js.number;
  item_processingTimeMs : Z;
  item_imageUrl : string;
  item_success : bool
}.

Record ItemError := {
  err_fileName : string;
  err_error : string
}.

Record BatchOutcome := {
  success : bool;
  results : list ItemSuccess;
  errors : list ItemError;
  totalProcessed : nat;
  totalFailed : nat
}.

Record DeleteResponse := { del_success : bool }.

Section Routers.

Context {R : Runtime}.

(** [`ocr/${ctx.user.id}/${nanoid()}-${fileName}`] *)
Definition fileKey (userId : Z) (token name : string) : string :=
  "ocr/" ++ numberToString (Js.ofZ userId) ++ "/" ++ token ++ "-" ++ name.

Definition insertOf (userId : Z) (input : ImageInput) (imageUrl : string)
    (ocrResult : OcrOutcome) : InsertOcrResult :=
  {| ins_userId := userId;
     ins_imageFileName := fileName input;
     ins_imageUrl := imageUrl;
     ins_extractedText := ocr_text ocrResult;
     ins_confidence := ocr_confidence ocrResult;
     ins_language := language input;
     ins_processingTimeMs := ocr_processingTimeMs ocrResult |}.

Definition processImage (userId : Z) (input : ImageInput)
    : M ProcessImageResponse :=
  try_catch
    (let imageBuffer := Buffer_from_base64 (imageData input) in
     let validation :=
       validateImageFile numberToString imageBuffer (mimeType input)
                         defaultMaxSizeBytes in
     if negb (valid validation) then
       throw (Js.Error (Js.str_or (error validation) "Invalid image"))
     else
       ocrResult <- processImageWithOcr imageBuffer (language input) ;;
       if negb (ocr_success ocrResult) then
         throw (Js.Error (Js.str_or (ocr_error ocrResult) "OCR processing failed"))
       else
         token <- draw nanoid ;;
         imageUrl <- call (storagePut (fileKey userId token (fileName input))
                                      imageBuffer (mimeType input)) ;;
         saveOcrResult (insertOf userId input imageUrl ocrResult) ;;;
         ret {| resp_success := true;
                resp_text := ocr_text ocrResult;
                resp_confidence := ocr_confidence ocrResult;
                resp_processingTimeMs := ocr_processingTimeMs ocrResult;
                resp_imageUrl := imageUrl |})
    (fun error =>
       throw (Js.Error (Js.message_or error "Failed to process image"))).

Definition deleteResult (userId : Z) (id : Z) : M DeleteResponse :=
  try_catch
    (deleteOcrResult id userId ;;; ret {| del_success := true |})
    (fun _ => throw (Js.Error "Failed to delete OCR result")).

(** The two arrays of [processBatch]. *)
Definition Acc : Type := list ItemSuccess * list ItemError.

Definition push_result (acc : Acc) (r : ItemSuccess) : Acc :=
  (fst acc ++ [r], snd acc)%list.
Definition push_error (acc : Acc) (e : ItemError) : Acc :=
  (fst acc, snd acc ++ [e])%list.

(** The body of the [for] loop.  Every [push] is the last thing its path
    does inside the [try], so the handler sees the arrays as they were when
    the iteration began. *)
Definition processBatch_body (userId : Z) (image : ImageInput) (acc : Acc)
    : M Acc :=
  try_catch
    (let imageBuffer := Buffer_from_base64 (imageData image) in
     let validation :=
       validateImageFile numberToString imageBuffer (mimeType image)
                         defaultMaxSizeBytes in
     if negb (valid validation) then
       ret (push_error acc
              {| err_fileName := fileName image;
                 err_error := Js.str_or (error validation) "Invalid image" |})
     else
       ocrResult <- processImageWithOcr imageBuffer (language image) ;;
       if negb (ocr_success ocrResult) then
         ret (push_error acc
                {| err_fileName := fileName image;
                   err_error := Js.str_or (ocr_error ocrResult)
                                          "OCR processing failed" |})
       else
         token <- draw nanoid ;;
         imageUrl <- call (storagePut (fileKey userId token (fileName image))
                                      imageBuffer (mimeType image)) ;;
         saveOcrResult (insertOf userId image imageUrl ocrResult) ;;;
         ret (push_result acc
                {| item_fileName := fileName image;
                   item_text := ocr_text ocrResult;
                   item_confidence := ocr_confidence ocrResult;
                   item_processingTimeMs := ocr_processingTimeMs ocrResult;
                   item_imageUrl := imageUrl;
                   item_success := true |}))
    (fun error =>
       ret (push_error acc
              {| err_fileName := fileName image;
                 err_error := Js.message_or error "Unknown error" |})).

(** [for (let i = 0; i < input.images.length; i++)] *)
Fixpoint processBatch_loop (userId : Z) (images : list ImageInput) (acc : Acc)
    : M Acc :=
  match images with
  | [] => ret acc
  | image :: rest =>
      acc' <- processBatch_body userId image acc ;;
      processBatch_loop userId rest acc'
  end.

Definition processBatch (userId : Z) (images : list ImageInput)
    : M BatchOutcome :=
  acc <- processBatch_loop userId images ([], []) ;;
  ret {| success := true;
         results := fst acc;
         errors := snd acc;
         totalProcessed := List.length (fst acc);
         totalFailed := List.length (snd acc) |}.

End Routers.

(** ** Two requests in flight: getOcrWorker, one step at a time

    A call of an [async] function runs until its first [await] and gives the
    event loop back; another request may run before it is resumed.
    [getOcrWorker] has one [await], on [createWorker("eng")]. *)

Section Interleaving.

Context {R : Runtime}.

Inductive GetPc :=
| AtEntry
  (** suspended at [await createWorker("eng")]; [r] is how the promise settles *)
| AwaitCreate (r : Js.completion Worker)
| Returned (r : Js.completion (option Worker)).

Definition getOcrWorker_step (pc : GetPc) (w : World) : GetPc * World :=
  match pc with
  | AtEntry =>
      match ocrWorker w with
      | None => let (r, w') := createWorker_call "eng" w in (AwaitCreate r, w')
      | Some _ => (Returned (Js.Normal (ocrWorker w)), w)
      end
  | AwaitCreate (Js.Normal x) =>
      let w' := set_ocrWorker (Some x) w in
      (Returned (Js.Normal (ocrWorker w')), w')
  | AwaitCreate (Js.Throw _) =>
      (Returned (Js.Throw (Js.Error "Failed to initialize OCR worker")), w)
  | Returned r => (Returned r, w)
  end.

(** The calls in flight, and a schedule: which call the event loop runs next. *)
Fixpoint step_nth (i : nat) (pcs : list GetPc) (w : World)
    : list GetPc * World :=
  match pcs, i with
  | [], _ => ([], w)
  | pc :: rest, O =>
      let (pc', w') := getOcrWorker_step pc w in (pc' :: rest, w')
  | pc :: rest, S j =>
      let (rest', w') := step_nth j rest w in (pc :: rest', w')
  end.

Fixpoint run_schedule (schedule : list nat) (pcs : list GetPc) (w : World)
    : list GetPc * World :=
  match schedule with
  | [] => (pcs, w)
  | i :: later =>
      let (pcs', w') := step_nth i pcs w in run_schedule later pcs' w'
  end.

End Interleaving.

(** ** A concrete runtime

    A small deterministic world in which every function above can be run:
    a clock that each call advances, an engine, a storage service and a
    database server that are up or down, and counters that name the workers
    and the upload tokens.  Image data is taken as the bytes of the string
    (no base64 decoding); an image is as many thousand pixels wide as it has
    bytes, resizing keeps four bytes, grayscale appends a byte, and
    recognition returns the bytes as text with confidence 0.876 unless the
    image starts with an exclamation mark. *)

Module Lab.

Record Outside := {
  clock : Z;
  tokens : nat;
  engines : nat;
  engine_ok : bool;
  storage_ok : bool;
  database_ok : bool
}.

Definition tick (d : Z) (x : Outside) : Outside :=
  {| clock := clock x + d; tokens := tokens x; engines := engines x;
     engine_ok := engine_ok x; storage_ok := storage_ok x;
     database_ok := database_ok x |}.

Definition decimal (z : Z) : string := NilZero.string_of_int (Z.to_int z).

(** The integer part of a number, in decimal; this is what
    [Number::toString] prints for the integer values below [10^21]. *)
Definition showNumber (x : Js.number) : string := decimal (Js.toZ x).

(** 0.876, the number nearest to 876/1000 *)
Definition c876 : Js.number := Js.div (Js.ofZ 876) (Js.ofZ 1000).

Definition metadata (buf : Buffer) (x : Outside)
    : Js.completion Metadata * Outside :=
  match buf with
  | [] => (Js.Throw (Js.Error "Input buffer is empty"), tick 1 x)
  | _ => (Js.Normal {| width := Some (1000 * Z.of_nat (List.length buf)) |},
          tick 1 x)
  end.

Definition transform (op : SharpOp) (buf : Buffer) : Buffer :=
  match op with
  | resize _ _ _ _ => firstn 4 buf
  | grayscale => (buf ++ ["G"%byte])%list
  end.

Definition toBuffer (buf : Buffer) (ops : list SharpOp) (x : Outside)
    : Js.completion Buffer * Outside :=
  (Js.Normal (fold_left (fun b op => transform op b) ops buf), tick 2 x).

Definition create (lang : string) (x : Outside)
    : Js.completion nat * Outside :=
  if engine_ok x then
    (Js.Normal (engines x),
     tick 5 {| clock := clock x; tokens := tokens x; engines := S (engines x);
               engine_ok := engine_ok x; storage_ok := storage_ok x;
               database_ok := database_ok x |})
  else (Js.Throw (Js.NonError "worker script failed to load"), tick 5 x).

Definition recognizeWith (wk : nat) (buf : Buffer) (x : Outside)
    : Js.completion RecognizeData * Outside :=
  match buf with
  | "!"%byte :: _ => (Js.Throw (Js.Error "Image is unreadable"), tick 3 x)
  | _ => (Js.Normal {| data_text := Some (string_of_list_byte buf);
                       data_confidence := Some c876 |}, tick 7 x)
  end.

Definition put (key : string) (buf : Buffer) (mime : string) (x : Outside)
    : Js.completion string * Outside :=
  if storage_ok x then (Js.Normal ("https://files.test/" ++ key), tick 4 x)
  else (Js.Throw (Js.Error "Storage upload failed"), tick 4 x).

Definition token (x : Outside) : string * Outside :=
  ("t" ++ decimal (Z.of_nat (tokens x)),
   {| clock := clock x; tokens := S (tokens x); engines := engines x;
      engine_ok := engine_ok x; storage_ok := storage_ok x;
      database_ok := database_ok x |}).

Definition send (db : unit) (st : Statement) (x : Outside)
    : option Js.thrown * Outside :=
  if database_ok x then (None, tick 2 x)
  else (Some (Js.Error "Connection lost"), tick 2 x).

#[local] Instance runtime : Runtime := {|
  Ext := Outside;
  Worker := nat;
  Database := unit;
  Date_now := clock;
  numberToString := showNumber;
  Buffer_from_base64 := list_byte_of_string;
  nanoid := token;
  sharp_metadata := metadata;
  sharp_toBuffer := toBuffer;
  createWorker := create;
  Worker_recognize := recognizeWith;
  Worker_terminate := fun _ x => (Js.Normal tt, tick 1 x);
  storagePut := put;
  drizzle := fun _ x => (Js.Normal tt, x);
  Database_execute := send
|}.

Definition outside (engine storage database : bool) : Outside :=
  {| clock := 1000; tokens := 0; engines := 0; engine_ok := engine;
     storage_ok := storage; database_ok := database |}.

(** A process that has just started. *)
Definition boot (x : Outside) (url : option string) : World :=
  {| ext := x; ocrWorker := None; db_ := None; DATABASE_URL := url;
     ocrResults := []; ocrResults_nextId := 1; workersCreated := 0 |}.

Definition png (name data : string) : ImageInput :=
  {| imageData := data; fileName := name; mimeType := "image/png";
     language := "eng" |}.
Definition pdf (name data : string) : ImageInput :=
  {| imageData := data; fileName := name; mimeType := "application/pdf";
     language := "eng" |}.

End Lab.

(** * The vocabulary of the properties *)

(** ** Numbers, entries *)

(** [mrs] is [m0] shifted right by [k] bits, and remembers whether a one was lost *)
Definition shifted (k m0 : Z) (mrs : shr_record) : Prop :=
  shr_m mrs = m0 / 2 ^ k /\
  (m0 mod 2 ^ k = 0 -> shr_r mrs = false /\ shr_s mrs = false).

(** [n - 1/2 <= v < n + 1/2] for [v = (-1)^s * m * 2^e], [e < 0] *)
Definition nearest_half_up (n : Z) (s : bool) (m : positive) (e : Z) : Prop :=
  (2 * n - 1) * 2 ^ (- e) <= 2 * cond_Zopp s (Zpos m) < (2 * n + 1) * 2 ^ (- e).

(** the numbers between 0 and 1, both included *)
Definition in_unit_interval (c : Js.number) : Prop :=
  valid_binary Js.prec Js.emax c = true /\
  Js.le (Js.ofZ 0) c = true /\ Js.le c (Js.ofZ 1) = true.

(** the limit in megabytes, as the template literal computes it *)
Definition megabytes (maxSizeBytes : Js.number) : Js.number :=
  Js.div (Js.div maxSizeBytes (Js.ofZ 1024)) (Js.ofZ 1024).

(** An entry of the batch outcome: a result or an error. *)
Definition BatchEntry : Type := ItemSuccess + ItemError.

Definition entry_fileName (e : BatchEntry) : string :=
  match e with
  | inl r => item_fileName r
  | inr x => err_fileName x
  end.

Fixpoint successes (entries : list BatchEntry) : list ItemSuccess :=
  match entries with
  | [] => []
  | inl r :: rest => r :: successes rest
  | inr _ :: rest => successes rest
  end.

Fixpoint failures (entries : list BatchEntry) : list ItemError :=
  match entries with
  | [] => []
  | inl _ :: rest => failures rest
  | inr x :: rest => x :: failures rest
  end.

(** ** What the functions compute, case by case *)

Section Vocabulary.

Context {R : Runtime}.

(** A computation that always ends normally. *)
Definition total {A} (c : M A) : Prop :=
  forall w, exists a w', c w = (Js.Normal a, w').

(** the pipeline [optimizeImage] builds for an image with this metadata *)
Definition pipelineFor (metadata : Metadata) : list SharpOp :=
  if too_wide metadata
  then [resize 4000 4000 "inside" true; grayscale]
  else [grayscale].

(** what [optimizeImage] returns, by the outcome of the two sharp calls *)
Definition optimized (imageBuffer : Buffer) (w : World) : Buffer * World :=
  match sharp_metadata imageBuffer (ext w) with
  | (Js.Throw _, x) => (imageBuffer, set_ext x w)
  | (Js.Normal metadata, x) =>
      match sharp_toBuffer imageBuffer (pipelineFor metadata) x with
      | (Js.Normal rendered, x') => (rendered, set_ext x' w)
      | (Js.Throw _, x') => (imageBuffer, set_ext x' w)
      end
  end.

Definition init_error : Js.thrown := Js.Error "Failed to initialize OCR worker".

(** what a call does when there is no worker yet *)
Definition constructed (w : World) : Js.completion (option Worker) * World :=
  match createWorker "eng" (ext w) with
  | (Js.Normal x, y) =>
      (Js.Normal (Some x), set_ocrWorker (Some x) (set_ext y (count_worker w)))
  | (Js.Throw _, y) => (Js.Throw init_error, set_ext y (count_worker w))
  end.

Definition keeps {A B} (field : World -> B) (c : M A) : Prop :=
  forall w, field (snd (c w)) = field w.

(** a field other than [ext] *)
Definition inner {C} (field : World -> C) : Prop :=
  forall x w, field (set_ext x w) = field w.

(** the percentage the success path computes from [result.data.confidence] *)
Definition percent (confidence : option Js.number) : Js.number :=
  Js.round (Js.mul (Js.num_or confidence (Js.ofZ 0)) (Js.ofZ 100)).

(** the two [return] statements *)
Definition recognized (language : string) (elapsed : Z) (data : RecognizeData)
    : OcrOutcome :=
  {| ocr_text := Js.str_or (data_text data) "";
     ocr_confidence := percent (data_confidence data);
     ocr_language := language;
     ocr_processingTimeMs := elapsed;
     ocr_success := true;
     ocr_error := None |}.

Definition failed (language : string) (elapsed : Z) (e : Js.thrown)
    : OcrOutcome :=
  {| ocr_text := "";
     ocr_confidence := Js.ofZ 0;
     ocr_language := language;
     ocr_processingTimeMs := elapsed;
     ocr_success := false;
     ocr_error := Some (Js.message_or e "Unknown error") |}.

(** steps 2 and 3: obtain the worker, recognise *)
Definition engine (optimizedBuffer : Buffer) : M RecognizeData :=
  worker <- getOcrWorker ;; recognize worker optimizedBuffer.

(** what [getDb] returns and leaves behind *)
Definition connected (w : World) : option Database * World :=
  match db_ w, DATABASE_URL w with
  | None, Some (String c u) =>
      match drizzle (String c u) (ext w) with
      | (Js.Normal d, y) => (Some d, set_db (Some d) (set_ext y w))
      | (Js.Throw _, y) => (None, set_db None (set_ext y w))
      end
  | _, _ => (db_ w, w)
  end.

(** Steps 3 and 4 of the batch: upload the original bytes under a key made
    of the user, a token and the file name, then persist the record. *)
Definition spec_upload_and_persist (userId : Z) (image : ImageInput)
    (bytes : Buffer) (outcome : OcrOutcome) : M string :=
  token <- draw nanoid ;;
  imageUrl <- call (storagePut (fileKey userId token (fileName image))
                               bytes (mimeType image)) ;;
  saveOcrResult (insertOf userId image imageUrl outcome) ;;;
  ret imageUrl.

(** One item, as the specification words it: validate; process; upload and
    persist; the entry is a result when all of this succeeds and an error
    [{fileName, error}] otherwise, an exception of upload or persistence
    being caught for this item. *)
Definition spec_processItem (userId : Z) (image : ImageInput) : M BatchEntry :=
  let bytes := Buffer_from_base64 (imageData image) in
  let validation :=
    validateImageFile numberToString bytes (mimeType image)
                      defaultMaxSizeBytes in
  if valid validation then
    outcome <- processImageWithOcr bytes (language image) ;;
    if ocr_success outcome then
      try_catch
        (imageUrl <- spec_upload_and_persist userId image bytes outcome ;;
         ret (inl {| item_fileName := fileName image;
                     item_text := ocr_text outcome;
                     item_confidence := ocr_confidence outcome;
                     item_processingTimeMs := ocr_processingTimeMs outcome;
                     item_imageUrl := imageUrl;
                     item_success := true |}))
        (fun e =>
           ret (inr {| err_fileName := fileName image;
                       err_error := Js.message_or e "Unknown error" |}))
    else
      ret (inr {| err_fileName := fileName image;
                  err_error := Js.str_or (ocr_error outcome)
                                         "OCR processing failed" |})
  else
    ret (inr {| err_fileName := fileName image;
                err_error := Js.str_or (error validation) "Invalid image" |}).

(** The items in input order, each started where the one before it ended. *)
Fixpoint spec_entries (userId : Z) (images : list ImageInput)
    : M (list BatchEntry) :=
  match images with
  | [] => ret []
  | image :: rest =>
      e <- spec_processItem userId image ;;
      es <- spec_entries userId rest ;;
      ret (e :: es)
  end.

Definition spec_processBatch (userId : Z) (images : list ImageInput)
    : M BatchOutcome :=
  entries <- spec_entries userId images ;;
  ret {| success := true;
         results := successes entries;
         errors := failures entries;
         totalProcessed := List.length (successes entries);
         totalFailed := List.length (failures entries) |}.

(** pushing an entry on the two arrays *)
Definition push (acc : Acc) (e : BatchEntry) : Acc :=
  match e with
  | inl r => push_result acc r
  | inr x => push_error acc x
  end.

End Vocabulary.

(** ** Requests in flight together *)

(** What the specification asks of two first callers in flight together:
    they end up with one shared worker, built once. *)
Definition shared_under_interleaving : Prop :=
  forall (R : Runtime) (schedule : list nat) (w w' : World)
         (a b : option Worker),
    ocrWorker w = None ->
    run_schedule schedule [AtEntry; AtEntry] w
      = ([Returned (Js.Normal a); Returned (Js.Normal b)], w') ->
    a = b /\ workersCreated w' = S (workersCreated w).

(** ** Failures and their message *)

(** The text a thrown value carries: the message of an [Error], and the
    value itself when something else was thrown. *)
Definition text_of (e : Js.thrown) : string :=
  match e with
  | Js.Error m => m
  | Js.NonError repr => repr
  end.

(** What the specification asks of a failure after optimisation: the error
    field of the outcome holds the message of the failure. *)
Definition failure_message_is_reported : Prop :=
  forall (R : Runtime) (imageBuffer : Buffer) (language : string)
         (w w1 w2 : World) (optimizedBuffer : Buffer) (e : Js.thrown),
    optimizeImage imageBuffer w = (Js.Normal optimizedBuffer, w1) ->
    engine optimizedBuffer w1 = (Js.Throw e, w2) ->
    exists o,
      processImageWithOcr imageBuffer language w = (Js.Normal o, w2) /\
      ocr_error o = Some (text_of e).

(** ** A store that cannot take a record *)

(** The store is unavailable for this record: there is no database handle,
    or the server rejects the insert. *)
Definition store_unavailable {R : Runtime} (result : InsertOcrResult)
    (w : World) : Prop :=
  match connected w with
  | (None, _) => True
  | (Some d, w1) =>
      exists e y, Database_execute d (InsertInto result) (ext w1) = (Some e, y)
  end.

(** What the specification asks of an unavailable store: [saveOcrResult]
    returns [undefined] and does not throw. *)
Definition unavailability_is_never_an_error : Prop :=
  forall (R : Runtime) (result : InsertOcrResult) (w : World),
    store_unavailable result w ->
    exists w', saveOcrResult result w = (Js.Normal None, w').

(** ** Processes of the concrete runtime *)

(** a process whose engine cannot start, and where its first call leaves it *)
Definition engine_down : World (R := Lab.runtime) :=
  Lab.boot (Lab.outside false true true) None.
Definition engine_down_optimized : World (R := Lab.runtime) :=
  snd (optimizeImage (list_byte_of_string "abc") engine_down).
Definition engine_down_failed : World (R := Lab.runtime) :=
  snd (getOcrWorker engine_down_optimized).

(** a process whose engine starts *)
Definition engine_up : World (R := Lab.runtime) :=
  Lab.boot (Lab.outside true true true) None.

(** a process with engine, storage and database all up *)
Definition all_up : World (R := Lab.runtime) :=
  Lab.boot (Lab.outside true true true) (Some "mysql://db").

Definition sample_row (id userId : Z) (name : string) : OcrResultRow :=
  {| row_id := id; row_userId := userId; row_imageFileName := name;
     row_imageUrl := "https://files.test/" ++ name;
     row_extractedText := "text"; row_confidence := Js.ofZ 90;
     row_language := "eng"; row_processingTimeMs := 12;
     row_createdAt := 900; row_updatedAt := 900 |}.

(** two users, one row each *)
Definition two_users : World (R := Lab.runtime) :=
  set_table [sample_row 1 7 "mine.png"; sample_row 2 8 "theirs.png"] 3 all_up.

Definition sample_batch : list ImageInput :=
  [Lab.png "a.png" "abc"; Lab.pdf "b.pdf" "x"; Lab.png "c.png" "!bad";
   Lab.png "d.png" "abcdefg"].

(** what the first image of a fresh process without a database goes through *)
Definition first_outcome : OcrOutcome :=
  recognized "eng" 15
    {| data_text := Some "abcG"; data_confidence := Some Lab.c876 |}.
Definition first_url : string := "https://files.test/ocr/7/t0-a.png".
Definition first_item : ItemSuccess :=
  {| item_fileName := "a.png"; item_text := "abcG";
     item_confidence := Js.ofZ 88; item_processingTimeMs := 15;
     item_imageUrl := first_url; item_success := true |}.

(** the image of the examples, optimised, and the process after that *)
Definition abc_optimized : Buffer := list_byte_of_string "abcG".
Definition engine_up_optimized : World (R := Lab.runtime) :=
  snd (optimizeImage (list_byte_of_string "abc") engine_up).
Definition engine_up_recognized : World (R := Lab.runtime) :=
  snd (processImageWithOcr (list_byte_of_string "abc") "eng" engine_up).

(** * More of db.ts and routers.ts *)

(** ** db.ts: getUserOcrResults; routers.ts: getHistory *)

(** [ORDER BY createdAt DESC], as an insertion sort.  Among rows with the
    same [createdAt] the server is free to choose; here the row met first
    stays first. *)
Fixpoint insert_newest (r : OcrResultRow) (sorted : list OcrResultRow)
    : list OcrResultRow :=
  match sorted with
  | [] => [r]
  | x :: rest =>
      if row_createdAt x <=? row_createdAt r
      then r :: x :: rest
      else x :: insert_newest r rest
  end.

Definition newest_first (rows : list OcrResultRow) : list OcrResultRow :=
  fold_right insert_newest [] rows.

(** [SELECT * FROM ocrResults WHERE userId = ? ORDER BY createdAt DESC] *)
Definition select_for (userId : Z) (rows : list OcrResultRow)
    : list OcrResultRow :=
  newest_first (filter (fun r => row_userId r =? userId) rows).

Section History.

Context {R : Runtime}.

(** sending the select for a user: [Some e] when the driver rejects it *)
Variable Database_select : Database -> Z -> Ext -> option Js.thrown * Ext.

Definition select (db : Database) (userId : Z) : M (list OcrResultRow) :=
  fun w =>
    match Database_select db userId (ext w) with
    | (Some e, x) => (Js.Throw e, set_ext x w)
    | (None, x) => (Js.Normal (select_for userId (ocrResults w)), set_ext x w)
    end.

Definition getUserOcrResults (userId : Z) : M (list OcrResultRow) :=
  db <- getDb ;;
  match db with
  | None => ret []
  | Some d =>
      try_catch
        (results <- select d userId ;; ret results)
        (fun error => throw error)
  end.

Definition getHistory (userId : Z) : M (list OcrResultRow) :=
  try_catch
    (results <- getUserOcrResults userId ;; ret results)
    (fun _ => throw (Js.Error "Failed to retrieve OCR history")).

End History.

(** ** db.ts: upsertUser *)

Inductive Role := role_user | role_admin.

(** [InsertUser], the columns [upsertUser] reads.  A nullable text column is
    [None] when the property is [undefined], [Some None] when it is [null]
    and [Some (Some s)] when it is the string [s]. *)
Record InsertUser := {
  user_openId : string;
  user_name : option (option string);
  user_email : option (option string);
  user_loginMethod : option (option string);
  user_role : option Role;
  user_lastSignedIn : option Z
}.

(** [updateSet], the columns of [ON DUPLICATE KEY UPDATE]: [None] when the
    key is absent. *)
Record UpdateSet := {
  upd_name : option (option string);
  upd_email : option (option string);
  upd_loginMethod : option (option string);
  upd_lastSignedIn : option Z;
  upd_role : option Role
}.

(** [Object.keys(updateSet).length === 0] *)
Definition UpdateSet_is_empty (u : UpdateSet) : bool :=
  match upd_name u, upd_email u, upd_loginMethod u, upd_lastSignedIn u,
        upd_role u with
  | None, None, None, None, None => true
  | _, _, _, _, _ => false
  end.

(** [value ?? null] on a value that is not [undefined]: [null] stays [null] *)
Definition normalized (value : option string) : option string := value.

(** [assignNullable]: what it leaves in [values[field]] and in
    [updateSet[field]]; [undefined] assigns nothing. *)
Definition assignNullable (value : option (option string))
    : option (option string) :=
  match value with
  | None => None
  | Some v => Some (normalized v)
  end.

(** The role of the two objects: the one given, else admin for the owner. *)
Definition assignedRole (ownerOpenId : string) (user : InsertUser)
    : option Role :=
  match user_role user with
  | Some r => Some r
  | None =>
      if String.eqb (user_openId user) ownerOpenId then Some role_admin
      else None
  end.

(** [values] and [updateSet] after the assignments of the text columns, of
    [lastSignedIn] and of the role, before the two defaults. *)
Definition assignedValues (ownerOpenId : string) (user : InsertUser)
    : InsertUser :=
  {| user_openId := user_openId user;
     user_name := assignNullable (user_name user);
     user_email := assignNullable (user_email user);
     user_loginMethod := assignNullable (user_loginMethod user);
     user_role := assignedRole ownerOpenId user;
     user_lastSignedIn := user_lastSignedIn user |}.

Definition assignedSet (ownerOpenId : string) (user : InsertUser)
    : UpdateSet :=
  {| upd_name := assignNullable (user_name user);
     upd_email := assignNullable (user_email user);
     upd_loginMethod := assignNullable (user_loginMethod user);
     upd_lastSignedIn := user_lastSignedIn user;
     upd_role := assignedRole ownerOpenId user |}.

(** [values.lastSignedIn = d] and [updateSet.lastSignedIn = d] *)
Definition values_lastSignedIn (d : Z) (values : InsertUser) : InsertUser :=
  {| user_openId := user_openId values;
     user_name := user_name values;
     user_email := user_email values;
     user_loginMethod := user_loginMethod values;
     user_role := user_role values;
     user_lastSignedIn := Some d |}.

Definition updateSet_lastSignedIn (d : Z) (updateSet : UpdateSet)
    : UpdateSet :=
  {| upd_name := upd_name updateSet;
     upd_email := upd_email updateSet;
     upd_loginMethod := upd_loginMethod updateSet;
     upd_lastSignedIn := Some d;
     upd_role := upd_role updateSet |}.

(** The two objects of the statement, with [t] the reading of [new Date()]:
    [if (!values.lastSignedIn) values.lastSignedIn = new Date()] and
    [if (Object.keys(updateSet).length === 0) updateSet.lastSignedIn = new Date()]. *)
Definition upsertValues (ownerOpenId : string) (t : Z) (user : InsertUser)
    : InsertUser :=
  let values := assignedValues ownerOpenId user in
  match user_lastSignedIn values with
  | Some _ => values
  | None => values_lastSignedIn t values
  end.

Definition upsertSet (ownerOpenId : string) (t : Z) (user : InsertUser)
    : UpdateSet :=
  let updateSet := assignedSet ownerOpenId user in
  if UpdateSet_is_empty updateSet then updateSet_lastSignedIn t updateSet
  else updateSet.

Section Users.

Context {R : Runtime}.

(** [ENV.ownerOpenId] *)
Variable ownerOpenId : string.

(** sending [insert(users).values(values).onDuplicateKeyUpdate({set})]:
    [Some e] when the driver rejects it *)
Variable Database_upsert :
  Database -> InsertUser -> UpdateSet -> Ext -> option Js.thrown * Ext.

Definition upsert (db : Database) (values : InsertUser) (updateSet : UpdateSet)
    : M unit :=
  fun w =>
    match Database_upsert db values updateSet (ext w) with
    | (Some e, x) => (Js.Throw e, set_ext x w)
    | (None, x) => (Js.Normal tt, set_ext x w)
    end.

Definition upsertUser (user : InsertUser) : M unit :=
  match user_openId user with
  | EmptyString => throw (Js.Error "User openId is required for upsert")
  | String _ _ =>
      db <- getDb ;;
      match db with
      | None => ret tt
      | Some d =>
          try_catch
            (let values := assignedValues ownerOpenId user in
             let updateSet := assignedSet ownerOpenId user in
             values <- match user_lastSignedIn values with
                       | Some _ => ret values
                       | None => t <- now ;; ret (values_lastSignedIn t values)
                       end ;;
             updateSet <- (if UpdateSet_is_empty updateSet
                           then t <- now ;;
                                ret (updateSet_lastSignedIn t updateSet)
                           else ret updateSet) ;;
             upsert d values updateSet)
            (fun error => throw error)
      end
  end.

End Users.

(** ** More of the concrete runtime *)

Definition Lab_select (db : unit) (userId : Z) (x : Lab.Outside)
    : option Js.thrown * Lab.Outside :=
  if Lab.database_ok x then (None, Lab.tick 2 x)
  else (Some (Js.Error "Connection lost"), Lab.tick 2 x).

Definition Lab_upsert (db : unit) (values : InsertUser) (updateSet : UpdateSet)
    (x : Lab.Outside) : option Js.thrown * Lab.Outside :=
  if Lab.database_ok x then (None, Lab.tick 2 x)
  else (Some (Js.Error "Connection lost"), Lab.tick 2 x).

(** A second runtime, in which the database driver fails on the first
    attempt, recognition rejects with a string and a worker cannot be
    terminated.  The outside world is the number of calls made so far. *)
Module Frail.

Definition attempt (url : string) (n : nat) : Js.completion unit * nat :=
  match n with
  | O => (Js.Throw (Js.Error "connect ECONNREFUSED"), 1%nat)
  | S _ => (Js.Normal tt, S n)
  end.

#[local] Instance runtime : Runtime := {|
  Ext := nat;
  Worker := nat;
  Database := unit;
  Date_now := Z.of_nat;
  numberToString := Lab.showNumber;
  Buffer_from_base64 := list_byte_of_string;
  nanoid := fun n => ("t", S n);
  sharp_metadata := fun _ n => (Js.Normal {| width := None |}, S n);
  sharp_toBuffer := fun buf _ n => (Js.Normal buf, S n);
  createWorker := fun _ n => (Js.Normal n, S n);
  Worker_recognize :=
    fun _ _ n => (Js.Throw (Js.NonError "Error attempting to read image."),
                  S n);
  Worker_terminate :=
    fun _ n => (Js.Throw (Js.Error "worker has exited"), S n);
  storagePut := fun key _ _ n => (Js.Normal key, S n);
  drizzle := attempt;
  Database_execute := fun _ _ n => (None, S n)
|}.

(** A process that has just started. *)
Definition boot : World :=
  {| ext := O; ocrWorker := None; db_ := None;
     DATABASE_URL := Some "mysql://db";
     ocrResults := []; ocrResults_nextId := 1; workersCreated := 0 |}.

End Frail.

(** ** The vocabulary of the further properties *)

(** the outcome [o] with another [language] field *)
Definition with_language (language : string) (o : OcrOutcome) : OcrOutcome :=
  {| ocr_text := ocr_text o;
     ocr_confidence := ocr_confidence o;
     ocr_language := language;
     ocr_processingTimeMs := ocr_processingTimeMs o;
     ocr_success := ocr_success o;
     ocr_error := ocr_error o |}.

(** the message of the MIME check *)
Definition unsupported_message : string :=
  "Unsupported image format. Allowed: image/jpeg, image/png, image/webp, image/tiff".

(** the response of [processImage] that carries what a batch result carries *)
Definition response_of (item : ItemSuccess) : ProcessImageResponse :=
  {| resp_success := true;
     resp_text := item_text item;
     resp_confidence := item_confidence item;
     resp_processingTimeMs := item_processingTimeMs item;
     resp_imageUrl := item_imageUrl item |}.

(** a stored row holds what a batch result reports, for this user *)
Definition row_of_item (userId : Z) (row : OcrResultRow) (item : ItemSuccess)
    : Prop :=
  row_userId row = userId /\
  row_imageFileName row = item_fileName item /\
  row_imageUrl row = item_imageUrl item /\
  row_extractedText row = item_text item /\
  row_confidence row = item_confidence item /\
  row_processingTimeMs row = item_processingTimeMs item.

(** newest first *)
Definition newer_or_same (a b : OcrResultRow) : Prop :=
  row_createdAt b <= row_createdAt a.

(** processes whose storage, or whose database server, is down *)
Definition storage_down : World (R := Lab.runtime) :=
  Lab.boot (Lab.outside true false true) (Some "mysql://db").
Definition database_down : World (R := Lab.runtime) :=
  Lab.boot (Lab.outside true true false) (Some "mysql://db").

(** the process with everything up, once it holds a database handle *)
Definition all_up_connected : World (R := Lab.runtime) := snd (getDb all_up).

(** the process with two users, once it holds a database handle *)
Definition two_users_connected : World (R := Lab.runtime) :=
  snd (getDb two_users).

(** a call of [getOcrWorker] that has not started, or has returned [x] *)
Definition calm {R : Runtime} (x : Worker) (pc : GetPc) : Prop :=
  pc = AtEntry \/ pc = Returned (Js.Normal (Some x)).


(** the frail process after a failed connection, and once it holds a worker *)
Definition frail_refused : World (R := Frail.runtime) :=
  snd (getDb Frail.boot).
Definition frail_working : World (R := Frail.runtime) :=
  snd (getOcrWorker Frail.boot).

(** two users as they arrive from the login *)
Definition ann : InsertUser :=
  {| user_openId := "u-ann"; user_name := Some (Some "Ann");
     user_email := Some None; user_loginMethod := None;
     user_role := None; user_lastSignedIn := None |}.
Definition nobody : InsertUser :=
  {| user_openId := ""; user_name := Some (Some "Ann");
     user_email := None; user_loginMethod := None;
     user_role := None; user_lastSignedIn := None |}.

(** the primary key of the table: the ids are distinct and below the
    auto-increment counter *)
Definition keyed {R : Runtime} (w : World) : Prop :=
  NoDup (map row_id (ocrResults w)) /\
  Forall (fun r => row_id r < ocrResults_nextId w) (ocrResults w).

(** a record to save for user 7 *)
Definition sample_insert : InsertOcrResult :=
  {| ins_userId := 7; ins_imageFileName := "new.png";
     ins_imageUrl := "https://files.test/new.png";
     ins_extractedText := "new"; ins_confidence := Js.ofZ 75;
     ins_language := "eng"; ins_processingTimeMs := 9 |}.

(** the frail process after optimising an image, and after trying to
    recognise it *)
Definition frail_optimized : World (R := Frail.runtime) :=
  snd (optimizeImage (list_byte_of_string "abc") Frail.boot).
Definition frail_failed : World (R := Frail.runtime) :=
  snd (processImageWithOcr (list_byte_of_string "abc") "eng" Frail.boot).

(** the process whose database server is down, once it holds a handle *)
Definition down_connected : World (R := Lab.runtime) :=
  snd (getDb database_down).

(** the process with a worker in place *)
Definition engine_up_built : World (R := Lab.runtime) :=
  snd (getOcrWorker engine_up).

(** * Properties *)

(** ** Numbers *)

Lemma SFcompare_antisym (x y : spec_float) :
  SFcompare y x = option_map CompOpp (SFcompare x y).
Proof.
  destruct x as [sx|sx| |sx mx ex], y as [sy|sy| |sy my ey]; simpl;
    try reflexivity;
    try (destruct sx; reflexivity);
    try (destruct sy; reflexivity);
    try (destruct sx, sy; reflexivity).
  destruct sx, sy; simpl; try reflexivity;
    rewrite (Z.compare_antisym ex ey);
    destruct (ex ?= ey); simpl; try reflexivity;
    rewrite (Pos.compare_cont_antisym mx my Eq); simpl;
    destruct (Pos.compare_cont Eq mx my); reflexivity.
Qed.

(** [x <= y] excludes [x > y]. *)
Lemma le_not_gt (x y : Js.number) : Js.le x y = true -> Js.gt x y = false.
Proof.
  unfold Js.le, Js.gt, SFleb, SFltb.
  rewrite (SFcompare_antisym x y).
  destruct (SFcompare x y) as [[ | | ]|]; simpl; congruence.
Qed.

Lemma append_empty (s : string) : s ++ "" = s.
Proof. induction s as [|c s IH]; simpl; [reflexivity | now rewrite IH]. Qed.

Lemma contains_suffix (a b : string) : Js.contains (a ++ b) b.
Proof. exists a, "". now rewrite append_empty. Qed.

(** *** Rounding to 53 bits keeps a product below 100 *)

Unset Implicit Arguments.

Lemma digits2_bounds (p : positive) :
  2 ^ (Zpos (digits2_pos p) - 1) <= Zpos p < 2 ^ Zpos (digits2_pos p).
Proof.
  induction p as [p IH|p IH|]; cbn [digits2_pos].
  - rewrite Pos2Z.inj_succ.
    replace (Z.succ (Zpos (digits2_pos p)) - 1) with (Z.succ (Zpos (digits2_pos p) - 1)) by lia.
    rewrite !Z.pow_succ_r by lia. lia.
  - rewrite Pos2Z.inj_succ.
    replace (Z.succ (Zpos (digits2_pos p)) - 1) with (Z.succ (Zpos (digits2_pos p) - 1)) by lia.
    rewrite !Z.pow_succ_r by lia. lia.
  - cbn. lia.
Qed.

Lemma shr_1_nonneg (m : Z) (r s : bool) :
  0 <= m ->
  shr_1 (Build_shr_record m r s) = Build_shr_record (m / 2) (Z.odd m) (r || s).
Proof.
  intros Hm. rewrite <- Z.div2_div.
  destruct m as [|[p|p|]|p]; try reflexivity. lia.
Qed.

Lemma shifted_step (k m0 : Z) (mrs : shr_record) :
  0 <= k -> 0 <= m0 -> shifted k m0 mrs -> shifted (k + 1) m0 (shr_1 mrs).
Proof.
  intros Hk Hm [Hdiv Hexact]. destruct mrs as [m r s].
  cbn [shr_m shr_r shr_s] in Hdiv, Hexact. subst m.
  assert (Hpow : 0 < 2 ^ k) by (apply Z.pow_pos_nonneg; lia).
  rewrite shr_1_nonneg by (apply Z.div_pos; lia).
  assert (E : 2 ^ (k + 1) = 2 ^ k * 2)
    by (rewrite Z.pow_add_r by lia; reflexivity).
  unfold shifted. rewrite E. cbn [shr_m shr_r shr_s].
  split.
  - rewrite Z.div_div by lia. reflexivity.
  - intros Hmod. rewrite Z.rem_mul_r in Hmod by lia.
    pose proof (Z.mod_pos_bound m0 (2 ^ k) Hpow) as B1.
    pose proof (Z.mod_pos_bound (m0 / 2 ^ k) 2 ltac:(lia)) as B2.
    assert (Hk0 : m0 mod 2 ^ k = 0) by nia.
    assert (Hk1 : (m0 / 2 ^ k) mod 2 = 0) by nia.
    destruct (Hexact Hk0) as [-> ->]. split; [|reflexivity].
    rewrite <- Z.negb_even. apply negb_false_iff.
    apply Z.even_spec. exists (m0 / 2 ^ k / 2).
    pose proof (Z.div_mod (m0 / 2 ^ k) 2 ltac:(lia)). lia.
Qed.

Lemma shifted_iter (p : positive) :
  forall (k m0 : Z) (mrs : shr_record),
    0 <= k -> 0 <= m0 -> shifted k m0 mrs ->
    shifted (k + Zpos p) m0 (iter_pos shr_1 p mrs).
Proof.
  induction p as [p IH|p IH|]; intros k m0 mrs Hk Hm H; cbn [iter_pos].
  - replace (k + Zpos p~1) with (k + 1 + Zpos p + Zpos p) by lia.
    apply IH; [lia|lia|]. apply IH; [lia|lia|]. now apply shifted_step.
  - replace (k + Zpos p~0) with (k + Zpos p + Zpos p) by lia.
    apply IH; [lia|lia|]. now apply IH.
  - now apply shifted_step.
Qed.

(** shifting a nonnegative mantissa with nothing lost so far *)
Lemma shr_exact_start (m e n : Z) :
  0 <= m ->
  let k := Z.max 0 n in
  snd (shr (Build_shr_record m false false) e n) = e + k /\
  shifted k m (fst (shr (Build_shr_record m false false) e n)).
Proof.
  intros Hm k. subst k.
  assert (H0 : shifted 0 m (Build_shr_record m false false)).
  { split; cbn; [now rewrite Z.div_1_r | auto]. }
  destruct n as [|p|p]; cbn [shr fst snd].
  - rewrite Z.max_l by lia. split; [lia | exact H0].
  - rewrite Z.max_r by lia. split; [reflexivity|].
    apply (shifted_iter p 0 m _ ltac:(lia) Hm H0).
  - rewrite Z.max_l by lia. split; [lia | exact H0].
Qed.

Lemma round_nearest_even_bounds (m : Z) (l : location) :
  m <= round_nearest_even m l <= m + 1 /\
  (l = loc_Exact -> round_nearest_even m l = m).
Proof.
  destruct l as [|[ | | ]]; cbn; try destruct (Z.even m); split; try lia; try discriminate; auto.
Qed.

Lemma loc_exact_of_bits (mrs : shr_record) :
  shr_r mrs = false -> shr_s mrs = false -> loc_of_shr_record mrs = loc_Exact.
Proof. destruct mrs as [m r s]. cbn. now intros -> ->. Qed.

Lemma pow2_split (e k : Z) :
  0 <= k -> e + k <= 0 -> 2 ^ (- e) = 2 ^ (- (e + k)) * 2 ^ k.
Proof. intros Hk He. rewrite <- Z.pow_add_r by lia. f_equal. lia. Qed.

(** a mantissa below [100 * 2^(-e)] has at most [7 - e] bits *)
Lemma digits_below_100 (m : positive) (e : Z) :
  e <= 0 -> Zpos m <= 100 * 2 ^ (- e) -> Zpos (digits2_pos m) + e <= 7.
Proof.
  intros He Hm. destruct (digits2_bounds m) as [Hlow _].
  assert (Hp : 0 < 2 ^ (- e)) by (apply Z.pow_pos_nonneg; lia).
  assert (H7 : 2 ^ (7 - e) = 128 * 2 ^ (- e)).
  { replace (7 - e) with (7 + - e) by lia. rewrite Z.pow_add_r by lia. reflexivity. }
  assert (Hlt : 2 ^ (Zpos (digits2_pos m) - 1) < 2 ^ (7 - e)) by lia.
  apply Z.pow_lt_mono_r_iff in Hlt; lia.
Qed.

Lemma fexp64 (x : Z) : fexp 53 1024 x = Z.max (x - 53) (-1074).
Proof. reflexivity. Qed.

(** one shift of the rounding: value and exponent stay under the bound *)
Lemma shift_keeps_bound (m e n : Z) :
  0 <= m -> e <= -46 -> m <= 100 * 2 ^ (- e) ->
  e + Z.max 0 n <= -46 ->
  m / 2 ^ Z.max 0 n <= 100 * 2 ^ (- (e + Z.max 0 n)) /\
  (m / 2 ^ Z.max 0 n = 100 * 2 ^ (- (e + Z.max 0 n)) -> m mod 2 ^ Z.max 0 n = 0).
Proof.
  intros Hm He Hb Hk. set (k := Z.max 0 n) in *.
  assert (Hk0 : 0 <= k) by (subst k; lia).
  assert (Hpk : 0 < 2 ^ k) by (apply Z.pow_pos_nonneg; lia).
  rewrite (pow2_split e k) in Hb by lia.
  set (K := 100 * 2 ^ (- (e + k))) in *.
  split.
  - apply Z.div_le_upper_bound; [lia|]. lia.
  - intros Heq.
    pose proof (Z.div_mod m (2 ^ k) ltac:(lia)) as Hdm.
    pose proof (Z.mod_pos_bound m (2 ^ k) Hpk) as Hmb.
    rewrite Heq in Hdm. nia.
Qed.

Lemma round_aux_bounded (M : positive) (E : Z) :
  E <= -46 -> Zpos M <= 100 * 2 ^ (- E) ->
  match binary_round_aux 53 1024 false (Zpos M) E loc_Exact with
  | S754_zero false => True
  | S754_finite false M2 E2 => E2 <= -46 /\ Zpos M2 <= 100 * 2 ^ (- E2)
  | _ => False
  end.
Proof.
  intros HE HM.
  unfold binary_round_aux, shr_fexp. cbn [shr_record_of_loc Zdigits2].
  pose proof (digits_below_100 M E ltac:(lia) HM) as Hd.
  set (n1 := fexp 53 1024 (Zpos (digits2_pos M) + E) - E).
  assert (Hn1 : E + Z.max 0 n1 <= -46 /\ -1074 <= E + Z.max 0 n1).
  { subst n1. rewrite fexp64. lia. }
  destruct (shr_exact_start (Zpos M) E n1 ltac:(lia)) as [He1 [Hm1 Hx1]].
  destruct (shift_keeps_bound (Zpos M) E n1 ltac:(lia) HE HM (proj1 Hn1))
    as [Hb1 Hz1].
  destruct (shr (Build_shr_record (Zpos M) false false) E n1) as [mrs1 e1].
  cbn [fst snd] in He1, Hm1, Hx1. subst e1.
  set (e1 := E + Z.max 0 n1) in *.
  set (M' := round_nearest_even (shr_m mrs1) (loc_of_shr_record mrs1)).
  assert (HM' : 0 <= M' <= 100 * 2 ^ (- e1)).
  { destruct (round_nearest_even_bounds (shr_m mrs1) (loc_of_shr_record mrs1))
      as [Hr Hexact]. fold M' in Hr, Hexact.
    assert (0 <= shr_m mrs1)
      by (rewrite Hm1; apply Z.div_pos; [lia | apply Z.pow_pos_nonneg; lia]).
    split; [lia|].
    destruct (Z.eq_dec (shr_m mrs1) (100 * 2 ^ (- e1))) as [Heq|Hne].
    - rewrite Hexact; [lia|]. rewrite Hm1 in Heq.
      destruct (Hx1 (Hz1 Heq)) as [Hr0 Hs0]. now apply loc_exact_of_bits.
    - rewrite Hm1 in Hne. rewrite Hm1 in Hr. lia. }
  clearbody M'. clear Hm1 Hx1 Hb1 Hz1 mrs1.
  set (n2 := fexp 53 1024 (Zdigits2 M' + e1) - e1).
  assert (Hn2 : e1 + Z.max 0 n2 <= -46 /\ (M' = 0 -> Z.max 0 n2 = 0)).
  { subst n2. rewrite fexp64. destruct M' as [|q|q]; [cbn; lia| |lia].
    pose proof (digits_below_100 q e1 ltac:(lia) (proj2 HM')).
    cbn [Zdigits2]. split; [lia|discriminate]. }
  destruct (shr_exact_start M' e1 n2 (proj1 HM')) as [He2 [Hm2 _]].
  destruct (shift_keeps_bound M' e1 n2 (proj1 HM') (proj1 Hn1) (proj2 HM')
              (proj1 Hn2)) as [Hb2 _].
  destruct (shr (Build_shr_record M' false false) e1 n2) as [mrs2 e2].
  cbn [fst snd] in He2, Hm2. subst e2.
  rewrite <- Hm2 in Hb2.
  assert (0 <= shr_m mrs2)
    by (rewrite Hm2; apply Z.div_pos; [lia | apply Z.pow_pos_nonneg; lia]).
  destruct (shr_m mrs2) as [|q|q]; [exact I| |lia].
  replace (e1 + Z.max 0 n2 <=? 1024 - 53) with true
    by (symmetry; apply Z.leb_le; lia).
  split; [lia | exact Hb2].
Qed.

(** *** [Math.round] and the percentage *)

Lemma roundZ_half_up (s : bool) (m : positive) (e : Z) :
  e < 0 -> nearest_half_up (Js.roundZ s m e) s m e.
Proof.
  intros He. unfold nearest_half_up, Js.roundZ.
  assert (Hp : 0 < 2 ^ (- e)) by (apply Z.pow_pos_nonneg; lia).
  replace (2 ^ (1 - e)) with (2 * 2 ^ (- e))
    by (replace (1 - e) with (1 + - e) by lia; rewrite Z.pow_add_r by lia;
        reflexivity).
  set (P := 2 ^ (- e)) in *. set (v := cond_Zopp s (Zpos m)).
  pose proof (Z.div_mod (2 * v + P) (2 * P) ltac:(lia)) as Hdm.
  pose proof (Z.mod_pos_bound (2 * v + P) (2 * P) ltac:(lia)) as Hmb.
  nia.
Qed.

Lemma round_finite (s : bool) (m : positive) (e : Z) :
  Js.round (S754_finite s m e)
  = if e <? 0
    then binary_normalize Js.prec Js.emax (Js.roundZ s m e) 0 s
    else S754_finite s m e.
Proof. reflexivity. Qed.

(** A number in [0, 100] with a negative exponent rounds to an integer in [0, 100]. *)
Lemma round_below_100 (m : positive) (e : Z) :
  e <= -46 -> Zpos m <= 100 * 2 ^ (- e) ->
  Js.round (S754_finite false m e) = Js.ofZ (Js.roundZ false m e) /\
  0 <= Js.roundZ false m e <= 100.
Proof.
  intros He Hm. rewrite round_finite.
  replace (e <? 0) with true by (symmetry; apply Z.ltb_lt; lia).
  split; [reflexivity|].
  unfold Js.roundZ. cbn [cond_Zopp].
  assert (Hp : 0 < 2 ^ (- e)) by (apply Z.pow_pos_nonneg; lia).
  replace (2 ^ (1 - e)) with (2 * 2 ^ (- e))
    by (replace (1 - e) with (1 + - e) by lia; rewrite Z.pow_add_r by lia;
        reflexivity).
  split.
  - apply Z.div_pos; lia.
  - apply Z.lt_succ_r. apply Z.div_lt_upper_bound; lia.
Qed.

Lemma SFleb_finite_pos (m1 m2 : positive) (e1 e2 : Z) :
  SFleb (S754_finite false m1 e1) (S754_finite false m2 e2) = true ->
  e1 < e2 \/ (e1 = e2 /\ (m1 <= m2)%positive).
Proof.
  unfold SFleb, SFcompare. intros H.
  destruct (e1 ?= e2) eqn:Hc.
  - right. split; [now apply Z.compare_eq|].
    rewrite Pos.compare_cont_spec in H. unfold Pos.switch_Eq in H.
    unfold Pos.le. intros Hgt. rewrite Hgt in H. discriminate H.
  - left. exact Hc.
  - discriminate H.
Qed.

Lemma valid_finite_digits (s : bool) (m : positive) (e : Z) :
  valid_binary Js.prec Js.emax (S754_finite s m e) = true ->
  Zpos (digits2_pos m) <= 53.
Proof.
  intros Hvalid. cbn in Hvalid. apply andb_true_iff in Hvalid as [Hcanon _].
  unfold canonical_mantissa in Hcanon. apply Z.eqb_eq in Hcanon.
  rewrite fexp64 in Hcanon. lia.
Qed.

Lemma one_is : Js.ofZ 1 = S754_finite false 4503599627370496 (-52).
Proof. reflexivity. Qed.

Lemma hundred_is : Js.ofZ 100 = S754_finite false 7036874417766400 (-46).
Proof. reflexivity. Qed.

Lemma unit_interval_finite (s : bool) (m : positive) (e : Z) :
  in_unit_interval (S754_finite s m e) ->
  s = false /\ e <= -52 /\ Zpos m <= 2 ^ (- e).
Proof.
  intros (Hvalid & H0 & H1).
  destruct s; [discriminate H0|]. split; [reflexivity|].
  apply valid_finite_digits in Hvalid.
  destruct (digits2_bounds m) as [_ Hup].
  assert (Hm : Zpos m < 2 ^ 53).
  { eapply Z.lt_le_trans; [exact Hup|]. apply Z.pow_le_mono_r; lia. }
  unfold Js.le in H1. rewrite one_is in H1.
  destruct (SFleb_finite_pos _ _ _ _ H1) as [He | [-> Hle]].
  - split; [lia|].
    eapply Z.le_trans; [apply Z.lt_le_incl; exact Hm|].
    apply Z.pow_le_mono_r; lia.
  - split; [apply Z.le_refl|].
    replace (2 ^ (- -52)) with (Zpos 4503599627370496) by reflexivity.
    apply Pos2Z.pos_le_pos. exact Hle.
Qed.

(** the integers from 0 to 100 are numbers, exactly *)
Lemma ofZ_small (n : Z) : 0 <= n <= 100 -> Js.toZ (Js.ofZ n) = n.
Proof.
  intros Hn.
  assert (Hall : forallb (fun k => Js.toZ (Js.ofZ (Z.of_nat k)) =? Z.of_nat k)
                         (seq 0 101) = true) by (vm_compute; reflexivity).
  rewrite forallb_forall in Hall.
  specialize (Hall (Z.to_nat n)). rewrite Z2Nat.id in Hall by lia.
  apply Z.eqb_eq, Hall, in_seq. lia.
Qed.

Lemma mul_100 (m : positive) (e : Z) :
  Js.mul (S754_finite false m e) (Js.ofZ 100)
  = binary_round_aux 53 1024 false (Zpos (m * 7036874417766400)) (e + -46)
                     loc_Exact.
Proof. rewrite hundred_is. reflexivity. Qed.

(** C5, the arithmetic: a confidence in [0, 1] gives an integer percentage in
    [0, 100]. *)
Lemma percent_in_range (c : Js.number) :
  in_unit_interval c ->
  exists n, 0 <= n <= 100 /\
            Js.round (Js.mul (Js.num_or (Some c) (Js.ofZ 0)) (Js.ofZ 100))
            = Js.ofZ n.
Proof.
  intros Hc. destruct c as [s|s| |s m e].
  - exists 0. split; [lia | reflexivity].
  - destruct Hc as (_ & H0 & H1). destruct s; discriminate.
  - destruct Hc as (_ & H0 & _). discriminate.
  - destruct (unit_interval_finite s m e Hc) as (-> & He & Hm).
    cbn [Js.num_or Js.truthy]. rewrite mul_100.
    assert (HM : Zpos (m * 7036874417766400) <= 100 * 2 ^ (- (e + -46))).
    { rewrite Pos2Z.inj_mul.
      replace (- (e + -46)) with (- e + 46) by lia.
      rewrite Z.pow_add_r by lia.
      replace (2 ^ 46) with 70368744177664 by reflexivity.
      assert (0 < 2 ^ (- e)) by (apply Z.pow_pos_nonneg; lia). nia. }
    pose proof (round_aux_bounded (m * 7036874417766400) (e + -46)
                  ltac:(lia) HM) as Hr.
    destruct (binary_round_aux 53 1024 false
                (Zpos (m * 7036874417766400)) (e + -46) loc_Exact)
      as [s2|s2| |s2 m2 e2]; try contradiction.
    + destruct s2; [contradiction|]. exists 0. split; [lia | reflexivity].
    + destruct s2; [contradiction|]. destruct Hr as [He2 Hm2].
      exists (Js.roundZ false m2 e2).
      destruct (round_below_100 m2 e2 He2 Hm2) as [Hround Hrange].
      split; [exact Hrange | exact Hround].
Qed.

(** The product is the binary64 product.  At the number nearest to 0.015 it
    is 1.5 exactly, and the percentage is 2, although that number times 100
    is below one and a half. *)
Remark percent_rounds_the_binary64_product :
  Js.mul (Js.div (Js.ofZ 15) (Js.ofZ 1000)) (Js.ofZ 100)
    = Js.div (Js.ofZ 3) (Js.ofZ 2)
  /\ Js.round (Js.mul (Js.div (Js.ofZ 15) (Js.ofZ 1000)) (Js.ofZ 100))
     = Js.ofZ 2
  /\ Js.div (Js.ofZ 15) (Js.ofZ 1000)
     = S754_finite false 8646911284551352 (-59)
  /\ 2 * (8646911284551352 * 100) < 3 * 2 ^ 59.
Proof. repeat split; vm_compute; reflexivity. Qed.

Set Implicit Arguments.

(** ** validateImageFile *)

Section ValidateFacts.

Variable render : Js.number -> string.

(** C3.  Over the limit: [valid = false] and the message holds the limit in
    MB; a MIME type outside the allow-list: [valid = false] whatever the
    size; within the limit and on the allow-list: [valid = true] and no
    error.  The default limit is 10 MB.  The result is a function of the
    three arguments and of nothing else. *)
Theorem validateImageFile_spec (buffer : Buffer) (mimeType : string)
    (maxSizeBytes : Js.number) :
  let v := validateImageFile render buffer mimeType maxSizeBytes in
  (Js.gt (Buffer_length buffer) maxSizeBytes = true ->
     valid v = false /\
     error v = Some ("File size exceeds maximum of "
                     ++ render (megabytes maxSizeBytes) ++ "MB") /\
     exists msg, error v = Some msg /\
                 Js.contains msg (render (megabytes maxSizeBytes) ++ "MB"))
  /\ (Js.includes allowedMimeTypes mimeType = false -> valid v = false)
  /\ (Js.le (Buffer_length buffer) maxSizeBytes = true ->
      Js.includes allowedMimeTypes mimeType = true ->
      v = {| valid := true; error := None |})
  /\ (forall m, In m allowedMimeTypes <-> Js.includes allowedMimeTypes m = true)
  /\ megabytes defaultMaxSizeBytes = Js.ofZ 10.
Proof.
  unfold validateImageFile, megabytes; cbv zeta.
  split; [|split; [|split; [|split]]].
  - intros Hgt. rewrite Hgt. cbn [valid error].
    split; [reflexivity|]. split; [reflexivity|].
    eexists. split; [reflexivity|].
    apply contains_suffix.
  - intros Hmime. destruct (Js.gt _ _); [reflexivity|].
    rewrite Hmime. reflexivity.
  - intros Hle Hmime. rewrite (le_not_gt _ _ Hle), Hmime. reflexivity.
  - intros m. unfold Js.includes. rewrite existsb_exists. split.
    + intros Hin. exists m. split; [exact Hin|apply String.eqb_refl].
    + intros (x & Hin & Heq). apply String.eqb_eq in Heq. subst. exact Hin.
  - vm_compute. reflexivity.
Qed.

End ValidateFacts.

Lemma validateImageFile_witness :
  validateImageFile Lab.showNumber ["a"%byte] "image/png" (Js.ofZ 0)
    = {| valid := false; error := Some "File size exceeds maximum of 0MB" |}
  /\ valid (validateImageFile Lab.showNumber ["a"%byte] "video/mp4" defaultMaxSizeBytes)
     = false
  /\ validateImageFile Lab.showNumber ["a"%byte] "image/png" defaultMaxSizeBytes
     = {| valid := true; error := None |}.
Proof.
  pose proof (validateImageFile_spec Lab.showNumber ["a"%byte] "image/png" (Js.ofZ 0))
    as (Hsize & _).
  pose proof (validateImageFile_spec Lab.showNumber ["a"%byte] "video/mp4"
                defaultMaxSizeBytes) as (_ & Hmime & _).
  pose proof (validateImageFile_spec Lab.showNumber ["a"%byte] "image/png"
                defaultMaxSizeBytes) as (_ & _ & Hok & _).
  cbv zeta in Hsize, Hmime, Hok.
  destruct (Hsize eq_refl) as (Hv & He & _).
  split; [|split].
  - destruct (validateImageFile _ _ _ _) as [v e]; cbn in Hv, He.
    subst v. rewrite He. reflexivity.
  - apply Hmime. reflexivity.
  - apply Hok; reflexivity.
Defined.

(** ** Running computations *)

Section Run.

Context {R : Runtime}.

Lemma bind_Normal {A B} (c : M A) (k : A -> M B) w a w' :
  c w = (Js.Normal a, w') -> bind c k w = k a w'.
Proof. unfold bind. now intros ->. Qed.

Lemma bind_Throw {A B} (c : M A) (k : A -> M B) w e w' :
  c w = (Js.Throw e, w') -> bind c k w = (Js.Throw e, w').
Proof. unfold bind. now intros ->. Qed.

Lemma try_catch_Normal {A} (c : M A) h w a w' :
  c w = (Js.Normal a, w') -> try_catch c h w = (Js.Normal a, w').
Proof. unfold try_catch. now intros ->. Qed.

Lemma try_catch_Throw {A} (c : M A) h w e w' :
  c w = (Js.Throw e, w') -> try_catch c h w = h e w'.
Proof. unfold try_catch. now intros ->. Qed.

Lemma total_ret {A} (a : A) : total (ret a).
Proof. intros w. now exists a, w. Qed.

Lemma total_bind {A B} (c : M A) (k : A -> M B) :
  total c -> (forall a, total (k a)) -> total (bind c k).
Proof.
  intros Hc Hk w. destruct (Hc w) as (a & w1 & E).
  rewrite (bind_Normal _ _ _ E). apply Hk.
Qed.

Lemma total_try_catch {A} (c : M A) (h : Js.thrown -> M A) :
  (forall e, total (h e)) -> total (try_catch c h).
Proof.
  intros Hh w. unfold try_catch.
  destruct (c w) as [[a|e] w1]; [now exists a, w1 | apply Hh].
Qed.

Lemma total_now : total now.
Proof. intros w. now eexists _, _. Qed.

Lemma total_draw {A} (f : Ext -> A * Ext) : total (draw f).
Proof. intros w. unfold draw. destruct (f (ext w)). now eexists _, _. Qed.

End Run.

(** ** optimizeImage *)

Section OptimizeFacts.

Context {R : Runtime}.

Lemma too_wide_iff (metadata : Metadata) :
  too_wide metadata = true <-> exists px, width metadata = Some px /\ 4000 < px.
Proof.
  unfold too_wide. destruct (width metadata) as [px|].
  - rewrite andb_true_iff, negb_true_iff, Z.eqb_neq, Z.gtb_ltb, Z.ltb_lt.
    split.
    + intros [_ H]. now exists px.
    + intros (q & [= <-] & H). split; lia.
  - split; [discriminate | intros (q & [=] & _)].
Qed.

Lemma resize_in_pipeline (metadata : Metadata) :
  In (resize 4000 4000 "inside" true) (pipelineFor metadata)
  <-> exists px, width metadata = Some px /\ 4000 < px.
Proof.
  rewrite <- too_wide_iff. unfold pipelineFor.
  destruct (too_wide metadata); cbn.
  - tauto.
  - split; [intros [H|[]]; discriminate | discriminate].
Qed.

Lemma grayscale_in_pipeline (metadata : Metadata) :
  In grayscale (pipelineFor metadata).
Proof. unfold pipelineFor. destruct (too_wide metadata); cbn; tauto. Qed.

Lemma optimizeImage_run (imageBuffer : Buffer) (w : World) :
  optimizeImage imageBuffer w
  = (Js.Normal (fst (optimized imageBuffer w)), snd (optimized imageBuffer w)).
Proof.
  unfold optimizeImage, optimized, try_catch, bind, call, ret, pipelineFor.
  destruct (sharp_metadata imageBuffer (ext w)) as [[metadata|e] x];
    [|reflexivity].
  cbn [ext set_ext].
  destruct (too_wide metadata); cbn [app];
    match goal with
    | |- context [sharp_toBuffer ?b ?p ?y] =>
        destruct (sharp_toBuffer b p y) as [[rendered|e'] x']
    end; reflexivity.
Qed.

Lemma total_optimizeImage (imageBuffer : Buffer) : total (optimizeImage imageBuffer).
Proof. intros w. rewrite optimizeImage_run. now eexists _, _. Qed.

(** C6.  [optimizeImage] always ends normally.  When sharp reads the
    metadata and renders the pipeline, the result is the rendered image:
    the pipeline always ends in grayscale, and resizes (inside 4000 x 4000,
    never enlarging) exactly when the width is above 4000.  When either
    sharp call throws, the result is the input buffer itself. *)
Theorem optimizeImage_never_raises (imageBuffer : Buffer) (w : World) :
  exists out w',
    optimizeImage imageBuffer w = (Js.Normal out, w') /\
    match sharp_metadata imageBuffer (ext w) with
    | (Js.Throw _, x) => out = imageBuffer /\ w' = set_ext x w
    | (Js.Normal metadata, x) =>
        (In (resize 4000 4000 "inside" true) (pipelineFor metadata)
           <-> exists px, width metadata = Some px /\ 4000 < px) /\
        In grayscale (pipelineFor metadata) /\
        match sharp_toBuffer imageBuffer (pipelineFor metadata) x with
        | (Js.Normal rendered, x') => out = rendered /\ w' = set_ext x' w
        | (Js.Throw _, x') => out = imageBuffer /\ w' = set_ext x' w
        end
    end.
Proof.
  eexists _, _. split; [apply optimizeImage_run|].
  unfold optimized.
  destruct (sharp_metadata imageBuffer (ext w)) as [[metadata|e] x].
  - split; [apply resize_in_pipeline|].
    split; [apply grayscale_in_pipeline|].
    destruct (sharp_toBuffer imageBuffer (pipelineFor metadata) x)
      as [[rendered|e'] x']; now split.
  - now split.
Qed.

End OptimizeFacts.

(** ** The recognition worker *)

Section WorkerFacts.

Context {R : Runtime}.

Lemma getOcrWorker_ready (w : World) (x : Worker) :
  ocrWorker w = Some x -> getOcrWorker w = (Js.Normal (Some x), w).
Proof.
  intros H. unfold getOcrWorker, bind, read_ocrWorker, ret.
  rewrite H. now rewrite H.
Qed.

Lemma getOcrWorker_fresh (w : World) :
  ocrWorker w = None -> getOcrWorker w = constructed w.
Proof.
  intros H.
  unfold getOcrWorker, constructed, bind, read_ocrWorker, ret, try_catch,
    createWorker_call, call, write_ocrWorker, throw.
  rewrite H. cbn [ext count_worker].
  now destruct (createWorker "eng" (ext w)) as [[x|e] y].
Qed.

Lemma constructed_counts (w : World) :
  workersCreated (snd (constructed w)) = S (workersCreated w).
Proof.
  unfold constructed. now destruct (createWorker "eng" (ext w)) as [[x|e] y].
Qed.

Lemma getOcrWorker_Normal (w w' : World) (r : option Worker) :
  getOcrWorker w = (Js.Normal r, w') ->
  exists x, r = Some x /\ ocrWorker w' = Some x /\
            (workersCreated w' <= S (workersCreated w))%nat.
Proof.
  destruct (ocrWorker w) as [x|] eqn:H.
  - rewrite (getOcrWorker_ready _ H). intros [= <- <-]. exists x. auto.
  - rewrite (getOcrWorker_fresh _ H). unfold constructed.
    destruct (createWorker "eng" (ext w)) as [[x|e] y]; [|discriminate].
    intros [= <- <-]. exists x. cbn. auto.
Qed.

Lemma getOcrWorker_Throw (w w' : World) (e : Js.thrown) :
  getOcrWorker w = (Js.Throw e, w') ->
  e = init_error /\ ocrWorker w = None /\ ocrWorker w' = None /\
  workersCreated w' = S (workersCreated w).
Proof.
  destruct (ocrWorker w) as [x|] eqn:H.
  - rewrite (getOcrWorker_ready _ H). discriminate.
  - rewrite (getOcrWorker_fresh _ H). unfold constructed.
    destruct (createWorker "eng" (ext w)) as [[x|e'] y]; [discriminate|].
    intros [= <- <-]. cbn. auto.
Qed.

(** One call run without interruption is the two steps of the step model. *)
Lemma getOcrWorker_step_agrees (w : World) :
  let (pc1, w1) := getOcrWorker_step AtEntry w in
  getOcrWorker_step pc1 w1
  = (Returned (fst (getOcrWorker w)), snd (getOcrWorker w)).
Proof.
  destruct (ocrWorker w) as [x|] eqn:H.
  - rewrite (getOcrWorker_ready _ H). cbn. rewrite H. cbn. reflexivity.
  - rewrite (getOcrWorker_fresh _ H). unfold constructed. cbn. rewrite H.
    unfold createWorker_call, call. cbn [ext count_worker].
    now destruct (createWorker "eng" (ext w)) as [[x|e] y].
Qed.

(** *** Fields a computation leaves alone *)

Lemma keeps_bind {A B C} (field : World -> C) (c : M A) (k : A -> M B) :
  keeps field c -> (forall a, keeps field (k a)) -> keeps field (bind c k).
Proof.
  intros Hc Hk w. unfold bind. specialize (Hc w).
  destruct (c w) as [[a|e] w1]; cbn in *; [|exact Hc].
  now rewrite Hk.
Qed.

Lemma keeps_try_catch {A C} (field : World -> C) (c : M A) h :
  keeps field c -> (forall e, keeps field (h e)) -> keeps field (try_catch c h).
Proof.
  intros Hc Hh w. unfold try_catch. specialize (Hc w).
  destruct (c w) as [[a|e] w1]; cbn in *; [exact Hc|].
  now rewrite Hh.
Qed.

Lemma keeps_ret {A C} (field : World -> C) (a : A) : keeps field (ret a).
Proof. now intros w. Qed.

Lemma keeps_throw {A C} (field : World -> C) e : keeps field (@throw R A e).
Proof. now intros w. Qed.

Lemma keeps_now {C} (field : World -> C) : keeps field now.
Proof. now intros w. Qed.

Lemma keeps_call {A C} (field : World -> C) (f : Ext -> Js.completion A * Ext) :
  inner field -> keeps field (call f).
Proof. intros Hf w. unfold call. destruct (f (ext w)). cbn. apply Hf. Qed.

Lemma keeps_draw {A C} (field : World -> C) (f : Ext -> A * Ext) :
  inner field -> keeps field (draw f).
Proof. intros Hf w. unfold draw. destruct (f (ext w)). cbn. apply Hf. Qed.

Lemma inner_ocrWorker : inner ocrWorker.      Proof. now intros x w. Qed.
Lemma inner_workersCreated : inner workersCreated. Proof. now intros x w. Qed.
Lemma inner_db : inner db_.                  Proof. now intros x w. Qed.
Lemma inner_url : inner DATABASE_URL.        Proof. now intros x w. Qed.
Lemma inner_rows : inner ocrResults.         Proof. now intros x w. Qed.
Lemma inner_nextId : inner ocrResults_nextId. Proof. now intros x w. Qed.

Lemma keeps_optimizeImage {C} (field : World -> C) buf :
  inner field -> keeps field (optimizeImage buf).
Proof.
  intros Hf. unfold optimizeImage.
  apply keeps_try_catch; [|intros; apply keeps_ret].
  apply keeps_bind; [now apply keeps_call|]. intros a. now apply keeps_call.
Qed.

Lemma keeps_recognize {C} (field : World -> C) wk buf :
  inner field -> keeps field (recognize wk buf).
Proof.
  intros Hf. destruct wk; cbn; [now apply keeps_call | apply keeps_throw].
Qed.

End WorkerFacts.

(** ** processImageWithOcr *)

Section OcrFacts.

Context {R : Runtime}.

Lemma processImageWithOcr_run (imageBuffer : Buffer) (language : string)
    (w : World) :
  processImageWithOcr imageBuffer language w
  = match engine (fst (optimized imageBuffer w)) (snd (optimized imageBuffer w)) with
    | (Js.Normal data, w2) =>
        (Js.Normal (recognized language (Date_now (ext w2) - Date_now (ext w)) data), w2)
    | (Js.Throw e, w2) =>
        (Js.Normal (failed language (Date_now (ext w2) - Date_now (ext w)) e), w2)
    end.
Proof.
  unfold processImageWithOcr, engine, bind, try_catch, now, ret.
  rewrite optimizeImage_run.
  destruct (optimized imageBuffer w) as [ob w1]. cbn [fst snd].
  destruct (getOcrWorker w1) as [[worker|e] w2]; [|reflexivity].
  destruct (recognize worker ob w2) as [[data|e] w3]; reflexivity.
Qed.

Lemma total_processImageWithOcr (imageBuffer : Buffer) (language : string) :
  total (processImageWithOcr imageBuffer language).
Proof.
  intros w. rewrite processImageWithOcr_run.
  destruct (engine _ _) as [[data|e] w2]; now eexists _, _.
Qed.

Lemma keeps_getOcrWorker {C} (field : World -> C) :
  inner field ->
  (forall v w, field (set_ocrWorker v w) = field w) ->
  (forall w, field (count_worker w) = field w) ->
  keeps field getOcrWorker.
Proof.
  intros Hx Hs Hc w.
  destruct (ocrWorker w) as [x|] eqn:H.
  - now rewrite (getOcrWorker_ready _ H).
  - rewrite (getOcrWorker_fresh _ H). unfold constructed.
    destruct (createWorker "eng" (ext w)) as [[x|e] y]; cbn [snd];
      now rewrite ?Hs, ?Hx, ?Hc.
Qed.

Lemma keeps_processImageWithOcr {C} (field : World -> C) buf lang :
  inner field ->
  (forall v w, field (set_ocrWorker v w) = field w) ->
  (forall w, field (count_worker w) = field w) ->
  keeps field (processImageWithOcr buf lang).
Proof.
  intros Hx Hs Hc. unfold processImageWithOcr.
  apply keeps_bind; [apply keeps_now|]. intros t0.
  apply keeps_try_catch.
  - apply keeps_bind; [now apply keeps_optimizeImage|]. intros ob.
    apply keeps_bind; [now apply keeps_getOcrWorker|]. intros wk.
    apply keeps_bind; [now apply keeps_recognize|]. intros data.
    apply keeps_bind; [apply keeps_now|]. intros t. apply keeps_ret.
  - intros e. apply keeps_bind; [apply keeps_now|]. intros t. apply keeps_ret.
Qed.

(** With a worker in place, processing an image builds no other and keeps it. *)
Lemma processImageWithOcr_reuses buf lang (w : World) (x : Worker) :
  ocrWorker w = Some x ->
  ocrWorker (snd (processImageWithOcr buf lang w)) = Some x /\
  workersCreated (snd (processImageWithOcr buf lang w)) = workersCreated w.
Proof.
  intros H. rewrite processImageWithOcr_run.
  pose proof (keeps_optimizeImage buf inner_ocrWorker w) as Ho.
  pose proof (keeps_optimizeImage buf inner_workersCreated w) as Hn.
  rewrite optimizeImage_run in Ho, Hn. cbn [snd] in Ho, Hn.
  destruct (optimized buf w) as [ob w1]. cbn [fst snd] in *.
  rewrite H in Ho. unfold engine, bind.
  rewrite (getOcrWorker_ready _ Ho).
  pose proof (keeps_recognize (Some x) ob inner_ocrWorker w1) as Hr.
  pose proof (keeps_recognize (Some x) ob inner_workersCreated w1) as Hm.
  destruct (recognize (Some x) ob w1) as [[data|e] w2]; cbn [snd] in *;
    rewrite Hr, Hm; auto.
Qed.

(** C4, with the error field as the code fills it.  When obtaining the
    worker or recognising throws [e], after the image was optimised,
    [processImageWithOcr] ends normally with [success = false], empty text,
    confidence 0, the language it was given, and the clock reading at the
    failure minus the reading at the start.  The error field is the message
    of [e] when [e] is an [Error]; when [e] is anything else it is
    "Unknown error", whatever was thrown.  When it is [getOcrWorker] that
    throws, [e] is an [Error] and the message is
    "Failed to initialize OCR worker". *)
Theorem processImageWithOcr_failure (imageBuffer : Buffer) (language : string)
    (w w1 w2 : World) (optimizedBuffer : Buffer) (e : Js.thrown) :
  optimizeImage imageBuffer w = (Js.Normal optimizedBuffer, w1) ->
  (worker <- getOcrWorker ;; recognize worker optimizedBuffer) w1
    = (Js.Throw e, w2) ->
  processImageWithOcr imageBuffer language w
    = (Js.Normal {| ocr_text := "";
                    ocr_confidence := Js.ofZ 0;
                    ocr_language := language;
                    ocr_processingTimeMs := Date_now (ext w2) - Date_now (ext w);
                    ocr_success := false;
                    ocr_error := Some (Js.message_or e "Unknown error") |}, w2)
  /\ (forall m, e = Js.Error m -> Js.message_or e "Unknown error" = m)
  /\ (forall repr, e = Js.NonError repr ->
        Js.message_or e "Unknown error" = "Unknown error")
  /\ (forall e1, getOcrWorker w1 = (Js.Throw e1, w2) ->
        e = Js.Error "Failed to initialize OCR worker").
Proof.
  intros Hopt Heng. rewrite optimizeImage_run in Hopt.
  injection Hopt as Hob Hw1.
  split; [|split; [|split]].
  - rewrite processImageWithOcr_run, Hob, Hw1.
    unfold engine. now rewrite Heng.
  - now intros m ->.
  - now intros repr ->.
  - intros e1 Hget. rewrite (bind_Throw _ _ _ Hget) in Heng.
    injection Heng as <-.
    now destruct (getOcrWorker_Throw _ Hget) as (-> & _).
Qed.

End OcrFacts.

Lemma processImageWithOcr_failure_witness :
  processImageWithOcr (R := Lab.runtime) (list_byte_of_string "abc") "deu"
    engine_down
  = (Js.Normal {| ocr_text := "";
                  ocr_confidence := S754_zero false;
                  ocr_language := "deu";
                  ocr_processingTimeMs := 8;
                  ocr_success := false;
                  ocr_error := Some "Failed to initialize OCR worker" |},
     engine_down_failed).
Proof.
  exact (proj1 (processImageWithOcr_failure (R := Lab.runtime)
                  (list_byte_of_string "abc") "deu" engine_down
                  (w1 := engine_down_optimized) (w2 := engine_down_failed)
                  (optimizedBuffer := list_byte_of_string "abcG")
                  (e := Js.Error "Failed to initialize OCR worker")
                  eq_refl eq_refl)).
Defined.

(** C4, as the specification words it, fails.  The engine of this runtime
    rejects with a string and not with an [Error]: the outcome says
    "Unknown error", and the text of the failure is lost. *)
Lemma processImageWithOcr_drops_the_message :
  engine (list_byte_of_string "abc") frail_optimized
    = (Js.Throw (Js.NonError "Error attempting to read image."), frail_failed)
  /\ processImageWithOcr (R := Frail.runtime) (list_byte_of_string "abc") "eng"
       Frail.boot
     = (Js.Normal {| ocr_text := "";
                     ocr_confidence := Js.ofZ 0;
                     ocr_language := "eng";
                     ocr_processingTimeMs := 4;
                     ocr_success := false;
                     ocr_error := Some "Unknown error" |}, frail_failed)
  /\ ~ failure_message_is_reported.
Proof.
  split; [reflexivity|]. split; [reflexivity|].
  intros H.
  destruct (H Frail.runtime (list_byte_of_string "abc") "eng" Frail.boot
              frail_optimized frail_failed (list_byte_of_string "abc")
              (Js.NonError "Error attempting to read image.")
              eq_refl eq_refl) as (o & Hrun & Herror).
  injection Hrun as <-. discriminate Herror.
Qed.

(** ** The worker is built once: sequential calls, and interleaved ones *)

(** C7, as stated, fails.  Two calls enter before either is resumed: both see
    [ocrWorker] null, both call [createWorker], the callers hold different
    workers and the second assignment replaces the first. *)
Lemma getOcrWorker_interleaved_builds_twice :
  fst (run_schedule [0; 1; 0; 1]%nat [AtEntry; AtEntry] engine_up)
    = [Returned (R := Lab.runtime) (Js.Normal (Some 0%nat));
       Returned (R := Lab.runtime) (Js.Normal (Some 1%nat))]
  /\ workersCreated (snd (run_schedule [0; 1; 0; 1]%nat [AtEntry; AtEntry] engine_up))
     = 2%nat
  /\ ocrWorker (snd (run_schedule [0; 1; 0; 1]%nat [AtEntry; AtEntry] engine_up))
     = Some 1%nat
  /\ ~ shared_under_interleaving.
Proof.
  split; [reflexivity|]. split; [reflexivity|]. split; [reflexivity|].
  intros H.
  destruct (H Lab.runtime [0; 1; 0; 1]%nat engine_up
              (snd (run_schedule [0; 1; 0; 1]%nat [AtEntry; AtEntry] engine_up))
              (Some 0%nat) (Some 1%nat) eq_refl eq_refl) as [Hab _].
  discriminate Hab.
Qed.

Section SequentialWorker.

Context {R : Runtime}.

Lemma terminateOcrWorker_run (w : World) :
  terminateOcrWorker w
  = match ocrWorker w with
    | None => (Js.Normal tt, w)
    | Some wk =>
        match Worker_terminate wk (ext w) with
        | (Js.Normal _, y) => (Js.Normal tt, set_ocrWorker None (set_ext y w))
        | (Js.Throw _, y) => (Js.Normal tt, set_ext y w)
        end
    end.
Proof.
  unfold terminateOcrWorker, bind, read_ocrWorker, try_catch, call,
    write_ocrWorker, ret.
  destruct (ocrWorker w) as [wk|]; [|reflexivity].
  now destruct (Worker_terminate wk (ext w)) as [[[]|e] y].
Qed.

(** C7, for calls that run one after the other.
    - With a worker in place, [getOcrWorker] returns that worker and changes
      nothing: [createWorker] is not called.  So does everything
      [processImageWithOcr] does.
    - A call that ends normally returns the worker now in place, and has
      called [createWorker] at most once.
    - A call that throws throws "Failed to initialize OCR worker", leaves
      [ocrWorker] null, and the next call calls [createWorker] again.
    - After [terminateOcrWorker], when [terminate] resolves, [ocrWorker] is
      null again. *)
Theorem getOcrWorker_sequential (w : World) :
  (forall x, ocrWorker w = Some x ->
     getOcrWorker w = (Js.Normal (Some x), w) /\
     forall buf lang,
       ocrWorker (snd (processImageWithOcr buf lang w)) = Some x /\
       workersCreated (snd (processImageWithOcr buf lang w)) = workersCreated w)
  /\ (forall r w', getOcrWorker w = (Js.Normal r, w') ->
        exists x, r = Some x /\ ocrWorker w' = Some x /\
                  (workersCreated w' <= S (workersCreated w))%nat)
  /\ (forall e w', getOcrWorker w = (Js.Throw e, w') ->
        e = Js.Error "Failed to initialize OCR worker" /\
        ocrWorker w' = None /\
        workersCreated (snd (getOcrWorker w')) = S (workersCreated w'))
  /\ (forall x y, ocrWorker w = Some x ->
        Worker_terminate x (ext w) = (Js.Normal tt, y) ->
        ocrWorker (snd (terminateOcrWorker w)) = None).
Proof.
  split; [|split; [|split]].
  - intros x Hx. split; [now apply getOcrWorker_ready|].
    intros buf lang. now apply processImageWithOcr_reuses.
  - intros r w' H. now apply getOcrWorker_Normal.
  - intros e w' H. destruct (getOcrWorker_Throw _ H) as (-> & _ & Hn & _).
    split; [reflexivity|]. split; [exact Hn|].
    rewrite (getOcrWorker_fresh _ Hn). apply constructed_counts.
  - intros x y Hx Ht. rewrite terminateOcrWorker_run, Hx, Ht. reflexivity.
Qed.

End SequentialWorker.

Lemma getOcrWorker_sequential_witness :
  getOcrWorker (R := Lab.runtime) (snd (getOcrWorker engine_up))
  = (Js.Normal (Some 0%nat), snd (getOcrWorker engine_up))
  /\ (exists x, Some 0%nat = Some x /\
                ocrWorker (snd (getOcrWorker engine_up)) = Some x /\
                (workersCreated (snd (getOcrWorker engine_up))
                 <= S (workersCreated engine_up))%nat)
  /\ workersCreated (snd (getOcrWorker (snd (getOcrWorker engine_down))))
     = S (workersCreated (snd (getOcrWorker engine_down)))
  /\ ocrWorker (snd (terminateOcrWorker (snd (getOcrWorker engine_up)))) = None.
Proof.
  destruct (getOcrWorker_sequential (R := Lab.runtime)
              (snd (getOcrWorker engine_up))) as (Hready & _ & _ & Hterm).
  destruct (getOcrWorker_sequential (R := Lab.runtime) engine_up)
    as (_ & Hnormal & _).
  destruct (getOcrWorker_sequential (R := Lab.runtime) engine_down)
    as (_ & _ & Hthrow & _).
  split; [|split; [|split]].
  - exact (proj1 (Hready 0%nat eq_refl)).
  - exact (Hnormal (Some 0%nat) (snd (getOcrWorker engine_up)) eq_refl).
  - exact (proj2 (proj2 (Hthrow (Js.Error "Failed to initialize OCR worker")
                           (snd (getOcrWorker engine_down)) eq_refl))).
  - exact (Hterm 0%nat
             (Lab.tick 1 (ext (snd (getOcrWorker (R := Lab.runtime) engine_up))))
             eq_refl eq_refl).
Defined.

(** ** The result store *)

Section DbFacts.

Context {R : Runtime}.

Lemma getDb_run (w : World) :
  getDb w = (Js.Normal (fst (connected w)), snd (connected w)).
Proof.
  unfold getDb, connected, bind, try_catch, call, write_db, read_db, ret.
  destruct (db_ w) as [d|] eqn:Hd; [now rewrite Hd|].
  destruct (DATABASE_URL w) as [[|c u]|]; try now rewrite Hd.
  now destruct (drizzle (String c u) (ext w)) as [[d|e] y].
Qed.

Lemma connected_rows (w : World) :
  ocrResults (snd (connected w)) = ocrResults w.
Proof.
  unfold connected.
  destruct (db_ w), (DATABASE_URL w) as [[|c u]|]; try reflexivity.
  now destruct (drizzle (String c u) (ext w)) as [[d|e] y].
Qed.

(** No connection and no URL to connect to: [getDb] returns null. *)
Lemma connected_none (w : World) :
  db_ w = None -> DATABASE_URL w = None -> connected w = (None, w).
Proof. unfold connected. now intros -> ->. Qed.

Lemma saveOcrResult_run (result : InsertOcrResult) (w : World) :
  saveOcrResult result w
  = match connected w with
    | (None, w1) => (Js.Normal None, w1)
    | (Some d, w1) =>
        match Database_execute d (InsertInto result) (ext w1) with
        | (Some e, y) => (Js.Throw e, set_ext y w1)
        | (None, y) =>
            (Js.Normal (Some result),
             apply_statement (InsertInto result) (set_ext y w1))
        end
    end.
Proof.
  unfold saveOcrResult, bind. rewrite getDb_run.
  destruct (connected w) as [[d|] w1]; cbn [fst snd]; [|reflexivity].
  unfold try_catch, execute, ret, throw.
  now destruct (Database_execute d (InsertInto result) (ext w1)) as [[e|] y].
Qed.

Lemma deleteOcrResult_run (id userId : Z) (w : World) :
  deleteOcrResult id userId w
  = match connected w with
    | (None, w1) => (Js.Normal false, w1)
    | (Some d, w1) =>
        match Database_execute d (DeleteWhere id userId) (ext w1) with
        | (Some e, y) => (Js.Throw e, set_ext y w1)
        | (None, y) =>
            (Js.Normal true,
             apply_statement (DeleteWhere id userId) (set_ext y w1))
        end
    end.
Proof.
  unfold deleteOcrResult, bind. rewrite getDb_run.
  destruct (connected w) as [[d|] w1]; cbn [fst snd]; [|reflexivity].
  unfold try_catch, execute, ret, throw.
  now destruct (Database_execute d (DeleteWhere id userId) (ext w1)) as [[e|] y].
Qed.

(** The rows after [deleteOcrResult]: all of them, or all but the matching ones. *)
Lemma deleteOcrResult_rows (id userId : Z) (w : World) :
  ocrResults (snd (deleteOcrResult id userId w)) = ocrResults w \/
  ocrResults (snd (deleteOcrResult id userId w))
    = filter (fun r => negb (matches id userId r)) (ocrResults w).
Proof.
  rewrite deleteOcrResult_run. pose proof (connected_rows w) as Hc.
  destruct (connected w) as [[d|] w1]; cbn [snd] in *; [|now left].
  destruct (Database_execute d (DeleteWhere id userId) (ext w1)) as [[e|] y];
    cbn; rewrite Hc; auto.
Qed.

(** C8.  [deleteOcrResult(id, userId)] removes no row of another user: such
    a row is still in the table afterwards, and the rows of the other users
    are the same list as before.  A row that is gone had this [id] and this
    [userId], and no row is added. *)
Theorem deleteOcrResult_owner_only (id userId : Z) (w : World) :
  let rows' := ocrResults (snd (deleteOcrResult id userId w)) in
  (forall r, In r (ocrResults w) -> row_userId r <> userId -> In r rows')
  /\ filter (fun r => negb (row_userId r =? userId)) rows'
     = filter (fun r => negb (row_userId r =? userId)) (ocrResults w)
  /\ (forall r, In r (ocrResults w) -> ~ In r rows' ->
        row_id r = id /\ row_userId r = userId)
  /\ (forall r, In r rows' -> In r (ocrResults w)).
Proof.
  cbv zeta.
  destruct (deleteOcrResult_rows id userId w) as [-> | ->].
  - split; [|split; [|split]]; auto.
    intros r Hin Hnot. contradiction.
  - split; [|split; [|split]].
    + intros r Hin Hne. apply filter_In. split; [exact Hin|].
      unfold matches. apply Z.eqb_neq in Hne. rewrite Hne.
      now rewrite andb_false_r.
    + induction (ocrResults w) as [|r rows IH]; [reflexivity|].
      cbn [filter]. unfold matches at 1.
      destruct (row_userId r =? userId) eqn:Hu.
      * rewrite andb_true_r. destruct (row_id r =? id); cbn [negb filter].
        -- exact IH.
        -- rewrite Hu. cbn [negb]. exact IH.
      * rewrite andb_false_r. cbn [negb filter]. rewrite Hu. cbn [negb].
        now rewrite IH.
    + intros r0 Hin Hnot.
      destruct (matches id userId r0) eqn:Hm.
      * unfold matches in Hm. apply andb_true_iff in Hm as [Hi Hu].
        apply Z.eqb_eq in Hi, Hu. now split.
      * exfalso. apply Hnot. apply filter_In. split; [exact Hin|].
        now rewrite Hm.
    + intros r0 Hin. now apply filter_In in Hin as [Hin _].
Qed.

(** C10.  With a database connection and a delete statement the server
    accepts, [deleteOcrResult] returns [true] and the endpoint answers
    [{success: true}], whatever the table holds: also when no row has this
    id for this user, in which case the table is unchanged. *)
Theorem deleteOcrResult_always_true (id userId : Z) (w w1 : World)
    (d : Database) (y : Ext) :
  getDb w = (Js.Normal (Some d), w1) ->
  Database_execute d (DeleteWhere id userId) (ext w1) = (None, y) ->
  fst (deleteOcrResult id userId w) = Js.Normal true
  /\ fst (deleteResult userId id w) = Js.Normal {| del_success := true |}
  /\ ((forall r, In r (ocrResults w) -> row_id r = id -> row_userId r <> userId) ->
      ocrResults (snd (deleteOcrResult id userId w)) = ocrResults w).
Proof.
  intros Hdb Hex. rewrite getDb_run in Hdb.
  assert (Hrun : deleteOcrResult id userId w
                 = (Js.Normal true,
                    apply_statement (DeleteWhere id userId) (set_ext y w1))).
  { rewrite deleteOcrResult_run.
    destruct (connected w) as [o w0]. cbn [fst snd] in Hdb.
    injection Hdb as -> ->. now rewrite Hex. }
  split; [now rewrite Hrun|]. split.
  - unfold deleteResult, try_catch, bind. now rewrite Hrun.
  - intros Hnone. rewrite Hrun. cbn.
    pose proof (connected_rows w) as Hrows.
    destruct (connected w) as [o w0]. cbn [fst snd] in Hdb, Hrows.
    injection Hdb as _ ->. rewrite Hrows.
    clear - Hnone. induction (ocrResults w) as [|r rows IH]; [reflexivity|].
    cbn [filter].
    assert (Hm : matches id userId r = false).
    { unfold matches. destruct (row_id r =? id) eqn:Hi; [|reflexivity].
      apply Z.eqb_eq in Hi. cbn.
      apply Z.eqb_neq. apply (Hnone r); [now left | exact Hi]. }
    rewrite Hm. cbn [negb]. f_equal. apply IH.
    intros r' Hin. apply Hnone. now right.
Qed.

End DbFacts.

(** ** processBatch, item by item *)

Section BatchFacts.

Context {R : Runtime}.

Lemma length_successes_failures (entries : list BatchEntry) :
  (List.length (successes entries) + List.length (failures entries)
   = List.length entries)%nat.
Proof.
  induction entries as [|[r|x] rest IH]; cbn; [reflexivity| |]; lia.
Qed.

Lemma push_fst (acc : Acc) (e : BatchEntry) :
  fst (push acc e) = (fst acc ++ successes [e])%list.
Proof. destruct e; cbn; [reflexivity | now rewrite app_nil_r]. Qed.

Lemma push_snd (acc : Acc) (e : BatchEntry) :
  snd (push acc e) = (snd acc ++ failures [e])%list.
Proof. destruct e; cbn; [now rewrite app_nil_r | reflexivity]. Qed.

Lemma successes_cons e es : successes (e :: es) = (successes [e] ++ successes es)%list.
Proof. now destruct e. Qed.

Lemma failures_cons e es : failures (e :: es) = (failures [e] ++ failures es)%list.
Proof. now destruct e. Qed.

(** The loop body pushes the entry of its item, and nothing else. *)
Lemma processBatch_body_run (userId : Z) (image : ImageInput) (acc : Acc)
    (w : World) :
  processBatch_body userId image acc w
  = match spec_processItem userId image w with
    | (Js.Normal e, w') => (Js.Normal (push acc e), w')
    | (Js.Throw t, w') => (Js.Throw t, w')
    end.
Proof.
  unfold processBatch_body, spec_processItem. cbv zeta.
  destruct (valid _); cbn [negb]; [|reflexivity].
  destruct (total_processImageWithOcr
              (Buffer_from_base64 (imageData image)) (language image) w)
    as (o & w1 & Ho).
  unfold try_catch at 1. unfold bind at 1 5. rewrite Ho.
  destruct (ocr_success o); cbn [negb]; [|reflexivity].
  unfold spec_upload_and_persist, try_catch, bind, draw, call, ret.
  destruct (nanoid (ext w1)) as [token x2]. cbn [ext set_ext].
  destruct (storagePut _ _ _ x2) as [[url|e] x3]; [|reflexivity].
  destruct (saveOcrResult _ _) as [[s|e] w3]; reflexivity.
Qed.

Lemma spec_processItem_total (userId : Z) (image : ImageInput) :
  total (spec_processItem userId image).
Proof.
  unfold spec_processItem. cbv zeta.
  destruct (valid _); [|apply total_ret].
  apply total_bind; [apply total_processImageWithOcr|]. intros o.
  destruct (ocr_success o); [|apply total_ret].
  apply total_try_catch. intros e. apply total_ret.
Qed.

Lemma spec_processItem_fileName (userId : Z) (image : ImageInput)
    (w w' : World) (e : BatchEntry) :
  spec_processItem userId image w = (Js.Normal e, w') ->
  entry_fileName e = fileName image.
Proof.
  unfold spec_processItem. cbv zeta.
  destruct (valid _); [|now intros [= <- _]].
  unfold bind at 1.
  destruct (processImageWithOcr _ _ w) as [[o|t] w1]; [|discriminate].
  destruct (ocr_success o); [|now intros [= <- _]].
  unfold try_catch, bind at 1.
  destruct (spec_upload_and_persist _ _ _ _ w1) as [[url|t] w2];
    now intros [= <- _].
Qed.

Lemma spec_entries_total (userId : Z) (images : list ImageInput) :
  total (spec_entries userId images).
Proof.
  induction images as [|image rest IH]; cbn; [apply total_ret|].
  apply total_bind; [apply spec_processItem_total|]. intros e.
  apply total_bind; [exact IH|]. intros es. apply total_ret.
Qed.

Lemma spec_entries_shape (userId : Z) (images : list ImageInput)
    (w w' : World) (entries : list BatchEntry) :
  spec_entries userId images w = (Js.Normal entries, w') ->
  Forall2 (fun image e => entry_fileName e = fileName image) images entries.
Proof.
  revert w w' entries.
  induction images as [|image rest IH]; intros w w' entries; cbn.
  - intros [= <- _]. constructor.
  - unfold bind at 1.
    destruct (spec_processItem userId image w) as [[e|t] w1] eqn:He;
      [|discriminate].
    unfold bind at 1.
    destruct (spec_entries userId rest w1) as [[es|t] w2] eqn:Hes;
      [|discriminate].
    intros [= <- _]. constructor.
    + eapply spec_processItem_fileName; exact He.
    + eapply IH; exact Hes.
Qed.

(** The items after a prefix are processed from the state the prefix left. *)
Lemma spec_entries_app (userId : Z) (pre post : list ImageInput) (w : World) :
  spec_entries userId (pre ++ post) w
  = (es1 <- spec_entries userId pre ;;
     es2 <- spec_entries userId post ;;
     ret (es1 ++ es2)%list) w.
Proof.
  revert w. induction pre as [|image rest IH]; intros w; cbn.
  - unfold bind, ret.
    now destruct (spec_entries userId post w) as [[es|t] w1].
  - unfold bind, ret in *.
    destruct (spec_processItem userId image w) as [[e|t] w1]; [|reflexivity].
    rewrite IH.
    destruct (spec_entries userId rest w1) as [[es1|t] w2]; [|reflexivity].
    now destruct (spec_entries userId post w2) as [[es2|t] w3].
Qed.

Lemma processBatch_loop_run (userId : Z) (images : list ImageInput)
    (acc : Acc) (w : World) :
  processBatch_loop userId images acc w
  = match spec_entries userId images w with
    | (Js.Normal es, w') =>
        (Js.Normal ((fst acc ++ successes es)%list,
                    (snd acc ++ failures es)%list), w')
    | (Js.Throw t, w') => (Js.Throw t, w')
    end.
Proof.
  revert acc w. induction images as [|image rest IH]; intros acc w; cbn.
  - unfold ret. rewrite !app_nil_r. now destruct acc.
  - unfold bind, ret. rewrite processBatch_body_run.
    destruct (spec_processItem userId image w) as [[e|t] w1]; [|reflexivity].
    rewrite IH.
    destruct (spec_entries userId rest w1) as [[es|t] w2]; [|reflexivity].
    rewrite push_fst, push_snd, <- !app_assoc.
    now rewrite <- successes_cons, <- failures_cons.
Qed.

Lemma processBatch_run (userId : Z) (images : list ImageInput) (w : World) :
  processBatch userId images w = spec_processBatch userId images w.
Proof.
  unfold processBatch, spec_processBatch, bind.
  rewrite processBatch_loop_run.
  now destruct (spec_entries userId images w) as [[es|t] w'].
Qed.

(** the error entry of an image that fails validation *)
Lemma spec_entries_all_invalid (userId : Z) (images : list ImageInput)
    (w : World) :
  Forall (fun image =>
            valid (validateImageFile numberToString
                     (Buffer_from_base64 (imageData image)) (mimeType image)
                     defaultMaxSizeBytes) = false) images ->
  spec_entries userId images w
  = (Js.Normal
       (map (fun image =>
               inr {| err_fileName := fileName image;
                      err_error :=
                        Js.str_or
                          (error (validateImageFile numberToString
                                    (Buffer_from_base64 (imageData image))
                                    (mimeType image) defaultMaxSizeBytes))
                          "Invalid image" |}) images), w).
Proof.
  induction 1 as [|image rest Hbad _ IH]; [reflexivity|].
  cbn [spec_entries map]. unfold bind at 1.
  unfold spec_processItem at 1. cbv zeta. rewrite Hbad. unfold ret at 1.
  unfold bind at 1. rewrite IH. reflexivity.
Qed.

(** A batch of images that all fail validation: no result, one error for each,
    in order, and nothing else happens. *)
Lemma processBatch_all_invalid (userId : Z) (images : list ImageInput)
    (w : World) :
  Forall (fun image =>
            valid (validateImageFile numberToString
                     (Buffer_from_base64 (imageData image)) (mimeType image)
                     defaultMaxSizeBytes) = false) images ->
  exists out,
    processBatch userId images w = (Js.Normal out, w) /\
    results out = [] /\
    map err_fileName (errors out) = map fileName images /\
    totalProcessed out = 0%nat /\
    totalFailed out = List.length images.
Proof.
  intros Hbad. rewrite processBatch_run. unfold spec_processBatch, bind, ret.
  rewrite (spec_entries_all_invalid userId w Hbad).
  eexists. split; [reflexivity|]. cbn [results errors totalProcessed totalFailed].
  clear Hbad.
  assert (Hs : forall f (l : list ImageInput),
             successes (map (fun i => inr (f i)) l) = []).
  { intros f l. induction l; cbn; auto. }
  assert (Hf : forall f (l : list ImageInput),
             failures (map (fun i => inr (f i)) l) = map f l).
  { intros f l. induction l as [|i l IH]; cbn; [reflexivity | now rewrite IH]. }
  rewrite Hs, Hf, map_map, length_map. cbn. auto.
Qed.

(** C1.  [processBatch] ends normally; [totalProcessed] is the length of
    [results], [totalFailed] the length of [errors], and together they are
    the number of images.  On the empty list: no result, no error, 0 and 0. *)
Theorem processBatch_totals (userId : Z) (images : list ImageInput) (w : World) :
  (exists out w',
     processBatch userId images w = (Js.Normal out, w') /\
     totalProcessed out = List.length (results out) /\
     totalFailed out = List.length (errors out) /\
     (totalProcessed out + totalFailed out = List.length images)%nat)
  /\ processBatch userId [] w
     = (Js.Normal {| success := true; results := []; errors := [];
                     totalProcessed := 0; totalFailed := 0 |}, w).
Proof.
  split; [|reflexivity].
  rewrite processBatch_run. unfold spec_processBatch, bind, ret.
  destruct (spec_entries_total userId images w) as (es & w' & Hes).
  rewrite Hes. eexists _, _. split; [reflexivity|]. cbn.
  split; [reflexivity|]. split; [reflexivity|].
  rewrite length_successes_failures.
  apply spec_entries_shape in Hes. symmetry. exact (Forall2_length Hes).
Qed.

(** An item that fails pushes one error, with its file name, and no result. *)
Lemma processBatch_body_failures (userId : Z) (image : ImageInput)
    (acc : Acc) (w : World) :
  let bytes := Buffer_from_base64 (imageData image) in
  let validation :=
    validateImageFile numberToString bytes (mimeType image)
                      defaultMaxSizeBytes in
  (valid validation = false ->
     processBatch_body userId image acc w
     = (Js.Normal (push_error acc
                     {| err_fileName := fileName image;
                        err_error := Js.str_or (error validation)
                                               "Invalid image" |}), w))
  /\ (forall o w1,
        valid validation = true ->
        processImageWithOcr bytes (language image) w = (Js.Normal o, w1) ->
        ocr_success o = false ->
        processBatch_body userId image acc w
        = (Js.Normal (push_error acc
                        {| err_fileName := fileName image;
                           err_error := Js.str_or (ocr_error o)
                                                  "OCR processing failed" |}),
           w1))
  /\ (forall o w1 t w2,
        valid validation = true ->
        processImageWithOcr bytes (language image) w = (Js.Normal o, w1) ->
        ocr_success o = true ->
        spec_upload_and_persist userId image bytes o w1 = (Js.Throw t, w2) ->
        processBatch_body userId image acc w
        = (Js.Normal (push_error acc
                        {| err_fileName := fileName image;
                           err_error := Js.message_or t "Unknown error" |}),
           w2)).
Proof.
  cbv zeta. rewrite processBatch_body_run. unfold spec_processItem. cbv zeta.
  split; [|split].
  - intros ->. reflexivity.
  - intros o w1 -> Ho Hs. unfold bind at 1. rewrite Ho, Hs. reflexivity.
  - intros o w1 t w2 -> Ho Hs Hu. unfold bind at 1. rewrite Ho, Hs.
    unfold try_catch, bind at 1. rewrite Hu. reflexivity.
Qed.

(** C2.  [processBatch] is the item-by-item reading of the specification:
    each image, in input order, gives exactly one entry, which carries the
    file name of that image and is either a result or an error
    [{fileName, error}]; [results] are the results among these entries and
    [errors] the errors, in that order.  An item that fails validation,
    whose recognition fails, or whose upload or persistence throws, pushes
    that one error and no result.  It does not stop the loop: the items
    after any prefix are processed from the state the prefix left, whatever
    the entries of the prefix were. *)
Theorem processBatch_isolates_items (userId : Z) (images : list ImageInput)
    (w : World) :
  processBatch userId images w = spec_processBatch userId images w
  /\ (exists entries w',
        spec_entries userId images w = (Js.Normal entries, w') /\
        List.length entries = List.length images /\
        Forall2 (fun image e => entry_fileName e = fileName image)
                images entries /\
        processBatch userId images w
        = (Js.Normal {| success := true;
                        results := successes entries;
                        errors := failures entries;
                        totalProcessed := List.length (successes entries);
                        totalFailed := List.length (failures entries) |}, w'))
  /\ (forall pre post, images = (pre ++ post)%list ->
        exists es1 w1 es2 w2,
          spec_entries userId pre w = (Js.Normal es1, w1) /\
          spec_entries userId post w1 = (Js.Normal es2, w2) /\
          spec_entries userId images w = (Js.Normal (es1 ++ es2)%list, w2))
  /\ (forall image acc w0,
        exists e w1,
          spec_processItem userId image w0 = (Js.Normal e, w1) /\
          entry_fileName e = fileName image /\
          processBatch_body userId image acc w0 = (Js.Normal (push acc e), w1))
  /\ (forall image acc w0,
        let bytes := Buffer_from_base64 (imageData image) in
        let validation :=
          validateImageFile numberToString bytes (mimeType image)
                            defaultMaxSizeBytes in
        (valid validation = false ->
           processBatch_body userId image acc w0
           = (Js.Normal (push_error acc
                           {| err_fileName := fileName image;
                              err_error := Js.str_or (error validation)
                                                     "Invalid image" |}), w0))
        /\ (forall o w1,
              valid validation = true ->
              processImageWithOcr bytes (language image) w0
                = (Js.Normal o, w1) ->
              ocr_success o = false ->
              processBatch_body userId image acc w0
              = (Js.Normal (push_error acc
                              {| err_fileName := fileName image;
                                 err_error := Js.str_or (ocr_error o)
                                                "OCR processing failed" |}),
                 w1))
        /\ (forall o w1 t w2,
              valid validation = true ->
              processImageWithOcr bytes (language image) w0
                = (Js.Normal o, w1) ->
              ocr_success o = true ->
              spec_upload_and_persist userId image bytes o w1
                = (Js.Throw t, w2) ->
              processBatch_body userId image acc w0
              = (Js.Normal (push_error acc
                              {| err_fileName := fileName image;
                                 err_error := Js.message_or t
                                                "Unknown error" |}),
                 w2))).
Proof.
  split; [apply processBatch_run|]. split; [|split; [|split]].
  - destruct (spec_entries_total userId images w) as (es & w' & Hes).
    exists es, w'. split; [exact Hes|].
    assert (Hshape : Forall2 (fun image e => entry_fileName e = fileName image)
                             images es)
      by (eapply spec_entries_shape; exact Hes).
    split; [symmetry; exact (Forall2_length Hshape)|].
    split; [exact Hshape|].
    rewrite processBatch_run. unfold spec_processBatch, bind.
    now rewrite Hes.
  - intros pre post ->.
    destruct (spec_entries_total userId pre w) as (es1 & w1 & H1).
    destruct (spec_entries_total userId post w1) as (es2 & w2 & H2).
    exists es1, w1, es2, w2. split; [exact H1|]. split; [exact H2|].
    rewrite spec_entries_app. unfold bind, ret. now rewrite H1, H2.
  - intros image acc w0.
    destruct (spec_processItem_total userId image w0) as (e & w1 & He).
    exists e, w1. split; [exact He|].
    split; [eapply spec_processItem_fileName; exact He|].
    rewrite processBatch_body_run. now rewrite He.
  - intros image acc w0. apply processBatch_body_failures.
Qed.

End BatchFacts.

(** ** Persistence that is not available *)

Section DegradedFacts.

Context {R : Runtime}.

(** C9, for the two ways a store can be unavailable.  The image is valid,
    recognised and uploaded.
    - When [getDb] yields no database, [saveOcrResult] returns [undefined]
      and does not throw, and no row is written.  The callers go on as after
      a successful save: [processImage] answers [success: true] with the
      extracted text, and the batch loop pushes the item on [results]; a
      batch of this one image reports [totalProcessed = 1] and no error.
    - When there is a database and the server rejects the insert,
      [saveOcrResult] rethrows what the driver threw and no row is written.
      The callers report it: [processImage] throws an [Error] with that
      message, and a batch of this one image has no result, one error for
      the file and [totalFailed = 1]. *)
Theorem unavailable_store_is_not_an_error (userId : Z) (image : ImageInput)
    (acc : Acc) (w w1 : World) (outcome : OcrOutcome) (token url : string)
    (x2 x3 : Ext) :
  let bytes := Buffer_from_base64 (imageData image) in
  let item := {| item_fileName := fileName image;
                 item_text := ocr_text outcome;
                 item_confidence := ocr_confidence outcome;
                 item_processingTimeMs := ocr_processingTimeMs outcome;
                 item_imageUrl := url;
                 item_success := true |} in
  valid (validateImageFile numberToString bytes (mimeType image)
                           defaultMaxSizeBytes) = true ->
  processImageWithOcr bytes (language image) w = (Js.Normal outcome, w1) ->
  ocr_success outcome = true ->
  nanoid (ext w1) = (token, x2) ->
  storagePut (fileKey userId token (fileName image)) bytes (mimeType image) x2
    = (Js.Normal url, x3) ->
  (forall w3,
     getDb (set_ext x3 w1) = (Js.Normal None, w3) ->
     saveOcrResult (insertOf userId image url outcome) (set_ext x3 w1)
       = (Js.Normal None, w3)
     /\ ocrResults w3 = ocrResults w1
     /\ processImage userId image w
        = (Js.Normal {| resp_success := true;
                        resp_text := ocr_text outcome;
                        resp_confidence := ocr_confidence outcome;
                        resp_processingTimeMs := ocr_processingTimeMs outcome;
                        resp_imageUrl := url |}, w3)
     /\ processBatch_body userId image acc w
        = (Js.Normal (push_result acc item), w3)
     /\ processBatch userId [image] w
        = (Js.Normal {| success := true; results := [item]; errors := [];
                        totalProcessed := 1; totalFailed := 0 |}, w3))
  /\ (forall d w3 e y,
        getDb (set_ext x3 w1) = (Js.Normal (Some d), w3) ->
        Database_execute d (InsertInto (insertOf userId image url outcome))
                         (ext w3) = (Some e, y) ->
        saveOcrResult (insertOf userId image url outcome) (set_ext x3 w1)
          = (Js.Throw e, set_ext y w3)
        /\ ocrResults (set_ext y w3) = ocrResults w1
        /\ processImage userId image w
           = (Js.Throw (Js.Error (Js.message_or e "Failed to process image")),
              set_ext y w3)
        /\ processBatch_body userId image acc w
           = (Js.Normal
                (push_error acc
                   {| err_fileName := fileName image;
                      err_error := Js.message_or e "Unknown error" |}),
              set_ext y w3)
        /\ processBatch userId [image] w
           = (Js.Normal
                {| success := true; results := [];
                   errors := [{| err_fileName := fileName image;
                                 err_error := Js.message_or e "Unknown error" |}];
                   totalProcessed := 0; totalFailed := 1 |},
              set_ext y w3)).
Proof.
  intros bytes item Hvalid Hocr Hsucc Htoken Hput.
  assert (Hbody : forall (acc0 : Acc) r w',
             saveOcrResult (insertOf userId image url outcome) (set_ext x3 w1)
               = (r, w') ->
             processBatch_body userId image acc0 w
             = (match r with
                | Js.Normal _ => Js.Normal (push_result acc0 item)
                | Js.Throw e =>
                    Js.Normal
                      (push_error acc0
                         {| err_fileName := fileName image;
                            err_error := Js.message_or e "Unknown error" |})
                end, w')).
  { intros acc0 r w' Hsave. unfold processBatch_body. cbv zeta. fold bytes.
    rewrite Hvalid. cbn [negb].
    unfold try_catch, bind at 1. rewrite Hocr, Hsucc. cbn [negb].
    unfold bind, draw, call, ret. rewrite Htoken. cbn [ext set_ext].
    rewrite Hput.
    change (set_ext x3 (set_ext x2 w1)) with (set_ext x3 w1).
    rewrite Hsave. now destruct r. }
  assert (Himage : forall r w',
             saveOcrResult (insertOf userId image url outcome) (set_ext x3 w1)
               = (r, w') ->
             processImage userId image w
             = (match r with
                | Js.Normal _ =>
                    Js.Normal
                      {| resp_success := true;
                         resp_text := ocr_text outcome;
                         resp_confidence := ocr_confidence outcome;
                         resp_processingTimeMs := ocr_processingTimeMs outcome;
                         resp_imageUrl := url |}
                | Js.Throw e =>
                    Js.Throw
                      (Js.Error (Js.message_or e "Failed to process image"))
                end, w')).
  { intros r w' Hsave. unfold processImage. cbv zeta. fold bytes.
    rewrite Hvalid. cbn [negb].
    unfold try_catch, bind at 1. rewrite Hocr, Hsucc. cbn [negb].
    unfold bind, draw, call, ret, throw. rewrite Htoken. cbn [ext set_ext].
    rewrite Hput. change (set_ext x3 (set_ext x2 w1)) with (set_ext x3 w1).
    rewrite Hsave. now destruct r. }
  split.
  - intros w3 Hdb.
    assert (Hsave : saveOcrResult (insertOf userId image url outcome)
                                  (set_ext x3 w1) = (Js.Normal None, w3)).
    { rewrite saveOcrResult_run. rewrite getDb_run in Hdb.
      destruct (connected (set_ext x3 w1)) as [o w0]. cbn [fst snd] in Hdb.
      now injection Hdb as -> ->. }
    split; [exact Hsave|]. split; [|split; [|split]].
    + rewrite getDb_run in Hdb. injection Hdb as _ <-.
      now rewrite connected_rows.
    + exact (Himage _ _ Hsave).
    + exact (Hbody acc _ _ Hsave).
    + unfold processBatch. cbn [processBatch_loop]. unfold bind, ret.
      rewrite (Hbody ([], []) _ _ Hsave). reflexivity.
  - intros d w3 e y Hdb Hreject.
    assert (Hsave : saveOcrResult (insertOf userId image url outcome)
                                  (set_ext x3 w1) = (Js.Throw e, set_ext y w3)).
    { rewrite saveOcrResult_run. rewrite getDb_run in Hdb.
      destruct (connected (set_ext x3 w1)) as [o w0]. cbn [fst snd] in Hdb.
      injection Hdb as -> ->. now rewrite Hreject. }
    split; [exact Hsave|]. split; [|split; [|split]].
    + rewrite getDb_run in Hdb. injection Hdb as _ <-.
      now rewrite (inner_rows y), connected_rows.
    + exact (Himage _ _ Hsave).
    + exact (Hbody acc _ _ Hsave).
    + unfold processBatch. cbn [processBatch_loop]. unfold bind, ret.
      rewrite (Hbody ([], []) _ _ Hsave). reflexivity.
Qed.

End DegradedFacts.

(** ** The theorems at work in the concrete runtime *)

Lemma deleteOcrResult_owner_only_witness :
  In (sample_row 2 8 "theirs.png")
     (ocrResults (snd (deleteOcrResult 2 7 two_users)))
  /\ In (sample_row 2 8 "theirs.png")
        (ocrResults (snd (deleteOcrResult 1 7 two_users)))
  /\ ocrResults (snd (deleteOcrResult 1 7 two_users))
     = [sample_row 2 8 "theirs.png"].
Proof.
  split; [|split].
  - apply (proj1 (deleteOcrResult_owner_only (R := Lab.runtime) 2 7 two_users)).
    + right. left. reflexivity.
    + cbn. discriminate.
  - apply (proj1 (deleteOcrResult_owner_only (R := Lab.runtime) 1 7 two_users)).
    + right. left. reflexivity.
    + cbn. discriminate.
  - reflexivity.
Defined.

Lemma deleteOcrResult_always_true_witness :
  fst (deleteOcrResult 2 7 two_users) = Js.Normal true
  /\ fst (deleteResult 7 2 two_users) = Js.Normal {| del_success := true |}
  /\ ocrResults (snd (deleteOcrResult 2 7 two_users)) = ocrResults two_users.
Proof.
  destruct (deleteOcrResult_always_true (R := Lab.runtime) 2 7 two_users
              (w1 := snd (getDb two_users)) (d := tt)
              (y := Lab.tick 2 (Lab.outside true true true))
              eq_refl eq_refl) as (Htrue & Hresp & Hsame).
  split; [exact Htrue|]. split; [exact Hresp|].
  apply Hsame. intros r [<- | [<- | []]]; cbn; intros H; discriminate.
Defined.

Lemma unavailable_store_is_not_an_error_witness :
  fst (processImage 7 (Lab.png "a.png" "abc") engine_up)
    = Js.Normal {| resp_success := true;
                   resp_text := "abcG";
                   resp_confidence := Js.ofZ 88;
                   resp_processingTimeMs := 15;
                   resp_imageUrl := first_url |}
  /\ fst (processBatch 7 [Lab.png "a.png" "abc"] engine_up)
     = Js.Normal {| success := true; results := [first_item]; errors := [];
                    totalProcessed := 1; totalFailed := 0 |}
  /\ ocrResults (snd (processBatch 7 [Lab.png "a.png" "abc"] engine_up)) = [].
Proof.
  destruct (unavailable_store_is_not_an_error (R := Lab.runtime)
              7 (Lab.png "a.png" "abc") ([], []) engine_up
              (w1 := snd (processImageWithOcr (list_byte_of_string "abc") "eng"
                            engine_up))
              (outcome := first_outcome) (token := "t0") (url := first_url)
              (x2 := snd (Lab.token
                            (ext (snd (processImageWithOcr (R := Lab.runtime)
                                         (list_byte_of_string "abc") "eng"
                                         engine_up)))))
              (x3 := ext (snd (processBatch (R := Lab.runtime) 7
                                 [Lab.png "a.png" "abc"] engine_up)))
              eq_refl eq_refl eq_refl eq_refl eq_refl)
    as (Hnone & _).
  destruct (Hnone (snd (processBatch 7 [Lab.png "a.png" "abc"] engine_up))
              eq_refl) as (_ & Hrows & Himage & _ & Hbatch).
  split; [now rewrite Himage|]. split; [now rewrite Hbatch|].
  reflexivity.
Defined.

(** C9, as the specification words it, fails.  This process holds a
    database handle and its server is down: [saveOcrResult] throws, and both
    endpoints report the failure. *)
Lemma unreachable_store_is_an_error :
  store_unavailable sample_insert down_connected
  /\ fst (saveOcrResult sample_insert down_connected)
     = Js.Throw (Js.Error "Connection lost")
  /\ fst (processImage 7 (Lab.png "a.png" "abc") database_down)
     = Js.Throw (Js.Error "Connection lost")
  /\ fst (processBatch 7 [Lab.png "a.png" "abc"] database_down)
     = Js.Normal {| success := true; results := [];
                    errors := [{| err_fileName := "a.png";
                                  err_error := "Connection lost" |}];
                    totalProcessed := 0; totalFailed := 1 |}
  /\ ~ unavailability_is_never_an_error.
Proof.
  assert (Hdown : store_unavailable sample_insert down_connected).
  { exists (Js.Error "Connection lost"), (Lab.tick 2 (ext down_connected)).
    reflexivity. }
  split; [exact Hdown|].
  split; [reflexivity|]. split; [reflexivity|]. split; [reflexivity|].
  intros H.
  destruct (H Lab.runtime sample_insert down_connected Hdown) as (w' & Hsave).
  discriminate Hsave.
Qed.

(** ** The confidence of a successful outcome *)

Section ConfidenceFacts.

Context {R : Runtime}.

(** C5.  When recognition returns [data], the outcome has [success = true],
    the text [data.text || ""], and as confidence [Math.round] of
    [(data.confidence || 0) * 100], the product taken in binary64.  With no
    confidence reported this is 0; with a confidence in [0, 1] it is an
    integer from 0 to 100.  Every outcome with [success = true] comes from
    such a result.  [Math.round] gives the integer [n] with
    [n - 1/2 <= v < n + 1/2].  0.0 gives 0 and 0.876 gives 88. *)
Theorem processImageWithOcr_confidence :
  (forall (imageBuffer : Buffer) (language : string) (w w1 w' : World)
          (optimizedBuffer : Buffer) (data : RecognizeData),
     optimizeImage imageBuffer w = (Js.Normal optimizedBuffer, w1) ->
     (worker <- getOcrWorker ;; recognize worker optimizedBuffer) w1
       = (Js.Normal data, w') ->
     exists o,
       processImageWithOcr imageBuffer language w = (Js.Normal o, w') /\
       ocr_success o = true /\
       ocr_text o = Js.str_or (data_text data) "" /\
       ocr_confidence o
         = Js.round (Js.mul (Js.num_or (data_confidence data) (Js.ofZ 0))
                            (Js.ofZ 100)) /\
       (data_confidence data = None -> ocr_confidence o = Js.ofZ 0) /\
       (forall c, data_confidence data = Some c -> in_unit_interval c ->
          exists n, 0 <= n <= 100 /\ ocr_confidence o = Js.ofZ n /\
                    Js.toZ (ocr_confidence o) = n))
  /\ (forall (imageBuffer : Buffer) (language : string) (w w' : World)
             (o : OcrOutcome),
        processImageWithOcr imageBuffer language w = (Js.Normal o, w') ->
        ocr_success o = true ->
        exists optimizedBuffer w1 data,
          optimizeImage imageBuffer w = (Js.Normal optimizedBuffer, w1) /\
          (worker <- getOcrWorker ;; recognize worker optimizedBuffer) w1
            = (Js.Normal data, w'))
  /\ (forall s m e, e < 0 ->
        Js.round (S754_finite s m e)
          = binary_normalize Js.prec Js.emax (Js.roundZ s m e) 0 s /\
        nearest_half_up (Js.roundZ s m e) s m e)
  /\ Js.round (Js.mul (Js.num_or (Some (Js.ofZ 0)) (Js.ofZ 0)) (Js.ofZ 100))
     = Js.ofZ 0
  /\ Js.round (Js.mul (Js.num_or (Some (Js.div (Js.ofZ 876) (Js.ofZ 1000)))
                                 (Js.ofZ 0)) (Js.ofZ 100))
     = Js.ofZ 88.
Proof.
  split; [|split; [|split; [|split]]].
  - intros imageBuffer language w w1 w' ob data Hopt Heng.
    rewrite optimizeImage_run in Hopt. injection Hopt as Hob Hw1.
    eexists. split.
    + rewrite processImageWithOcr_run, Hob, Hw1. unfold engine.
      rewrite Heng. reflexivity.
    + split; [reflexivity|]. split; [reflexivity|]. split; [reflexivity|].
      split.
      * cbn. intros ->. reflexivity.
      * cbn [recognized ocr_confidence]. unfold percent. intros c -> Hc.
        destruct (percent_in_range c Hc) as (n & Hn & Hround).
        exists n. rewrite Hround. split; [exact Hn|].
        split; [reflexivity | now apply ofZ_small].
  - intros imageBuffer language w w' o Hrun Hsucc.
    rewrite processImageWithOcr_run in Hrun.
    exists (fst (optimized imageBuffer w)), (snd (optimized imageBuffer w)).
    unfold engine in Hrun.
    destruct ((worker <- getOcrWorker ;;
               recognize worker (fst (optimized imageBuffer w)))
                (snd (optimized imageBuffer w))) as [[data|e] w2].
    + injection Hrun as _ <-. exists data.
      split; [apply optimizeImage_run | reflexivity].
    + injection Hrun as <- _. discriminate Hsucc.
  - intros s m e He. split.
    + rewrite round_finite.
      now replace (e <? 0) with true by (symmetry; apply Z.ltb_lt; lia).
    + now apply roundZ_half_up.
  - reflexivity.
  - vm_compute. reflexivity.
Qed.

End ConfidenceFacts.

Lemma processImageWithOcr_confidence_witness :
  exists o,
    processImageWithOcr (R := Lab.runtime) (list_byte_of_string "abc") "eng"
      engine_up = (Js.Normal o, engine_up_recognized)
    /\ ocr_success o = true
    /\ exists n, 0 <= n <= 100 /\ ocr_confidence o = Js.ofZ n.
Proof.
  destruct (proj1 (processImageWithOcr_confidence (R := Lab.runtime))
              (list_byte_of_string "abc") "eng" engine_up engine_up_optimized
              engine_up_recognized abc_optimized
              {| data_text := Some "abcG"; data_confidence := Some Lab.c876 |}
              eq_refl eq_refl)
    as (o & Hrun & Hsucc & _ & _ & _ & Hrange).
  exists o. split; [exact Hrun|]. split; [exact Hsucc|].
  destruct (Hrange Lab.c876 eq_refl (conj eq_refl (conj eq_refl eq_refl)))
    as (n & Hn & Hconf & _).
  exists n. split; [exact Hn | exact Hconf].
Defined.

Lemma processBatch_isolates_items_witness :
  fst (processBatch 7 sample_batch all_up)
  = Js.Normal
      {| success := true;
         results :=
           [{| item_fileName := "a.png"; item_text := "abcG";
               item_confidence := Js.ofZ 88; item_processingTimeMs := 15;
               item_imageUrl := "https://files.test/ocr/7/t0-a.png";
               item_success := true |};
            {| item_fileName := "d.png"; item_text := "abcdG";
               item_confidence := Js.ofZ 88; item_processingTimeMs := 10;
               item_imageUrl := "https://files.test/ocr/7/t1-d.png";
               item_success := true |}];
         errors :=
           [{| err_fileName := "b.pdf";
               err_error := "Unsupported image format. Allowed: image/jpeg, image/png, image/webp, image/tiff" |};
            {| err_fileName := "c.png"; err_error := "Image is unreadable" |}];
         totalProcessed := 2;
         totalFailed := 2 |}
  /\ exists es1 w1 es2 w2,
       spec_entries 7 (firstn 2 sample_batch) all_up = (Js.Normal es1, w1) /\
       spec_entries 7 (skipn 2 sample_batch) w1 = (Js.Normal es2, w2) /\
       spec_entries 7 sample_batch all_up = (Js.Normal (es1 ++ es2)%list, w2).
Proof.
  destruct (processBatch_isolates_items (R := Lab.runtime) 7 sample_batch all_up)
    as (Hspec & _ & Happ & _).
  split.
  - rewrite Hspec. reflexivity.
  - exact (Happ (firstn 2 sample_batch) (skipn 2 sample_batch) eq_refl).
Defined.

(** * Further properties *)

(** ** Validation messages *)

Section ValidationMessages.

Variable render : Js.number -> string.

(** X1.  A rejection always carries a message, and it is not empty: the size
    message or the format message.  So [validation.error || "Invalid image"]
    in the callers is the message of the validator; an accepted image has no
    error. *)
Theorem validateImageFile_rejection_has_message (buffer : Buffer)
    (mimeType : string) (maxSizeBytes : Js.number) (fallback : string) :
  let v := validateImageFile render buffer mimeType maxSizeBytes in
  (valid v = false ->
     exists msg,
       error v = Some msg /\ msg <> "" /\ Js.str_or (error v) fallback = msg /\
       (msg = "File size exceeds maximum of "
              ++ render (megabytes maxSizeBytes) ++ "MB"
        \/ msg = unsupported_message))
  /\ (valid v = true -> error v = None).
Proof.
  unfold validateImageFile, megabytes; cbv zeta.
  destruct (Js.gt (Buffer_length buffer) maxSizeBytes).
  - split; [|discriminate]. intros _. eexists.
    split; [reflexivity|]. split; [discriminate|]. split; [reflexivity|].
    left. reflexivity.
  - destruct (Js.includes allowedMimeTypes mimeType); cbn [negb valid error].
    + split; [discriminate | reflexivity].
    + split; [|discriminate]. intros _. eexists.
      split; [reflexivity|]. split; [discriminate|]. split; [reflexivity|].
      right. reflexivity.
Qed.

End ValidationMessages.

Lemma validateImageFile_rejection_has_message_witness :
  exists msg,
    error (validateImageFile Lab.showNumber ["a"%byte] "video/mp4"
             defaultMaxSizeBytes) = Some msg /\
    msg <> "" /\
    Js.str_or (error (validateImageFile Lab.showNumber ["a"%byte] "video/mp4"
                        defaultMaxSizeBytes)) "Invalid image" = msg.
Proof.
  destruct (proj1 (validateImageFile_rejection_has_message Lab.showNumber
                     ["a"%byte] "video/mp4" defaultMaxSizeBytes
                     "Invalid image") eq_refl)
    as (msg & He & Hne & Hor & _).
  exists msg. split; [exact He|]. split; [exact Hne | exact Hor].
Defined.

(** ** processImageWithOcr *)

Section OcrOutcomes.

Context {R : Runtime}.

(** X2.  [processImageWithOcr] never throws, whatever sharp and the engine
    do.  The outcome carries the language it was given and, as
    [processingTimeMs], the clock at the return minus the clock at the call.
    A success has no error; a failure has empty text, confidence 0 and an
    error.  The database handle, its URL and the table are left alone. *)
Theorem processImageWithOcr_outcome (imageBuffer : Buffer) (language : string)
    (w : World) :
  exists o w',
    processImageWithOcr imageBuffer language w = (Js.Normal o, w') /\
    ocr_language o = language /\
    ocr_processingTimeMs o = Date_now (ext w') - Date_now (ext w) /\
    (ocr_success o = true -> ocr_error o = None) /\
    (ocr_success o = false ->
       ocr_text o = "" /\ ocr_confidence o = Js.ofZ 0 /\
       exists m, ocr_error o = Some m) /\
    db_ w' = db_ w /\ DATABASE_URL w' = DATABASE_URL w /\
    ocrResults w' = ocrResults w /\
    ocrResults_nextId w' = ocrResults_nextId w.
Proof.
  pose proof (keeps_processImageWithOcr (field := db_) imageBuffer language
                inner_db (fun _ _ => eq_refl) (fun _ => eq_refl) w) as Hdb.
  pose proof (keeps_processImageWithOcr (field := DATABASE_URL) imageBuffer
                language inner_url (fun _ _ => eq_refl) (fun _ => eq_refl) w)
    as Hurl.
  pose proof (keeps_processImageWithOcr (field := ocrResults) imageBuffer
                language inner_rows (fun _ _ => eq_refl) (fun _ => eq_refl) w)
    as Hrows.
  pose proof (keeps_processImageWithOcr (field := ocrResults_nextId)
                imageBuffer language inner_nextId (fun _ _ => eq_refl)
                (fun _ => eq_refl) w) as Hnext.
  rewrite processImageWithOcr_run in *.
  destruct (engine (fst (optimized imageBuffer w))
              (snd (optimized imageBuffer w))) as [[data|e] w2];
    cbn [snd] in *; eexists _, _; (split; [reflexivity|]); cbn;
    repeat split; auto; try discriminate.
  eexists. reflexivity.
Qed.

(** X3.  The language argument reaches the [language] field of the outcome
    and nothing else: with another language the same calls are made (the
    worker is the one created for "eng"), the state ends the same and the
    outcome differs in that field only. *)
Theorem processImageWithOcr_language_is_a_label (imageBuffer : Buffer)
    (language other : string) (w : World) :
  exists o w',
    processImageWithOcr imageBuffer language w = (Js.Normal o, w') /\
    processImageWithOcr imageBuffer other w
      = (Js.Normal (with_language other o), w').
Proof.
  rewrite !processImageWithOcr_run.
  destruct (engine (fst (optimized imageBuffer w))
              (snd (optimized imageBuffer w))) as [[data|e] w2];
    eexists _, _; split; reflexivity.
Qed.

End OcrOutcomes.

(** ** What upload and persistence do to the table *)

Section PersistFacts.

Context {R : Runtime}.

Lemma connected_ready (w : World) (d : Database) :
  db_ w = Some d -> connected w = (Some d, w).
Proof. unfold connected. now intros ->. Qed.

Lemma connected_nextId (w : World) :
  ocrResults_nextId (snd (connected w)) = ocrResults_nextId w.
Proof.
  unfold connected.
  destruct (db_ w), (DATABASE_URL w) as [[|c u]|]; try reflexivity.
  now destruct (drizzle (String c u) (ext w)) as [[d|e] y].
Qed.

(** upload and persistence, call by call *)
Lemma spec_upload_and_persist_run (userId : Z) (image : ImageInput)
    (bytes : Buffer) (o : OcrOutcome) (w1 : World) :
  spec_upload_and_persist userId image bytes o w1
  = match storagePut (fileKey userId (fst (nanoid (ext w1))) (fileName image))
            bytes (mimeType image) (snd (nanoid (ext w1))) with
    | (Js.Throw e, x3) => (Js.Throw e, set_ext x3 w1)
    | (Js.Normal url, x3) =>
        match connected (set_ext x3 w1) with
        | (None, w2) => (Js.Normal url, w2)
        | (Some d, w2) =>
            match Database_execute d (InsertInto (insertOf userId image url o))
                    (ext w2) with
            | (Some e, y) => (Js.Throw e, set_ext y w2)
            | (None, y) =>
                (Js.Normal url,
                 apply_statement (InsertInto (insertOf userId image url o))
                                 (set_ext y w2))
            end
        end
    end.
Proof.
  unfold spec_upload_and_persist, bind, draw, call, ret.
  destruct (nanoid (ext w1)) as [token x2]. cbn [fst snd ext set_ext].
  destruct (storagePut _ _ _ x2) as [[url|e] x3]; [|reflexivity].
  change (set_ext x3 (set_ext x2 w1)) with (set_ext x3 w1).
  rewrite saveOcrResult_run.
  destruct (connected (set_ext x3 w1)) as [[d|] w2]; [|reflexivity].
  now destruct (Database_execute d _ (ext w2)) as [[e|] y].
Qed.

(** A throw of upload or persistence writes no row; a normal end writes no
    row or the row of this image, at the end of the table. *)
Lemma spec_upload_and_persist_rows (userId : Z) (image : ImageInput)
    (bytes : Buffer) (o : OcrOutcome) (w1 : World) :
  match spec_upload_and_persist userId image bytes o w1 with
  | (Js.Throw _, w2) => ocrResults w2 = ocrResults w1
  | (Js.Normal url, w2) =>
      ocrResults w2 = ocrResults w1 \/
      exists t,
        ocrResults w2
        = (ocrResults w1
           ++ [new_row (ocrResults_nextId w1) t (insertOf userId image url o)])%list
  end.
Proof.
  rewrite spec_upload_and_persist_run.
  destruct (storagePut _ _ _ _) as [[url|e] x3]; [|reflexivity].
  pose proof (connected_rows (set_ext x3 w1)) as Hrows.
  pose proof (connected_nextId (set_ext x3 w1)) as Hnext.
  destruct (connected (set_ext x3 w1)) as [[d|] w2]; cbn [snd] in Hrows, Hnext;
    [|now left].
  destruct (Database_execute d _ (ext w2)) as [[e|] y]; [exact Hrows|].
  right. cbn. rewrite Hrows, Hnext. eexists. reflexivity.
Qed.


Lemma new_row_of_item (userId : Z) (image : ImageInput) (url : string)
    (o : OcrOutcome) (id t : Z) :
  row_of_item userId (new_row id t (insertOf userId image url o))
    {| item_fileName := fileName image;
       item_text := ocr_text o;
       item_confidence := ocr_confidence o;
       item_processingTimeMs := ocr_processingTimeMs o;
       item_imageUrl := url;
       item_success := true |}.
Proof. repeat split. Qed.

End PersistFacts.

(** ** processImage *)

Section SingleImage.

Context {R : Runtime}.

(** the message of a rejection, whatever the fallback of the caller *)
Lemma rejection_message (render : Js.number -> string) (buffer : Buffer)
    (mimeType : string) (maxSizeBytes : Js.number) :
  valid (validateImageFile render buffer mimeType maxSizeBytes) = false ->
  exists msg,
    error (validateImageFile render buffer mimeType maxSizeBytes) = Some msg /\
    forall fallback,
      Js.str_or (error (validateImageFile render buffer mimeType maxSizeBytes))
                fallback = msg.
Proof.
  unfold validateImageFile.
  destruct (Js.gt (Buffer_length buffer) maxSizeBytes);
    [intros _; eexists; split; reflexivity|].
  destruct (Js.includes allowedMimeTypes mimeType); cbn [negb valid error];
    [discriminate | intros _; eexists; split; reflexivity].
Qed.

(** [processImage], stage by stage *)
Lemma processImage_run (userId : Z) (input : ImageInput) (w : World) :
  processImage userId input w
  = if valid (validateImageFile numberToString
                (Buffer_from_base64 (imageData input)) (mimeType input)
                defaultMaxSizeBytes)
    then
      match processImageWithOcr (Buffer_from_base64 (imageData input))
              (language input) w with
      | (Js.Normal o, w1) =>
          if ocr_success o then
            match spec_upload_and_persist userId input
                    (Buffer_from_base64 (imageData input)) o w1 with
            | (Js.Normal url, w2) =>
                (Js.Normal {| resp_success := true;
                              resp_text := ocr_text o;
                              resp_confidence := ocr_confidence o;
                              resp_processingTimeMs := ocr_processingTimeMs o;
                              resp_imageUrl := url |}, w2)
            | (Js.Throw t, w2) =>
                (Js.Throw (Js.Error (Js.message_or t "Failed to process image")),
                 w2)
            end
          else
            (Js.Throw (Js.Error (Js.str_or (ocr_error o)
                                           "OCR processing failed")), w1)
      | (Js.Throw t, w1) =>
          (Js.Throw (Js.Error (Js.message_or t "Failed to process image")), w1)
      end
    else
      (Js.Throw
         (Js.Error
            (Js.str_or
               (error (validateImageFile numberToString
                         (Buffer_from_base64 (imageData input))
                         (mimeType input) defaultMaxSizeBytes))
               "Invalid image")), w).
Proof.
  unfold processImage. cbv zeta.
  destruct (valid _); cbn [negb]; [|reflexivity].
  unfold try_catch at 1. unfold bind at 1.
  destruct (processImageWithOcr _ _ w) as [[o|t] w1]; [|reflexivity].
  destruct (ocr_success o); cbn [negb]; [|reflexivity].
  unfold spec_upload_and_persist, bind, draw, call, ret, throw.
  destruct (nanoid (ext w1)) as [token x2]. cbn [ext set_ext].
  destruct (storagePut _ _ _ x2) as [[url|e] x3]; [|reflexivity].
  destruct (saveOcrResult _ _) as [[s|e] w3]; reflexivity.
Qed.

(** [spec_processItem], stage by stage *)
Lemma spec_processItem_run (userId : Z) (image : ImageInput) (w : World) :
  spec_processItem userId image w
  = if valid (validateImageFile numberToString
                (Buffer_from_base64 (imageData image)) (mimeType image)
                defaultMaxSizeBytes)
    then
      match processImageWithOcr (Buffer_from_base64 (imageData image))
              (language image) w with
      | (Js.Normal o, w1) =>
          if ocr_success o then
            match spec_upload_and_persist userId image
                    (Buffer_from_base64 (imageData image)) o w1 with
            | (Js.Normal url, w2) =>
                (Js.Normal
                   (inl {| item_fileName := fileName image;
                           item_text := ocr_text o;
                           item_confidence := ocr_confidence o;
                           item_processingTimeMs := ocr_processingTimeMs o;
                           item_imageUrl := url;
                           item_success := true |}), w2)
            | (Js.Throw t, w2) =>
                (Js.Normal
                   (inr {| err_fileName := fileName image;
                           err_error := Js.message_or t "Unknown error" |}),
                 w2)
            end
          else
            (Js.Normal
               (inr {| err_fileName := fileName image;
                       err_error := Js.str_or (ocr_error o)
                                              "OCR processing failed" |}), w1)
      | (Js.Throw t, w1) => (Js.Throw t, w1)
      end
    else
      (Js.Normal
         (inr {| err_fileName := fileName image;
                 err_error :=
                   Js.str_or
                     (error (validateImageFile numberToString
                               (Buffer_from_base64 (imageData image))
                               (mimeType image) defaultMaxSizeBytes))
                     "Invalid image" |}), w).
Proof.
  unfold spec_processItem. cbv zeta.
  destruct (valid _); [|reflexivity].
  unfold bind at 1.
  destruct (processImageWithOcr _ _ w) as [[o|t] w1]; [|reflexivity].
  destruct (ocr_success o); [|reflexivity].
  unfold try_catch, bind at 1, ret.
  destruct (spec_upload_and_persist _ _ _ _ w1) as [[url|t] w2]; reflexivity.
Qed.

(** X4.  An image that fails validation makes [processImage] throw an
    [Error] with the message of the validator, before anything else is
    done: the state of the process is unchanged. *)
Theorem processImage_rejects_before_any_work (userId : Z) (input : ImageInput)
    (w : World) :
  valid (validateImageFile numberToString
           (Buffer_from_base64 (imageData input)) (mimeType input)
           defaultMaxSizeBytes) = false ->
  exists msg,
    error (validateImageFile numberToString
             (Buffer_from_base64 (imageData input)) (mimeType input)
             defaultMaxSizeBytes) = Some msg /\
    processImage userId input w = (Js.Throw (Js.Error msg), w).
Proof.
  intros Hbad. destruct (rejection_message _ _ _ _ Hbad) as (msg & He & Hor).
  exists msg. split; [exact He|].
  rewrite processImage_run, Hbad, Hor. reflexivity.
Qed.

(** X5.  After validation, [processImage] throws an [Error] in three cases
    and returns [success: true] otherwise.  A failed recognition throws its
    error message ("OCR processing failed" when that is empty); when the
    engine cannot be created the message is "Failed to initialize OCR
    worker".  A throw of the upload or of the insert is rethrown with its
    message ("Failed to process image" when it is not an [Error]), and then
    no row has been written. *)
Theorem processImage_failures (userId : Z) (input : ImageInput) (w : World) :
  let bytes := Buffer_from_base64 (imageData input) in
  valid (validateImageFile numberToString bytes (mimeType input)
           defaultMaxSizeBytes) = true ->
  (forall o w1,
     processImageWithOcr bytes (language input) w = (Js.Normal o, w1) ->
     ocr_success o = false ->
     processImage userId input w
     = (Js.Throw (Js.Error (Js.str_or (ocr_error o) "OCR processing failed")),
        w1))
  /\ (forall optimizedBuffer w1 e y,
        optimizeImage bytes w = (Js.Normal optimizedBuffer, w1) ->
        ocrWorker w = None ->
        createWorker "eng" (ext w1) = (Js.Throw e, y) ->
        processImage userId input w
        = (Js.Throw (Js.Error "Failed to initialize OCR worker"),
           set_ext y (count_worker w1)))
  /\ (forall o w1 t w2,
        processImageWithOcr bytes (language input) w = (Js.Normal o, w1) ->
        ocr_success o = true ->
        spec_upload_and_persist userId input bytes o w1 = (Js.Throw t, w2) ->
        processImage userId input w
        = (Js.Throw (Js.Error (Js.message_or t "Failed to process image")), w2)
        /\ ocrResults w2 = ocrResults w)
  /\ (forall r w', processImage userId input w = (Js.Normal r, w') ->
        resp_success r = true)
  /\ (forall t w', processImage userId input w = (Js.Throw t, w') ->
        exists m, t = Js.Error m).
Proof.
  intros bytes Hvalid. subst bytes.
  split; [|split; [|split; [|split]]].
  - intros o w1 Ho Hs. rewrite processImage_run, Hvalid, Ho, Hs. reflexivity.
  - intros ob w1 e y Hopt Hnull Hcreate.
    rewrite processImage_run, Hvalid, processImageWithOcr_run.
    rewrite optimizeImage_run in Hopt. injection Hopt as Hob Hw1.
    rewrite Hob, Hw1.
    assert (Hnull1 : ocrWorker w1 = None).
    { rewrite <- Hw1, <- Hnull.
      pose proof (keeps_optimizeImage (field := ocrWorker)
                    (Buffer_from_base64 (imageData input)) inner_ocrWorker w)
        as Hk.
      rewrite optimizeImage_run in Hk. exact Hk. }
    unfold engine, bind. rewrite (getOcrWorker_fresh _ Hnull1).
    unfold constructed. rewrite Hcreate. reflexivity.
  - intros o w1 t w2 Ho Hs Hup.
    split; [rewrite processImage_run, Hvalid, Ho, Hs, Hup; reflexivity|].
    pose proof (spec_upload_and_persist_rows userId input
                  (Buffer_from_base64 (imageData input)) o w1) as Hrows.
    rewrite Hup in Hrows. rewrite Hrows.
    pose proof (keeps_processImageWithOcr (field := ocrResults)
                  (Buffer_from_base64 (imageData input)) (language input)
                  inner_rows (fun _ _ => eq_refl) (fun _ => eq_refl) w) as Hk.
    rewrite Ho in Hk. exact Hk.
  - intros r w'. rewrite processImage_run, Hvalid.
    destruct (processImageWithOcr _ _ w) as [[o|t] w1]; [|discriminate].
    destruct (ocr_success o); [|discriminate].
    destruct (spec_upload_and_persist _ _ _ _ w1) as [[url|t] w2];
      [|discriminate].
    now intros [= <- _].
  - intros t w'. rewrite processImage_run, Hvalid.
    destruct (processImageWithOcr _ _ w) as [[o|t0] w1].
    + destruct (ocr_success o).
      * destruct (spec_upload_and_persist _ _ _ _ w1) as [[url|t1] w2];
          [discriminate|].
        intros [= <- _]. eexists. reflexivity.
      * intros [= <- _]. eexists. reflexivity.
    + intros [= <- _]. eexists. reflexivity.
Qed.

End SingleImage.

Lemma processImage_rejects_before_any_work_witness :
  processImage 7 (Lab.pdf "b.pdf" "x") all_up
  = (Js.Throw (Js.Error unsupported_message), all_up).
Proof.
  destruct (processImage_rejects_before_any_work (R := Lab.runtime) 7
              (Lab.pdf "b.pdf" "x") all_up eq_refl) as (msg & He & Hrun).
  injection He as <-. exact Hrun.
Defined.

Lemma processImage_failures_witness :
  fst (processImage 7 (Lab.png "c.png" "!bad") all_up)
    = Js.Throw (Js.Error "Image is unreadable")
  /\ fst (processImage 7 (Lab.png "a.png" "abc") engine_down)
     = Js.Throw (Js.Error "Failed to initialize OCR worker")
  /\ fst (processImage 7 (Lab.png "a.png" "abc") storage_down)
     = Js.Throw (Js.Error "Storage upload failed")
  /\ ocrResults (snd (processImage 7 (Lab.png "a.png" "abc") database_down))
     = [].
Proof.
  destruct (processImage_failures (R := Lab.runtime) 7 (Lab.png "c.png" "!bad")
              all_up eq_refl) as (Hocr & _).
  destruct (processImage_failures (R := Lab.runtime) 7 (Lab.png "a.png" "abc")
              engine_down eq_refl) as (_ & Hinit & _).
  destruct (processImage_failures (R := Lab.runtime) 7 (Lab.png "a.png" "abc")
              storage_down eq_refl) as (_ & _ & Hput & _).
  destruct (processImage_failures (R := Lab.runtime) 7 (Lab.png "a.png" "abc")
              database_down eq_refl) as (_ & _ & Hsave & _).
  split; [|split; [|split]].
  - rewrite (Hocr _ _ eq_refl eq_refl). reflexivity.
  - rewrite (Hinit _ _ (Js.NonError "worker script failed to load") _
               eq_refl eq_refl eq_refl).
    reflexivity.
  - rewrite (proj1 (Hput _ _ (Js.Error "Storage upload failed") _
                      eq_refl eq_refl eq_refl)).
    reflexivity.
  - rewrite (proj1 (Hsave _ _ (Js.Error "Connection lost") _
                      eq_refl eq_refl eq_refl)).
    reflexivity.
Defined.

(** ** One image: processImage and a batch of one *)

Section SingleAndBatch.

Context {R : Runtime}.

Lemma spec_entries_single (userId : Z) (image : ImageInput) (w : World) :
  spec_entries userId [image] w
  = match spec_processItem userId image w with
    | (Js.Normal e, w') => (Js.Normal [e], w')
    | (Js.Throw t, w') => (Js.Throw t, w')
    end.
Proof.
  cbn [spec_entries]. unfold bind, ret.
  now destruct (spec_processItem userId image w) as [[e|t] w'].
Qed.

(** X6.  On one image the two endpoints agree.  When [processImage] returns,
    a batch of this image has one result with the same text, confidence, time
    and URL, and no error.  When it throws, the batch has no result and one
    error for this file, with the same message; the messages differ only
    when upload or insert threw something that is not an [Error]
    ("Failed to process image" against "Unknown error").  The process ends
    in the same state. *)
Theorem single_and_batch_agree (userId : Z) (image : ImageInput) (w : World) :
  match processImage userId image w with
  | (Js.Normal r, w') =>
      exists item,
        r = response_of item /\ item_fileName item = fileName image /\
        processBatch userId [image] w
        = (Js.Normal {| success := true; results := [item]; errors := [];
                        totalProcessed := 1; totalFailed := 0 |}, w')
  | (Js.Throw t, w') =>
      exists m m',
        t = Js.Error m /\
        processBatch userId [image] w
        = (Js.Normal {| success := true; results := [];
                        errors := [{| err_fileName := fileName image;
                                      err_error := m' |}];
                        totalProcessed := 0; totalFailed := 1 |}, w') /\
        (m' = m \/ (m = "Failed to process image" /\ m' = "Unknown error"))
  end.
Proof.
  rewrite processBatch_run. unfold spec_processBatch, bind, ret.
  rewrite spec_entries_single, spec_processItem_run, processImage_run.
  destruct (valid _).
  - destruct (total_processImageWithOcr
                (Buffer_from_base64 (imageData image)) (language image) w)
      as (o & w1 & Ho).
    rewrite Ho. destruct (ocr_success o).
    + destruct (spec_upload_and_persist _ _ _ _ w1) as [[url|t] w2].
      * exists {| item_fileName := fileName image;
                  item_text := ocr_text o;
                  item_confidence := ocr_confidence o;
                  item_processingTimeMs := ocr_processingTimeMs o;
                  item_imageUrl := url;
                  item_success := true |}.
        split; [|split]; reflexivity.
      * eexists _, _. split; [reflexivity|]. split; [reflexivity|].
        destruct t as [m|v]; cbn; auto.
    + eexists _, _. split; [reflexivity|]. split; [reflexivity|]. now left.
  - eexists _, _. split; [reflexivity|]. split; [reflexivity|]. now left.
Qed.

End SingleAndBatch.

(** ** What the endpoints write *)

Section Written.

Context {R : Runtime}.

Lemma processImageWithOcr_rows (buf : Buffer) (lang : string) (w w1 : World)
    (o : OcrOutcome) :
  processImageWithOcr buf lang w = (Js.Normal o, w1) ->
  ocrResults w1 = ocrResults w /\ db_ w1 = db_ w.
Proof.
  intros Ho.
  pose proof (keeps_processImageWithOcr (field := ocrResults) buf lang
                inner_rows (fun _ _ => eq_refl) (fun _ => eq_refl) w) as Hk.
  pose proof (keeps_processImageWithOcr (field := db_) buf lang
                inner_db (fun _ _ => eq_refl) (fun _ => eq_refl) w) as Hd.
  rewrite Ho in Hk, Hd. now split.
Qed.

(** An item leaves the table as it was, or is a result and has added its row. *)
Lemma spec_processItem_rows (userId : Z) (image : ImageInput) (w w' : World)
    (e : BatchEntry) :
  spec_processItem userId image w = (Js.Normal e, w') ->
  ocrResults w' = ocrResults w \/
  exists item row,
    e = inl item /\ ocrResults w' = (ocrResults w ++ [row])%list /\
    row_of_item userId row item.
Proof.
  rewrite spec_processItem_run.
  destruct (valid _); [|intros [= _ <-]; now left].
  destruct (processImageWithOcr _ _ w) as [[o|t] w1] eqn:Ho; [|discriminate].
  destruct (processImageWithOcr_rows _ _ _ Ho) as [Hrows _].
  destruct (ocr_success o); [|intros [= _ <-]; now left].
  pose proof (spec_upload_and_persist_rows userId image
                (Buffer_from_base64 (imageData image)) o w1) as Hup.
  destruct (spec_upload_and_persist _ _ _ _ w1) as [[url|t] w2].
  - intros [= <- <-]. destruct Hup as [Hsame | [t Hadd]].
    + left. congruence.
    + right. eexists _, _. split; [reflexivity|].
      split; [rewrite Hadd, Hrows; reflexivity|]. apply new_row_of_item.
  - intros [= _ <-]. left. congruence.
Qed.


Lemma spec_entries_rows (userId : Z) (images : list ImageInput) :
  forall (w w' : World) (es : list BatchEntry),
    spec_entries userId images w = (Js.Normal es, w') ->
    exists added,
      ocrResults w' = (ocrResults w ++ added)%list /\
      (List.length added <= List.length (successes es))%nat /\
      Forall (fun row => exists item, In item (successes es) /\
                                      row_of_item userId row item) added.
Proof.
  induction images as [|image rest IH]; intros w w' es; cbn [spec_entries].
  - intros [= <- <-]. exists []. rewrite app_nil_r. cbn. auto.
  - unfold bind at 1.
    destruct (spec_processItem userId image w) as [[e|t] w1] eqn:He;
      [|discriminate].
    unfold bind at 1.
    destruct (spec_entries userId rest w1) as [[es1|t] w2] eqn:Hes;
      [|discriminate].
    intros [= <- <-].
    destruct (IH _ _ _ Hes) as (added & Hrows & Hlen & Hall).
    assert (Hweak : Forall (fun row => exists item,
                              In item (successes (e :: es1)) /\
                              row_of_item userId row item) added).
    { eapply Forall_impl; [|exact Hall]. intros row (item & Hin & Hrow).
      exists item. split; [|exact Hrow]. destruct e; cbn; auto. }
    destruct (spec_processItem_rows _ _ _ He)
      as [Hsame | (item & row & -> & Hadd & Hrow)].
    + exists added. rewrite Hrows, Hsame. split; [reflexivity|].
      split; [destruct e; cbn; lia | exact Hweak].
    + exists (row :: added). rewrite Hrows, Hadd, <- app_assoc.
      split; [reflexivity|]. split; [cbn; lia|].
      constructor; [|exact Hweak]. exists item. split; [now left | exact Hrow].
Qed.


(** what [processImage] leaves in the table *)
Lemma processImage_rows (userId : Z) (input : ImageInput) (w : World) :
  match processImage userId input w with
  | (Js.Normal r, w') =>
      ocrResults w' = ocrResults w \/
      exists row,
        ocrResults w' = (ocrResults w ++ [row])%list /\
        row_userId row = userId /\
        row_imageFileName row = fileName input /\
        row_extractedText row = resp_text r /\
        row_imageUrl row = resp_imageUrl r
  | (Js.Throw _, w') => ocrResults w' = ocrResults w
  end.
Proof.
  rewrite processImage_run.
  destruct (valid _); [|reflexivity].
  destruct (processImageWithOcr _ _ w) as [[o|t] w1] eqn:Ho.
  - destruct (processImageWithOcr_rows _ _ _ Ho) as [Hrows _].
    destruct (ocr_success o); [|exact Hrows].
    pose proof (spec_upload_and_persist_rows userId input
                  (Buffer_from_base64 (imageData input)) o w1) as Hup.
    destruct (spec_upload_and_persist _ _ _ _ w1) as [[url|t] w2].
    + destruct Hup as [Hsame | [t Hadd]]; [left; congruence|].
      right. eexists. split; [rewrite Hadd, Hrows; reflexivity|].
      cbn. auto.
    + congruence.
  - destruct (total_processImageWithOcr
                (Buffer_from_base64 (imageData input)) (language input) w)
      as (o & w2 & Ho2).
    congruence.
Qed.



End Written.


(** ** deleteResult and deleteOcrResult *)

Section DeleteFacts.

Context {R : Runtime}.

(** X9.  The endpoint does not look at what [deleteOcrResult] returns.
    Without a database [deleteOcrResult] returns [false] and removes
    nothing, and [deleteResult] still answers [{success: true}].  When the
    server rejects the statement, [deleteOcrResult] rethrows what the driver
    threw, [deleteResult] throws "Failed to delete OCR result" whatever the
    cause was, and no row is removed. *)
Theorem deleteResult_answers (userId id : Z) (w : World) :
  (forall w1,
     getDb w = (Js.Normal None, w1) ->
     deleteOcrResult id userId w = (Js.Normal false, w1) /\
     deleteResult userId id w = (Js.Normal {| del_success := true |}, w1) /\
     ocrResults w1 = ocrResults w)
  /\ (forall d w1 e y,
        getDb w = (Js.Normal (Some d), w1) ->
        Database_execute d (DeleteWhere id userId) (ext w1) = (Some e, y) ->
        deleteOcrResult id userId w = (Js.Throw e, set_ext y w1) /\
        deleteResult userId id w
        = (Js.Throw (Js.Error "Failed to delete OCR result"), set_ext y w1) /\
        ocrResults (set_ext y w1) = ocrResults w).
Proof.
  pose proof (connected_rows w) as Hrows.
  split.
  - intros w1 Hdb. rewrite getDb_run in Hdb.
    assert (Hrun : deleteOcrResult id userId w = (Js.Normal false, w1)).
    { rewrite deleteOcrResult_run. destruct (connected w) as [o w0].
      cbn [fst snd] in Hdb. now injection Hdb as -> ->. }
    split; [exact Hrun|]. split.
    + unfold deleteResult, try_catch, bind. now rewrite Hrun.
    + injection Hdb as _ <-. exact Hrows.
  - intros d w1 e y Hdb Hex. rewrite getDb_run in Hdb.
    assert (Hrun : deleteOcrResult id userId w = (Js.Throw e, set_ext y w1)).
    { rewrite deleteOcrResult_run. destruct (connected w) as [o w0].
      cbn [fst snd] in Hdb. injection Hdb as -> ->. now rewrite Hex. }
    split; [exact Hrun|]. split.
    + unfold deleteResult, try_catch, bind. now rewrite Hrun.
    + injection Hdb as _ <-. exact Hrows.
Qed.

(** X10.  After a delete the server accepted, the table holds the rows that
    do not have this id and this user, in their old order: none with this id
    and user is left.  A second delete of the same id by the same user is
    accepted or not, it changes no row. *)
Theorem deleteOcrResult_removes_and_is_idempotent (id userId : Z)
    (w w1 : World) (d : Database) (y : Ext) :
  getDb w = (Js.Normal (Some d), w1) ->
  Database_execute d (DeleteWhere id userId) (ext w1) = (None, y) ->
  ocrResults (snd (deleteOcrResult id userId w))
    = filter (fun r => negb (matches id userId r)) (ocrResults w)
  /\ (forall r, In r (ocrResults (snd (deleteOcrResult id userId w))) ->
        ~ (row_id r = id /\ row_userId r = userId))
  /\ ocrResults (snd (deleteOcrResult id userId
                        (snd (deleteOcrResult id userId w))))
     = ocrResults (snd (deleteOcrResult id userId w)).
Proof.
  intros Hdb Hex. rewrite getDb_run in Hdb.
  assert (Hrows : ocrResults (snd (deleteOcrResult id userId w))
                  = filter (fun r => negb (matches id userId r)) (ocrResults w)).
  { rewrite deleteOcrResult_run. pose proof (connected_rows w) as Hc.
    destruct (connected w) as [o w0]. cbn [fst snd] in Hdb, Hc.
    injection Hdb as -> ->. rewrite Hex. cbn. now rewrite Hc. }
  split; [exact Hrows|]. split.
  - intros r Hin [Hi Hu]. rewrite Hrows in Hin.
    apply filter_In in Hin as [_ Hm]. unfold matches in Hm.
    apply Z.eqb_eq in Hi, Hu. rewrite Hi, Hu in Hm. discriminate Hm.
  - destruct (deleteOcrResult_rows id userId
                (snd (deleteOcrResult id userId w))) as [-> | ->];
      [reflexivity|].
    rewrite Hrows. clear. induction (ocrResults w) as [|r rows IH];
      [reflexivity|].
    cbn [filter]. destruct (negb (matches id userId r)) eqn:Hm.
    + cbn [filter]. rewrite Hm. now rewrite IH.
    + exact IH.
Qed.

End DeleteFacts.

Lemma deleteResult_answers_witness :
  deleteResult 7 1 (set_table (ocrResults two_users) 3 engine_up)
    = (Js.Normal {| del_success := true |},
       set_table (ocrResults two_users) 3 engine_up)
  /\ fst (deleteResult 7 1
            (set_table (ocrResults two_users) 3 database_down))
     = Js.Throw (Js.Error "Failed to delete OCR result").
Proof.
  destruct (deleteResult_answers (R := Lab.runtime) 7 1
              (set_table (ocrResults two_users) 3 engine_up)) as (Hnone & _).
  destruct (deleteResult_answers (R := Lab.runtime) 7 1
              (set_table (ocrResults two_users) 3 database_down))
    as (_ & Hrej).
  split.
  - exact (proj1 (proj2 (Hnone _ eq_refl))).
  - rewrite (proj1 (proj2 (Hrej tt _ (Js.Error "Connection lost") _
                             eq_refl eq_refl))).
    reflexivity.
Defined.

Lemma deleteOcrResult_removes_and_is_idempotent_witness :
  ocrResults (snd (deleteOcrResult 1 7 two_users))
    = [sample_row 2 8 "theirs.png"]
  /\ ocrResults (snd (deleteOcrResult 1 7 (snd (deleteOcrResult 1 7 two_users))))
     = ocrResults (snd (deleteOcrResult 1 7 two_users)).
Proof.
  destruct (deleteOcrResult_removes_and_is_idempotent (R := Lab.runtime) 1 7
              two_users (w1 := two_users_connected) (d := tt)
              (y := Lab.tick 2 (Lab.outside true true true))
              eq_refl eq_refl) as (Hrows & _ & Hidem).
  split; [rewrite Hrows; reflexivity | exact Hidem].
Defined.

(** ** getDb *)

Section GetDbFacts.

Context {R : Runtime}.

(** X11.  [getDb] never throws and returns the handle it leaves in [_db].
    A handle in place is returned as it is, with no other effect.  With no
    URL, or an empty one, nothing is attempted.  When [drizzle] throws,
    [null] is returned and [_db] stays [null], so the next call tries again.
    The table is never touched. *)
Theorem getDb_behaviour (w : World) :
  (exists r w', getDb w = (Js.Normal r, w') /\ db_ w' = r /\
                ocrResults w' = ocrResults w /\
                DATABASE_URL w' = DATABASE_URL w)
  /\ (forall d, db_ w = Some d -> getDb w = (Js.Normal (Some d), w))
  /\ (DATABASE_URL w = None \/ DATABASE_URL w = Some "" ->
      getDb w = (Js.Normal (db_ w), w))
  /\ (forall c u e y,
        db_ w = None -> DATABASE_URL w = Some (String c u) ->
        drizzle (String c u) (ext w) = (Js.Throw e, y) ->
        getDb w = (Js.Normal None, set_db None (set_ext y w)) /\
        forall d y',
          drizzle (String c u) y = (Js.Normal d, y') ->
          fst (getDb (set_db None (set_ext y w))) = Js.Normal (Some d)).
Proof.
  rewrite !getDb_run.
  split; [|split; [|split]].
  - eexists _, _. split; [reflexivity|].
    split; [|split; [apply connected_rows|]]; unfold connected;
      destruct (db_ w) eqn:Hd, (DATABASE_URL w) as [[|c u]|] eqn:Hu;
      try (cbn; congruence);
      destruct (drizzle (String c u) (ext w)) as [[d|e] y]; cbn; congruence.
  - intros d Hd. now rewrite (connected_ready w Hd).
  - unfold connected. intros [-> | ->]; now destruct (db_ w).
  - intros c u e y Hd Hu Hthrow. unfold connected at 1 2.
    rewrite Hd, Hu, Hthrow. split; [reflexivity|].
    intros d y' Hok. rewrite getDb_run. unfold connected. cbn.
    rewrite Hu, Hok. reflexivity.
Qed.

End GetDbFacts.

(** ** terminateOcrWorker *)

Section TerminateFacts.

Context {R : Runtime}.

(** X12.  [terminateOcrWorker] never throws.  With no worker it does
    nothing.  When [terminate] rejects, the worker stays in place, and the
    next [getOcrWorker] returns this same worker.  When it resolves, the
    next [getOcrWorker] calls [createWorker] again. *)
Theorem terminateOcrWorker_behaviour (w : World) :
  fst (terminateOcrWorker w) = Js.Normal tt
  /\ (ocrWorker w = None -> terminateOcrWorker w = (Js.Normal tt, w))
  /\ (forall x e y,
        ocrWorker w = Some x ->
        Worker_terminate x (ext w) = (Js.Throw e, y) ->
        ocrWorker (snd (terminateOcrWorker w)) = Some x /\
        fst (getOcrWorker (snd (terminateOcrWorker w))) = Js.Normal (Some x) /\
        workersCreated (snd (getOcrWorker (snd (terminateOcrWorker w))))
        = workersCreated w)
  /\ (forall x y,
        ocrWorker w = Some x ->
        Worker_terminate x (ext w) = (Js.Normal tt, y) ->
        getOcrWorker (snd (terminateOcrWorker w))
        = constructed (set_ocrWorker None (set_ext y w)) /\
        workersCreated (snd (getOcrWorker (snd (terminateOcrWorker w))))
        = S (workersCreated w)).
Proof.
  rewrite terminateOcrWorker_run.
  split; [|split; [|split]].
  - destruct (ocrWorker w) as [x|]; [|reflexivity].
    now destruct (Worker_terminate x (ext w)) as [[[]|e] y].
  - now intros ->.
  - intros x e y Hw Ht. rewrite Hw, Ht. cbn [snd].
    assert (Hx : ocrWorker (set_ext y w) = Some x) by exact Hw.
    split; [exact Hx|]. rewrite (getOcrWorker_ready _ Hx). now split.
  - intros x y Hw Ht. rewrite Hw, Ht. cbn [snd].
    assert (Hn : ocrWorker (set_ocrWorker None (set_ext y w)) = None)
      by reflexivity.
    rewrite (getOcrWorker_fresh _ Hn). split; [reflexivity|].
    now rewrite constructed_counts.
Qed.

End TerminateFacts.

(** ** Calls in flight together, once the worker exists *)

Section ReadyInterleaving.

Context {R : Runtime}.

Lemma getOcrWorker_step_ready (w : World) (x : Worker) (pc : GetPc) :
  ocrWorker w = Some x -> calm x pc ->
  getOcrWorker_step pc w = (Returned (Js.Normal (Some x)), w).
Proof.
  intros Hx [-> | ->]; cbn; [now rewrite Hx | reflexivity].
Qed.

Lemma step_nth_ready (w : World) (x : Worker) :
  ocrWorker w = Some x ->
  forall (i : nat) (pcs : list GetPc),
    Forall (calm x) pcs ->
    exists pcs',
      step_nth i pcs w = (pcs', w) /\ Forall (calm x) pcs' /\
      List.length pcs' = List.length pcs /\
      (i < List.length pcs ->
       nth_error pcs' i = Some (Returned (Js.Normal (Some x))))%nat /\
      (forall j, nth_error pcs j = Some (Returned (Js.Normal (Some x))) ->
                 nth_error pcs' j = Some (Returned (Js.Normal (Some x)))).
Proof.
  intros Hx i pcs. revert i.
  induction pcs as [|pc rest IH]; intros i Hall.
  - exists []. destruct i; cbn; repeat split; auto; intros; lia.
  - inversion Hall as [|? ? Hpc Hrest]; subst. destruct i as [|i].
    + cbn [step_nth]. rewrite (@getOcrWorker_step_ready w x pc Hx Hpc).
      eexists. split; [reflexivity|].
      split; [constructor; [now right | exact Hrest]|].
      split; [reflexivity|]. split; [reflexivity|].
      intros [|j]; cbn; auto.
    + destruct (IH i Hrest) as (rest' & Hstep & Hcalm & Hlen & Hi & Hkeep).
      cbn [step_nth]. rewrite Hstep. eexists. split; [reflexivity|].
      split; [now constructor|]. split; [cbn; now rewrite Hlen|].
      split; [cbn; intros; apply Hi; lia|].
      intros [|j]; cbn; auto.
Qed.

Lemma run_schedule_ready (w : World) (x : Worker) :
  ocrWorker w = Some x ->
  forall (schedule : list nat) (pcs : list GetPc),
    Forall (calm x) pcs ->
    exists pcs',
      run_schedule schedule pcs w = (pcs', w) /\ Forall (calm x) pcs' /\
      List.length pcs' = List.length pcs /\
      (forall i, In i schedule -> (i < List.length pcs)%nat ->
                 nth_error pcs' i = Some (Returned (Js.Normal (Some x)))) /\
      (forall j, nth_error pcs j = Some (Returned (Js.Normal (Some x))) ->
                 nth_error pcs' j = Some (Returned (Js.Normal (Some x)))).
Proof.
  intros Hx schedule.
  induction schedule as [|i later IH]; intros pcs Hall.
  - exists pcs. cbn. repeat split; auto. intros i [].
  - destruct (@step_nth_ready w x Hx i pcs Hall)
      as (pcs1 & Hstep & Hcalm1 & Hlen1 & Hi & Hkeep1).
    destruct (IH pcs1 Hcalm1) as (pcs2 & Hrun & Hcalm2 & Hlen2 & Hin & Hkeep2).
    exists pcs2. cbn [run_schedule]. rewrite Hstep.
    split; [exact Hrun|]. split; [exact Hcalm2|].
    split; [congruence|]. split.
    + intros k [<- | Hk] Hlt.
      * apply Hkeep2, Hi, Hlt.
      * apply Hin; [exact Hk | congruence].
    + intros j Hj. apply Hkeep2, Hkeep1, Hj.
Qed.

(** a call suspended in [createWorker] replaces the worker when it resumes *)
Lemma step_nth_resumed (x' : Worker) :
  forall (pcs : list GetPc) (i : nat) (w : World),
    nth_error pcs i = Some (AwaitCreate (Js.Normal x')) ->
    ocrWorker (snd (step_nth i pcs w)) = Some x' /\
    nth_error (fst (step_nth i pcs w)) i
    = Some (Returned (Js.Normal (Some x'))).
Proof.
  induction pcs as [|pc rest IH]; intros i w Hi.
  - destruct i; discriminate Hi.
  - destruct i as [|i].
    + injection Hi as ->. cbn. now split.
    + cbn [nth_error] in Hi. specialize (IH i w Hi).
      cbn [step_nth]. destruct (step_nth i rest w) as [rest' w'].
      exact IH.
Qed.

(** X13.  Calls in flight once a worker is in place.  When no call is
    suspended in [createWorker], that is, when each call in flight has not
    started or has returned the worker in place, the calls may be run in any
    order: the state of the process does not change (so [createWorker] is not
    called and the worker is not replaced), every call the schedule runs
    returns that worker, and still no call is suspended.  The condition is
    needed: a call that is suspended in [createWorker] and whose worker was
    created replaces the worker in place when it is resumed, and returns its
    own. *)
Theorem getOcrWorker_interleaved_after_init (w : World) (x : Worker)
    (schedule : list nat) (pcs : list GetPc) :
  ocrWorker w = Some x ->
  Forall (calm x) pcs ->
  (exists pcs',
     run_schedule schedule pcs w = (pcs', w) /\
     List.length pcs' = List.length pcs /\
     (forall i, In i schedule -> (i < List.length pcs)%nat ->
                nth_error pcs' i = Some (Returned (Js.Normal (Some x)))) /\
     Forall (calm x) pcs')
  /\ (forall (others : list GetPc) (i : nat) (x' : Worker),
        nth_error others i = Some (AwaitCreate (Js.Normal x')) ->
        ocrWorker (snd (step_nth i others w)) = Some x' /\
        nth_error (fst (step_nth i others w)) i
        = Some (Returned (Js.Normal (Some x')))).
Proof.
  intros Hx Hall. split.
  - destruct (@run_schedule_ready w x Hx schedule pcs Hall)
      as (pcs' & Hrun & Hcalm & Hlen & Hin & _).
    exists pcs'. split; [exact Hrun|]. split; [exact Hlen|].
    split; [exact Hin | exact Hcalm].
  - intros others i x' Hi. now apply step_nth_resumed.
Qed.

End ReadyInterleaving.

Lemma getOcrWorker_interleaved_after_init_witness :
  (exists pcs',
     run_schedule [0; 2; 1; 0]%nat
       [AtEntry; Returned (R := Lab.runtime) (Js.Normal (Some 0%nat)); AtEntry] engine_up_built
     = (pcs', engine_up_built) /\
     List.length pcs' = 3%nat)
  /\ ocrWorker
       (snd (step_nth 1 [AtEntry; AwaitCreate (R := Lab.runtime) (Js.Normal 1%nat)]
               engine_up_built))
     = Some 1%nat.
Proof.
  assert (Hcalm : Forall (calm (R := Lab.runtime) 0%nat)
                    [AtEntry;
                     Returned (R := Lab.runtime) (Js.Normal (Some 0%nat));
                     AtEntry]).
  { constructor; [now left|]. constructor; [now right|].
    constructor; [now left | constructor]. }
  destruct (@getOcrWorker_interleaved_after_init Lab.runtime engine_up_built
              0%nat [0; 2; 1; 0]%nat _ eq_refl Hcalm)
    as ((pcs' & Hrun & Hlen & _) & Hresumed).
  split.
  - exists pcs'. split; [exact Hrun | exact Hlen].
  - exact (proj1 (Hresumed [AtEntry; AwaitCreate (R := Lab.runtime) (Js.Normal 1%nat)] 1%nat
                    1%nat eq_refl)).
Defined.

(** ** The history *)

Section SortFacts.

Lemma insert_newest_perm (r : OcrResultRow) (l : list OcrResultRow) :
  Permutation (insert_newest r l) (r :: l).
Proof.
  induction l as [|x rest IH]; cbn; [reflexivity|].
  destruct (row_createdAt x <=? row_createdAt r); [reflexivity|].
  rewrite IH. apply perm_swap.
Qed.

Lemma newest_first_perm (l : list OcrResultRow) :
  Permutation (newest_first l) l.
Proof.
  induction l as [|r rest IH]; cbn; [reflexivity|].
  rewrite insert_newest_perm. now constructor.
Qed.

Lemma insert_newest_sorted (r : OcrResultRow) (l : list OcrResultRow) :
  StronglySorted newer_or_same l ->
  StronglySorted newer_or_same (insert_newest r l).
Proof.
  induction 1 as [|x rest Hsorted IH Hall]; cbn.
  - constructor; constructor.
  - destruct (row_createdAt x <=? row_createdAt r) eqn:Hle.
    + apply Z.leb_le in Hle. constructor; [now constructor|].
      constructor; [exact Hle|].
      eapply Forall_impl; [|exact Hall]. unfold newer_or_same. intros; lia.
    + apply Z.leb_gt in Hle. constructor; [exact IH|].
      eapply Permutation_Forall; [symmetry; apply insert_newest_perm|].
      constructor; [unfold newer_or_same; lia | exact Hall].
Qed.

Lemma newest_first_sorted (l : list OcrResultRow) :
  StronglySorted newer_or_same (newest_first l).
Proof.
  induction l as [|r rest IH]; cbn; [constructor|].
  now apply insert_newest_sorted.
Qed.

Lemma select_for_In (userId : Z) (rows : list OcrResultRow) (r : OcrResultRow) :
  In r (select_for userId rows) <-> In r rows /\ row_userId r = userId.
Proof.
  unfold select_for. split.
  - intros Hin. apply (Permutation_in _ (newest_first_perm _)) in Hin.
    apply filter_In in Hin as [Hin Hu]. now apply Z.eqb_eq in Hu.
  - intros [Hin Hu].
    apply (Permutation_in _ (Permutation_sym (newest_first_perm _))).
    apply filter_In. split; [exact Hin | now apply Z.eqb_eq].
Qed.

(** rows of one user, appended or removed, are not seen by another *)
Lemma filter_other_app (userId other : Z) (rows added : list OcrResultRow) :
  other <> userId ->
  Forall (fun row => row_userId row = userId) added ->
  filter (fun r => row_userId r =? other) (rows ++ added)
  = filter (fun r => row_userId r =? other) rows.
Proof.
  intros Hne Hall. rewrite filter_app.
  assert (Hnil : filter (fun r => row_userId r =? other) added = []).
  { induction Hall as [|row rest Hrow _ IH]; [reflexivity|].
    cbn. rewrite Hrow. replace (userId =? other) with false; [exact IH|].
    symmetry. apply Z.eqb_neq. congruence. }
  rewrite Hnil. apply app_nil_r.
Qed.

Lemma filter_other_delete (id userId other : Z) (rows : list OcrResultRow) :
  other <> userId ->
  filter (fun r => row_userId r =? other)
         (filter (fun r => negb (matches id userId r)) rows)
  = filter (fun r => row_userId r =? other) rows.
Proof.
  intros Hne. induction rows as [|r rest IH]; [reflexivity|].
  cbn [filter]. unfold matches at 1.
  destruct (row_userId r =? other) eqn:Ho.
  - apply Z.eqb_eq in Ho.
    replace (row_userId r =? userId) with false
      by (symmetry; apply Z.eqb_neq; congruence).
    rewrite andb_false_r. cbn [negb filter].
    replace (row_userId r =? other) with true
      by (symmetry; now apply Z.eqb_eq).
    now rewrite IH.
  - destruct (negb _); cbn [filter]; [rewrite Ho|]; exact IH.
Qed.

End SortFacts.

Section HistoryFacts.

Context {R : Runtime}.

Variable Database_select : Database -> Z -> Ext -> option Js.thrown * Ext.

Lemma getUserOcrResults_run (userId : Z) (w : World) :
  getUserOcrResults Database_select userId w
  = match connected w with
    | (None, w1) => (Js.Normal [], w1)
    | (Some d, w1) =>
        match Database_select d userId (ext w1) with
        | (Some e, x) => (Js.Throw e, set_ext x w1)
        | (None, x) =>
            (Js.Normal (select_for userId (ocrResults w1)), set_ext x w1)
        end
    end.
Proof.
  unfold getUserOcrResults, bind. rewrite getDb_run.
  destruct (connected w) as [[d|] w1]; cbn [fst snd]; [|reflexivity].
  unfold try_catch, bind, select, ret, throw.
  now destruct (Database_select d userId (ext w1)) as [[e|] x].
Qed.

Lemma getHistory_run (userId : Z) (w : World) :
  getHistory Database_select userId w
  = match getUserOcrResults Database_select userId w with
    | (Js.Normal rows, w') => (Js.Normal rows, w')
    | (Js.Throw _, w') =>
        (Js.Throw (Js.Error "Failed to retrieve OCR history"), w')
    end.
Proof.
  unfold getHistory, try_catch, bind, ret, throw.
  now destruct (getUserOcrResults Database_select userId w) as [[rows|e] w'].
Qed.

(** X14.  The history of a user.  Without a database it is empty and no
    query is sent.  When the server answers, [getUserOcrResults] and
    [getHistory] return the rows of the table that belong to this user, all
    of them and no other, newest first, and the table is unchanged.  When
    the server rejects the query, [getUserOcrResults] rethrows and
    [getHistory] throws "Failed to retrieve OCR history". *)
Theorem getHistory_returns_own_rows (userId : Z) (w : World) :
  (forall w1,
     getDb w = (Js.Normal None, w1) ->
     getUserOcrResults Database_select userId w = (Js.Normal [], w1) /\
     getHistory Database_select userId w = (Js.Normal [], w1))
  /\ (forall d w1 x,
        getDb w = (Js.Normal (Some d), w1) ->
        Database_select d userId (ext w1) = (None, x) ->
        exists rows,
          getUserOcrResults Database_select userId w
            = (Js.Normal rows, set_ext x w1) /\
          getHistory Database_select userId w = (Js.Normal rows, set_ext x w1) /\
          Permutation rows
            (filter (fun r => row_userId r =? userId) (ocrResults w)) /\
          (forall r, In r rows <-> In r (ocrResults w) /\ row_userId r = userId) /\
          StronglySorted newer_or_same rows /\
          ocrResults (set_ext x w1) = ocrResults w)
  /\ (forall d w1 e x,
        getDb w = (Js.Normal (Some d), w1) ->
        Database_select d userId (ext w1) = (Some e, x) ->
        getUserOcrResults Database_select userId w = (Js.Throw e, set_ext x w1) /\
        getHistory Database_select userId w
        = (Js.Throw (Js.Error "Failed to retrieve OCR history"), set_ext x w1)).
Proof.
  pose proof (connected_rows w) as Hrows.
  rewrite getHistory_run, getUserOcrResults_run, getDb_run.
  destruct (connected w) as [o w0]. cbn [fst snd] in *.
  split; [|split].
  - intros w1 [= -> ->]. now split.
  - intros d w1 x [= -> ->] Hsel. rewrite Hsel.
    exists (select_for userId (ocrResults w1)).
    split; [reflexivity|]. split; [reflexivity|]. rewrite Hrows.
    split; [apply newest_first_perm|].
    split; [intros r; apply select_for_In|].
    split; [apply newest_first_sorted | exact Hrows].
  - intros d w1 e x [= -> ->] Hsel. rewrite Hsel. now split.
Qed.



(** rows added by one user *)
Lemma spec_entries_rows_owner (userId : Z) (images : list ImageInput)
    (w w' : World) (es : list BatchEntry) :
  spec_entries userId images w = (Js.Normal es, w') ->
  exists added,
    ocrResults w' = (ocrResults w ++ added)%list /\
    Forall (fun row => row_userId row = userId) added.
Proof.
  intros Hes.
  edestruct spec_entries_rows as (added & Hrows & _ & Hall); [exact Hes|].
  exists added. split; [exact Hrows|].
  eapply Forall_impl; [|exact Hall].
  intros row (item & _ & Hrow). exact (proj1 Hrow).
Qed.

(** X16.  Histories are per user.  What one user processes, in a batch or
    alone, and what this user deletes, leaves the rows that the history
    query selects for any other user the same list as before. *)
Theorem histories_are_per_user (userId other : Z) (w : World) :
  other <> userId ->
  (forall images,
     select_for other (ocrResults (snd (processBatch userId images w)))
     = select_for other (ocrResults w))
  /\ (forall input,
        select_for other (ocrResults (snd (processImage userId input w)))
        = select_for other (ocrResults w))
  /\ (forall id,
        select_for other (ocrResults (snd (deleteOcrResult id userId w)))
        = select_for other (ocrResults w)).
Proof.
  intros Hne. unfold select_for. split; [|split].
  - intros images. rewrite processBatch_run. unfold spec_processBatch, bind, ret.
    destruct (spec_entries_total userId images w) as (es & w' & Hes).
    rewrite Hes. cbn [snd].
    edestruct spec_entries_rows_owner as (added & Hrows & Hall); [exact Hes|].
    rewrite Hrows. now rewrite (@filter_other_app userId other _ added Hne Hall).
  - intros input. pose proof (processImage_rows userId input w) as Hrows.
    destruct (processImage userId input w) as [[r|t] w']; cbn [snd].
    + destruct Hrows as [-> | (row & -> & Hu & _)]; [reflexivity|].
      rewrite (@filter_other_app userId other _ [row] Hne); auto.
    + now rewrite Hrows.
  - intros id. destruct (deleteOcrResult_rows id userId w) as [-> | ->];
      [reflexivity|].
    now rewrite filter_other_delete.
Qed.

End HistoryFacts.


Lemma histories_are_per_user_witness :
  select_for 8 (ocrResults (snd (processBatch 7 sample_batch two_users)))
    = [sample_row 2 8 "theirs.png"]
  /\ select_for 8 (ocrResults (snd (deleteOcrResult 2 7 two_users)))
     = [sample_row 2 8 "theirs.png"].
Proof.
  destruct (histories_are_per_user (R := Lab.runtime) (userId := 7)
              (other := 8) two_users ltac:(discriminate))
    as (Hbatch & _ & Hdelete).
  split; [rewrite Hbatch | rewrite Hdelete]; reflexivity.
Defined.

(** ** upsertUser *)

Section UpsertFacts.

Context {R : Runtime}.

Variable ownerOpenId : string.

Variable Database_upsert :
  Database -> InsertUser -> UpdateSet -> Ext -> option Js.thrown * Ext.

(** X17.  What [upsertUser] sends.  The update set is never empty and the
    values always carry [lastSignedIn]: the one given, else the current time.
    A text column is in both objects exactly when the caller gave it, with
    the value given.  The update refreshes [lastSignedIn] when the caller
    gave it, or when the caller gave no column at all and is not the owner;
    when some other column is given and [lastSignedIn] is not, the update
    leaves it as it is. *)
Theorem upsertUser_statement (t : Z) (user : InsertUser) :
  UpdateSet_is_empty (upsertSet ownerOpenId t user) = false
  /\ user_openId (upsertValues ownerOpenId t user) = user_openId user
  /\ user_lastSignedIn (upsertValues ownerOpenId t user)
     = Some (match user_lastSignedIn user with Some d => d | None => t end)
  /\ (user_name (upsertValues ownerOpenId t user) = user_name user /\
      upd_name (upsertSet ownerOpenId t user) = user_name user /\
      user_email (upsertValues ownerOpenId t user) = user_email user /\
      upd_email (upsertSet ownerOpenId t user) = user_email user /\
      user_loginMethod (upsertValues ownerOpenId t user)
        = user_loginMethod user /\
      upd_loginMethod (upsertSet ownerOpenId t user) = user_loginMethod user)
  /\ upd_role (upsertSet ownerOpenId t user)
     = user_role (upsertValues ownerOpenId t user)
  /\ (forall d, user_lastSignedIn user = Some d ->
        upd_lastSignedIn (upsertSet ownerOpenId t user) = Some d)
  /\ (user_lastSignedIn user = None ->
      upd_lastSignedIn (upsertSet ownerOpenId t user)
      = if UpdateSet_is_empty (assignedSet ownerOpenId user)
        then Some t else None).
Proof.
  unfold upsertSet, upsertValues, values_lastSignedIn, updateSet_lastSignedIn,
    assignedValues, assignedSet, UpdateSet_is_empty, assignNullable,
    normalized.
  cbn [user_openId user_name user_email user_loginMethod user_role
       user_lastSignedIn upd_name upd_email upd_loginMethod upd_lastSignedIn
       upd_role].
  destruct (user_name user) as [n|], (user_email user) as [m|],
    (user_loginMethod user) as [l|], (user_lastSignedIn user) as [d|],
    (assignedRole ownerOpenId user) as [r|];
    cbn; repeat split; try reflexivity; try discriminate;
    intros d' [= <-]; reflexivity.
Qed.

(** X18.  The role [upsertUser] sends.  A role the caller gives is sent as
    it is, also for the owner.  With no role given, the owner is sent as
    admin, and for anyone else no role is sent, in the values and in the
    update alike, so the stored role of an existing user is not touched. *)
Theorem upsertUser_role (t : Z) (user : InsertUser) :
  (forall r, user_role user = Some r ->
     user_role (upsertValues ownerOpenId t user) = Some r /\
     upd_role (upsertSet ownerOpenId t user) = Some r)
  /\ (user_role user = None -> user_openId user = ownerOpenId ->
      user_role (upsertValues ownerOpenId t user) = Some role_admin /\
      upd_role (upsertSet ownerOpenId t user) = Some role_admin)
  /\ (user_role user = None -> user_openId user <> ownerOpenId ->
      user_role (upsertValues ownerOpenId t user) = None /\
      upd_role (upsertSet ownerOpenId t user) = None).
Proof.
  assert (Hset : upd_role (upsertSet ownerOpenId t user)
                 = assignedRole ownerOpenId user).
  { unfold upsertSet. cbv zeta. now destruct (UpdateSet_is_empty _). }
  assert (Hvalues : user_role (upsertValues ownerOpenId t user)
                    = assignedRole ownerOpenId user).
  { unfold upsertValues. cbv zeta. cbn [assignedValues user_lastSignedIn].
    now destruct (user_lastSignedIn user). }
  rewrite Hset, Hvalues. unfold assignedRole.
  split; [|split].
  - intros r ->. now split.
  - intros -> ->. rewrite String.eqb_refl. now split.
  - intros -> Hne. apply String.eqb_neq in Hne. rewrite Hne. now split.
Qed.

Lemma upsertUser_run (user : InsertUser) (w : World) :
  upsertUser ownerOpenId Database_upsert user w
  = match user_openId user with
    | EmptyString =>
        (Js.Throw (Js.Error "User openId is required for upsert"), w)
    | String _ _ =>
        match connected w with
        | (None, w1) => (Js.Normal tt, w1)
        | (Some d, w1) =>
            match Database_upsert d
                    (upsertValues ownerOpenId (Date_now (ext w1)) user)
                    (upsertSet ownerOpenId (Date_now (ext w1)) user)
                    (ext w1) with
            | (Some e, x) => (Js.Throw e, set_ext x w1)
            | (None, x) => (Js.Normal tt, set_ext x w1)
            end
        end
    end.
Proof.
  unfold upsertUser. destruct (user_openId user); [reflexivity|].
  unfold bind at 1. rewrite getDb_run.
  destruct (connected w) as [[d|] w1]; cbn [fst snd]; [|reflexivity].
  unfold upsertValues, upsertSet. cbv zeta.
  destruct (user_lastSignedIn (assignedValues ownerOpenId user)),
    (UpdateSet_is_empty (assignedSet ownerOpenId user));
    unfold try_catch, bind, now, upsert, ret, throw; cbn [fst snd];
    now destruct (Database_upsert d _ _ (ext w1)) as [[e|] x].
Qed.

(** X19.  [upsertUser] and the database.  An empty [openId] throws
    "User openId is required for upsert" before the database is looked
    for: nothing changes.  Without a database the call returns and sends
    nothing.  Otherwise one statement is sent; it is rethrown when the server
    rejects it.  In no case is the ocrResults table or the worker touched. *)
Theorem upsertUser_behaviour (user : InsertUser) (w : World) :
  (user_openId user = "" ->
     upsertUser ownerOpenId Database_upsert user w
     = (Js.Throw (Js.Error "User openId is required for upsert"), w))
  /\ (forall w1,
        user_openId user <> "" -> getDb w = (Js.Normal None, w1) ->
        upsertUser ownerOpenId Database_upsert user w = (Js.Normal tt, w1))
  /\ (forall d w1 e x,
        user_openId user <> "" -> getDb w = (Js.Normal (Some d), w1) ->
        Database_upsert d (upsertValues ownerOpenId (Date_now (ext w1)) user)
                          (upsertSet ownerOpenId (Date_now (ext w1)) user)
                          (ext w1) = (Some e, x) ->
        upsertUser ownerOpenId Database_upsert user w
        = (Js.Throw e, set_ext x w1))
  /\ (forall d w1 x,
        user_openId user <> "" -> getDb w = (Js.Normal (Some d), w1) ->
        Database_upsert d (upsertValues ownerOpenId (Date_now (ext w1)) user)
                          (upsertSet ownerOpenId (Date_now (ext w1)) user)
                          (ext w1) = (None, x) ->
        upsertUser ownerOpenId Database_upsert user w
        = (Js.Normal tt, set_ext x w1))
  /\ ocrResults (snd (upsertUser ownerOpenId Database_upsert user w))
     = ocrResults w
  /\ ocrWorker (snd (upsertUser ownerOpenId Database_upsert user w))
     = ocrWorker w.
Proof.
  rewrite upsertUser_run, getDb_run.
  pose proof (connected_rows w) as Hrows.
  assert (Hworker : ocrWorker (snd (connected w)) = ocrWorker w).
  { unfold connected.
    destruct (db_ w), (DATABASE_URL w) as [[|c u]|]; try reflexivity.
    now destruct (drizzle (String c u) (ext w)) as [[d|e] y]. }
  destruct (user_openId user) as [|c s].
  - split; [reflexivity|]. split; [intros ? H; now elim H|].
    split; [intros ? ? ? ? H; now elim H|].
    split; [intros ? ? ? H; now elim H|]. now split.
  - split; [discriminate|].
    destruct (connected w) as [o w0]. cbn [fst snd] in *.
    split; [intros w1 _ [= -> ->]; reflexivity|].
    split; [intros d w1 e x _ [= -> ->] Hs; now rewrite Hs|].
    split; [intros d w1 x _ [= -> ->] Hs; now rewrite Hs|].
    destruct o as [d|]; [|now split].
    destruct (Database_upsert d _ _ (ext w0)) as [[e|] x]; now split.
Qed.

End UpsertFacts.

(** ** A batch with nothing valid *)

Section RejectedBatch.

Context {R : Runtime}.

(** X20.  A batch in which no image passes validation, the empty batch
    included, leaves the process as it was: no image is optimised, no engine
    is built, nothing is uploaded or stored.  The answer has no result and one
    error for each image, in order, with the file name and the message of the
    validator. *)
Theorem processBatch_nothing_valid (userId : Z) (images : list ImageInput)
    (w : World) :
  Forall (fun image =>
            valid (validateImageFile numberToString
                     (Buffer_from_base64 (imageData image)) (mimeType image)
                     defaultMaxSizeBytes) = false) images ->
  exists out,
    processBatch userId images w = (Js.Normal out, w) /\
    success out = true /\
    results out = [] /\
    Forall2 (fun image e =>
               err_fileName e = fileName image /\
               error (validateImageFile numberToString
                        (Buffer_from_base64 (imageData image))
                        (mimeType image) defaultMaxSizeBytes)
               = Some (err_error e)) images (errors out) /\
    totalProcessed out = 0%nat /\
    totalFailed out = List.length images.
Proof.
  intros Hbad. rewrite processBatch_run. unfold spec_processBatch, bind, ret.
  rewrite (spec_entries_all_invalid userId w Hbad).
  eexists. split; [reflexivity|].
  cbn [success results errors totalProcessed totalFailed].
  assert (Hs : forall f (l : list ImageInput),
             successes (map (fun i => inr (f i)) l) = []).
  { intros f l. induction l; cbn; auto. }
  assert (Hf : forall f (l : list ImageInput),
             failures (map (fun i => inr (f i)) l) = map f l).
  { intros f l. induction l as [|i l IH]; cbn; [reflexivity | now rewrite IH]. }
  rewrite Hs, Hf, length_map.
  split; [reflexivity|]. split; [reflexivity|].
  split; [|split; reflexivity].
  induction Hbad as [|image rest Himage _ IH]; cbn [map]; constructor;
    [|exact IH].
  cbn [err_fileName err_error]. split; [reflexivity|].
  destruct (rejection_message numberToString
              (Buffer_from_base64 (imageData image)) (mimeType image)
              defaultMaxSizeBytes Himage) as (msg & Hmsg & Hor).
  now rewrite Hor.
Qed.

End RejectedBatch.

Lemma processBatch_nothing_valid_witness :
  exists out,
    processBatch (R := Lab.runtime) 7 [Lab.pdf "b.pdf" "x"] all_up
    = (Js.Normal out, all_up) /\
    results out = [] /\ totalFailed out = 1%nat.
Proof.
  destruct (processBatch_nothing_valid (R := Lab.runtime) 7
              (images := [Lab.pdf "b.pdf" "x"]) all_up
              ltac:(repeat constructor))
    as (out & Hrun & _ & Hres & _ & _ & Hfailed).
  exists out. repeat split; assumption.
Defined.

(** ** The primary key *)

Section PrimaryKey.

Context {R : Runtime}.

Lemma keyed_same (w w' : World) :
  ocrResults w' = ocrResults w ->
  ocrResults_nextId w' = ocrResults_nextId w ->
  keyed w -> keyed w'.
Proof. unfold keyed. now intros -> ->. Qed.

Lemma keyed_insert (r : InsertOcrResult) (w : World) :
  keyed w -> keyed (apply_statement (InsertInto r) w).
Proof.
  intros [Hdistinct Hbelow]. unfold keyed, apply_statement.
  cbn [ocrResults ocrResults_nextId set_table]. split.
  - rewrite map_app. cbn [map new_row row_id].
    apply NoDup_app; [exact Hdistinct | repeat constructor; now intros [] |].
    intros id Hin [<- | []].
    apply in_map_iff in Hin. destruct Hin as (row & Hid & Hin).
    rewrite Forall_forall in Hbelow. specialize (Hbelow row Hin). lia.
  - apply Forall_app. split.
    + eapply Forall_impl; [|exact Hbelow]. cbn. intros; lia.
    + repeat constructor. cbn. lia.
Qed.

Lemma keyed_delete (id userId : Z) (w : World) :
  keyed w -> keyed (apply_statement (DeleteWhere id userId) w).
Proof.
  intros [Hdistinct Hbelow]. unfold keyed, apply_statement.
  cbn [ocrResults ocrResults_nextId set_table]. split.
  - clear Hbelow. induction (ocrResults w) as [|row rows IH]; [constructor|].
    cbn [map] in Hdistinct. inversion Hdistinct as [|? ? Hnotin Hrest]; subst.
    cbn [filter]. destruct (negb (matches id userId row)); [|now apply IH].
    cbn [map]. constructor; [|now apply IH].
    intros Hin. apply Hnotin. apply in_map_iff in Hin.
    destruct Hin as (r & Hid & Hin). apply filter_In in Hin.
    apply in_map_iff. exists r. now split.
  - rewrite Forall_forall in *. intros r Hin. apply filter_In in Hin.
    now apply Hbelow.
Qed.

Lemma keyed_connected (w : World) : keyed w -> keyed (snd (connected w)).
Proof.
  apply keyed_same; [apply connected_rows | apply connected_nextId].
Qed.

Lemma keyed_processImageWithOcr (buf : Buffer) (lang : string) (w : World) :
  keyed w -> keyed (snd (processImageWithOcr buf lang w)).
Proof.
  apply keyed_same.
  - exact (keeps_processImageWithOcr (field := ocrResults) buf lang
             inner_rows (fun _ _ => eq_refl) (fun _ => eq_refl) w).
  - exact (keeps_processImageWithOcr (field := ocrResults_nextId) buf lang
             inner_nextId (fun _ _ => eq_refl) (fun _ => eq_refl) w).
Qed.

Lemma keyed_upload_and_persist (userId : Z) (image : ImageInput)
    (bytes : Buffer) (o : OcrOutcome) (w : World) :
  keyed w -> keyed (snd (spec_upload_and_persist userId image bytes o w)).
Proof.
  intros Hw. rewrite spec_upload_and_persist_run.
  destruct (storagePut _ bytes (mimeType image) _) as [[url|e] x3];
    [|exact Hw].
  pose proof (keyed_connected (w := set_ext x3 w) Hw) as Hc.
  destruct (connected (set_ext x3 w)) as [[d|] w2]; cbn [snd] in *;
    [|exact Hc].
  destruct (Database_execute d _ (ext w2)) as [[e|] y]; cbn [snd];
    [exact Hc|].
  now apply keyed_insert.
Qed.

Lemma keyed_processItem (userId : Z) (image : ImageInput) (w : World) :
  keyed w -> keyed (snd (spec_processItem userId image w)).
Proof.
  intros Hw. rewrite spec_processItem_run.
  destruct (valid _); [|exact Hw].
  pose proof (keyed_processImageWithOcr
                (Buffer_from_base64 (imageData image)) (language image) Hw)
    as Ho.
  destruct (processImageWithOcr _ (language image) w) as [[o|t] w1];
    cbn [snd] in *; [|exact Ho].
  destruct (ocr_success o); [|exact Ho].
  pose proof (keyed_upload_and_persist userId image
                (Buffer_from_base64 (imageData image)) o Ho) as Hu.
  now destruct (spec_upload_and_persist userId image _ o w1) as [[url|t] w2].
Qed.

Lemma keyed_entries (userId : Z) (images : list ImageInput) :
  forall w : World, keyed w -> keyed (snd (spec_entries userId images w)).
Proof.
  induction images as [|image rest IH]; intros w Hw; [exact Hw|].
  cbn [spec_entries]. unfold bind at 1.
  pose proof (keyed_processItem userId image Hw) as Hi.
  destruct (spec_processItem userId image w) as [[e|t] w1]; cbn [snd] in *;
    [|exact Hi].
  unfold bind at 1. specialize (IH w1 Hi).
  now destruct (spec_entries userId rest w1) as [[es|t] w2].
Qed.

Lemma keyed_processBatch (userId : Z) (images : list ImageInput) (w : World) :
  keyed w -> keyed (snd (processBatch userId images w)).
Proof.
  intros Hw. rewrite processBatch_run. unfold spec_processBatch, bind, ret.
  pose proof (keyed_entries userId images Hw) as He.
  now destruct (spec_entries userId images w) as [[es|t] w'].
Qed.

Lemma keyed_processImage (userId : Z) (input : ImageInput) (w : World) :
  keyed w -> keyed (snd (processImage userId input w)).
Proof.
  intros Hw. rewrite processImage_run.
  destruct (valid _); [|exact Hw].
  pose proof (keyed_processImageWithOcr
                (Buffer_from_base64 (imageData input)) (language input) Hw)
    as Ho.
  destruct (processImageWithOcr _ (language input) w) as [[o|t] w1];
    cbn [snd] in *; [|exact Ho].
  destruct (ocr_success o); [|exact Ho].
  pose proof (keyed_upload_and_persist userId input
                (Buffer_from_base64 (imageData input)) o Ho) as Hu.
  now destruct (spec_upload_and_persist userId input _ o w1) as [[url|t] w2].
Qed.

Lemma keyed_deleteOcrResult (id userId : Z) (w : World) :
  keyed w -> keyed (snd (deleteOcrResult id userId w)).
Proof.
  intros Hw. rewrite deleteOcrResult_run.
  pose proof (keyed_connected Hw) as Hc.
  destruct (connected w) as [[d|] w1]; cbn [snd] in *; [|exact Hc].
  destruct (Database_execute d _ (ext w1)) as [[e|] y]; cbn [snd];
    [exact Hc|].
  now apply keyed_delete.
Qed.

Lemma keyed_saveOcrResult (result : InsertOcrResult) (w : World) :
  keyed w -> keyed (snd (saveOcrResult result w)).
Proof.
  intros Hw. rewrite saveOcrResult_run.
  pose proof (keyed_connected Hw) as Hc.
  destruct (connected w) as [[d|] w1]; cbn [snd] in *; [|exact Hc].
  destruct (Database_execute d _ (ext w1)) as [[e|] y]; cbn [snd];
    [exact Hc|].
  now apply keyed_insert.
Qed.

(** a delete takes at most one row of a table with distinct ids *)
Lemma filter_one_key (id userId : Z) (rows : list OcrResultRow) :
  NoDup (map row_id rows) ->
  (List.length rows
   <= S (List.length (filter (fun r => negb (matches id userId r)) rows)))%nat.
Proof.
  induction rows as [|row rows IH]; [cbn; lia|].
  cbn [map]. intros Hdistinct.
  inversion Hdistinct as [|? ? Hnotin Hrest]; subst.
  cbn [filter]. destruct (matches id userId row) eqn:Hm; cbn [negb List.length].
  - assert (Hall : filter (fun r => negb (matches id userId r)) rows = rows).
    { apply forallb_filter_id. apply forallb_forall. intros r Hin.
      unfold matches in *. apply andb_true_iff in Hm. destruct Hm as [Hid _].
      apply Z.eqb_eq in Hid.
      destruct (row_id r =? id) eqn:Hr; [|reflexivity].
      apply Z.eqb_eq in Hr. exfalso. apply Hnotin. apply in_map_iff.
      exists r. split; [congruence | exact Hin]. }
    rewrite Hall. lia.
  - specialize (IH Hrest). lia.
Qed.

(** X21.  The primary key holds.  From a table whose ids are distinct and
    below the auto-increment counter, every operation that writes to it,
    [processBatch], [processImage], [saveOcrResult] and [deleteOcrResult],
    leaves such a table; and a delete then removes at most one row. *)
Theorem primary_key_is_kept (userId : Z) (w : World) :
  keyed w ->
  (forall images, keyed (snd (processBatch userId images w)))
  /\ (forall input, keyed (snd (processImage userId input w)))
  /\ (forall result, keyed (snd (saveOcrResult result w)))
  /\ (forall id,
        keyed (snd (deleteOcrResult id userId w)) /\
        (List.length (ocrResults w)
         <= S (List.length (ocrResults (snd (deleteOcrResult id userId w)))))%nat).
Proof.
  intros Hw.
  split; [intros images; now apply keyed_processBatch|].
  split; [intros input; now apply keyed_processImage|].
  split; [intros result; now apply keyed_saveOcrResult|].
  intros id. split; [now apply keyed_deleteOcrResult|].
  destruct (deleteOcrResult_rows id userId w) as [-> | ->]; [lia|].
  apply filter_one_key. exact (proj1 Hw).
Qed.

(** X22.  Save, look up, delete.  There is a database handle and the primary
    key holds.
    - When the server rejects the insert, [saveOcrResult] rethrows what the
      driver threw and the table is as before.
    - When the server accepts it, [saveOcrResult] returns the record it was
      given, and the history query of the record's user now selects one row
      more: a row with the fields of the record and, as id, the value the
      counter had.  That row was not in the table before.
    - After an accepted save, a delete of that id by the record's user, when
      the server accepts it, leaves the table as it was before the save.  A
      delete of that id by any other user, accepted or not, leaves the table
      as the save left it. *)
Theorem saveOcrResult_then_delete (result : InsertOcrResult) (w : World)
    (d : Database) :
  keyed w ->
  db_ w = Some d ->
  (forall e y,
     Database_execute d (InsertInto result) (ext w) = (Some e, y) ->
     saveOcrResult result w = (Js.Throw e, set_ext y w))
  /\ (forall y,
        Database_execute d (InsertInto result) (ext w) = (None, y) ->
        let saved := snd (saveOcrResult result w) in
        let row := new_row (ocrResults_nextId w) (Date_now y) result in
        fst (saveOcrResult result w) = Js.Normal (Some result)
        /\ ~ In row (ocrResults w)
        /\ (forall r, In r (select_for (ins_userId result) (ocrResults saved))
               <-> r = row \/
                   In r (select_for (ins_userId result) (ocrResults w)))
        /\ (forall y',
              Database_execute d
                (DeleteWhere (ocrResults_nextId w) (ins_userId result)) y
              = (None, y') ->
              ocrResults
                (snd (deleteOcrResult (ocrResults_nextId w)
                        (ins_userId result) saved))
              = ocrResults w)
        /\ (forall other,
              other <> ins_userId result ->
              ocrResults
                (snd (deleteOcrResult (ocrResults_nextId w) other saved))
              = ocrResults saved)).
Proof.
  intros [_ Hbelow] Hd.
  split.
  { intros e y Hins.
    now rewrite saveOcrResult_run, (connected_ready w Hd), Hins. }
  intros y Hins. cbv zeta.
  rewrite saveOcrResult_run, (connected_ready w Hd), Hins. cbn [fst snd].
  assert (Hold : forall user,
             filter (fun r => negb (matches (ocrResults_nextId w) user r))
                    (ocrResults w) = ocrResults w).
  { intros user. apply forallb_filter_id. apply forallb_forall. intros r Hin.
    rewrite Forall_forall in Hbelow. specialize (Hbelow r Hin).
    unfold matches. destruct (row_id r =? ocrResults_nextId w) eqn:Hr;
      [apply Z.eqb_eq in Hr; lia | reflexivity]. }
  split; [reflexivity|].
  split.
  { intros Hin. rewrite Forall_forall in Hbelow. specialize (Hbelow _ Hin).
    cbn [new_row row_id] in Hbelow. lia. }
  split.
  { intros r. rewrite !select_for_In.
    cbn [apply_statement ocrResults set_table set_ext ocrResults_nextId ext].
    rewrite in_app_iff. cbn [In]. split.
    - intros [[Hin | [<- | []]] Huser]; [right; now split | now left].
    - intros [-> | [Hin Huser]]; [|split; [now left | exact Huser]].
      split; [right; now left | reflexivity]. }
  split.
  - intros y' Hdel. rewrite deleteOcrResult_run.
    rewrite (@connected_ready _ (apply_statement (InsertInto result)
                                   (set_ext y w)) d Hd).
    cbn [ext apply_statement set_ext set_table]. rewrite Hdel.
    cbn [snd apply_statement ocrResults set_table set_ext].
    rewrite filter_app, Hold. cbn [filter]. unfold matches.
    cbn [new_row row_id row_userId ocrResults_nextId set_ext].
    rewrite !Z.eqb_refl. cbn. now rewrite app_nil_r.
  - intros other Hother.
    destruct (deleteOcrResult_rows (ocrResults_nextId w) other
                (apply_statement (InsertInto result) (set_ext y w)))
      as [-> | ->]; [reflexivity|].
    cbn [apply_statement ocrResults set_table set_ext].
    rewrite filter_app, Hold. cbn [filter]. unfold matches.
    cbn [new_row row_id row_userId ocrResults_nextId set_ext].
    apply Z.eqb_neq in Hother. rewrite Z.eqb_sym in Hother.
    rewrite Z.eqb_refl, Hother. reflexivity.
Qed.

End PrimaryKey.

Lemma primary_key_is_kept_witness :
  keyed (snd (processBatch 7 sample_batch two_users))
  /\ (List.length (ocrResults two_users)
      <= S (List.length (ocrResults (snd (deleteOcrResult 1 7 two_users)))))%nat.
Proof.
  assert (Hkeyed : keyed two_users).
  { split; [repeat constructor; cbn; intuition discriminate|].
    repeat constructor. }
  destruct (primary_key_is_kept (R := Lab.runtime) 7 Hkeyed)
    as (Hbatch & _ & _ & Hdelete).
  split; [exact (Hbatch sample_batch) | exact (proj2 (Hdelete 1))].
Defined.

Lemma saveOcrResult_then_delete_witness :
  ocrResults
    (snd (deleteOcrResult 3 7 (snd (saveOcrResult sample_insert
                                      two_users_connected))))
  = ocrResults two_users_connected
  /\ fst (saveOcrResult sample_insert
            (set_table (ocrResults two_users) 3 down_connected))
     = Js.Throw (Js.Error "Connection lost").
Proof.
  assert (Hkeyed : keyed two_users_connected).
  { split; [repeat constructor; cbn; intuition discriminate|].
    repeat constructor. }
  assert (Hdown : keyed (set_table (ocrResults two_users) 3 down_connected)).
  { split; [repeat constructor; cbn; intuition discriminate|].
    repeat constructor. }
  destruct (@saveOcrResult_then_delete Lab.runtime sample_insert
              two_users_connected tt Hkeyed eq_refl) as (_ & Haccepted).
  destruct (@saveOcrResult_then_delete Lab.runtime sample_insert
              (set_table (ocrResults two_users) 3 down_connected) tt
              Hdown eq_refl) as (Hrejected & _).
  destruct (Haccepted (Lab.tick 2 (ext two_users_connected)) eq_refl)
    as (_ & _ & _ & Hdelete & _).
  split.
  - exact (Hdelete (Lab.tick 4 (ext two_users_connected)) eq_refl).
  - now rewrite (Hrejected (Js.Error "Connection lost")
                   (Lab.tick 2 (ext down_connected)) eq_refl).
Defined.

(** ** The cases at work *)

Lemma getDb_behaviour_witness :
  getDb Frail.boot = (Js.Normal None, frail_refused)
  /\ fst (getDb frail_refused) = Js.Normal (Some tt).
Proof.
  destruct (getDb_behaviour (R := Frail.runtime) Frail.boot)
    as (_ & _ & _ & Hthrows).
  destruct (Hthrows "m"%char "ysql://db" (Js.Error "connect ECONNREFUSED")
              1%nat eq_refl eq_refl eq_refl) as (Hfirst & Hnext).
  split; [exact Hfirst | exact (Hnext tt 2%nat eq_refl)].
Defined.

Lemma terminateOcrWorker_behaviour_witness :
  (ocrWorker (snd (terminateOcrWorker frail_working)) = Some O
   /\ fst (getOcrWorker (snd (terminateOcrWorker frail_working)))
      = Js.Normal (Some O))
  /\ workersCreated
       (snd (getOcrWorker (snd (terminateOcrWorker engine_up_recognized))))
     = S (workersCreated engine_up_recognized).
Proof.
  destruct (terminateOcrWorker_behaviour (R := Frail.runtime) frail_working)
    as (_ & _ & Hrejects & _).
  destruct (terminateOcrWorker_behaviour (R := Lab.runtime)
              engine_up_recognized) as (_ & _ & _ & Hresolves).
  destruct (Hrejects O (Js.Error "worker has exited") 2%nat eq_refl eq_refl)
    as (Hkept & Hsame & _).
  split; [split; [exact Hkept | exact Hsame]|].
  exact (proj2 (Hresolves O (Lab.tick 1 (ext engine_up_recognized))
                  eq_refl eq_refl)).
Defined.

Lemma getHistory_returns_own_rows_witness :
  (exists rows,
     getHistory (R := Lab.runtime) Lab_select 7 two_users
     = (Js.Normal rows,
        set_ext (R := Lab.runtime) (Lab.tick 2 (ext two_users_connected)) two_users_connected)
     /\ forall r, In r rows <-> In r (ocrResults two_users) /\ row_userId r = 7)
  /\ getHistory (R := Lab.runtime) Lab_select 7 database_down
     = (Js.Throw (Js.Error "Failed to retrieve OCR history"),
        set_ext (R := Lab.runtime) (Lab.tick 2 (ext (snd (getDb database_down))))
                (snd (getDb database_down))).
Proof.
  destruct (getHistory_returns_own_rows (R := Lab.runtime) Lab_select 7
              two_users) as (_ & Hanswers & _).
  destruct (getHistory_returns_own_rows (R := Lab.runtime) Lab_select 7
              database_down) as (_ & _ & Hrejects).
  split.
  - destruct (Hanswers tt two_users_connected
                (Lab.tick 2 (ext two_users_connected)) eq_refl eq_refl)
      as (rows & _ & Hhistory & _ & Hin & _).
    exists rows. split; [exact Hhistory | exact Hin].
  - exact (proj2 (Hrejects tt (snd (getDb database_down))
                    (Js.Error "Connection lost")
                    (Lab.tick 2 (ext (snd (getDb database_down))))
                    eq_refl eq_refl)).
Defined.

Lemma upsertUser_behaviour_witness :
  upsertUser (R := Lab.runtime) "u-owner" Lab_upsert nobody all_up
    = (Js.Throw (Js.Error "User openId is required for upsert"), all_up)
  /\ upsertUser (R := Lab.runtime) "u-owner" Lab_upsert ann engine_up
     = (Js.Normal tt, engine_up)
  /\ upsertUser (R := Lab.runtime) "u-owner" Lab_upsert ann database_down
     = (Js.Throw (Js.Error "Connection lost"),
        set_ext (R := Lab.runtime) (Lab.tick 2 (ext (snd (getDb database_down))))
                (snd (getDb database_down)))
  /\ upsertUser (R := Lab.runtime) "u-owner" Lab_upsert ann all_up
     = (Js.Normal tt,
        set_ext (R := Lab.runtime) (Lab.tick 2 (ext all_up_connected)) all_up_connected).
Proof.
  destruct (upsertUser_behaviour (R := Lab.runtime) "u-owner" Lab_upsert
              nobody all_up) as (Hempty & _).
  destruct (upsertUser_behaviour (R := Lab.runtime) "u-owner" Lab_upsert
              ann engine_up) as (_ & Hnone & _).
  destruct (upsertUser_behaviour (R := Lab.runtime) "u-owner" Lab_upsert
              ann database_down) as (_ & _ & Hrejects & _).
  destruct (upsertUser_behaviour (R := Lab.runtime) "u-owner" Lab_upsert
              ann all_up) as (_ & _ & _ & Haccepts & _).
  split; [exact (Hempty eq_refl)|].
  split; [exact (Hnone engine_up ltac:(discriminate) eq_refl)|].
  split.
  - exact (Hrejects tt (snd (getDb database_down)) (Js.Error "Connection lost")
             (Lab.tick 2 (ext (snd (getDb database_down))))
             ltac:(discriminate) eq_refl eq_refl).
  - exact (Haccepts tt all_up_connected (Lab.tick 2 (ext all_up_connected))
             ltac:(discriminate) eq_refl eq_refl).
Defined.
